(** * boletin_caba: tender-text normalisation, amount extraction, company
    matching, incremental bulletin fetching and error-log reconciliation.

    A shallow embedding of the Python sources under [scripts/]:
    - [transformaciones_licitaciones.py]: [parsear_nombre_licitacion],
      [parsear_licitacion_con_apertura], [normalizar_etapa],
      [extraer_campos_licitacion], [limpiar_texto_licitacion],
      [extraer_monto_total], [buscar_empresas_fuzzy],
      [procesar_licitaciones_con_progreso];
    - [transformaciones_empresas.py]: [normalizar_sufijos],
      [extraer_pais_y_cuit];
    - [boletin_oficial_api.py]: [obtener_boletin],
      [obtener_boletines_desde_fecha], [descargar_pdf],
      [extraer_texto_pdf], [procesar_licitaciones];
    - [utils_logs.py]: [gestionar_logs_de_errores_boletines],
      [gestionar_log_errores_normas], [guardar_log_errores_normas].

    Conventions.  A Python [str] is a list of Unicode code points ([N]).
    The whitespace table is the complete one of CPython; the digit, word,
    upper- and lower-case tables are exact on the Latin-1 range (code points
    below 256, which covers Spanish text) and treat every other code point
    as a caseless symbol, but for the two capital letters that upper-casing
    a Latin-1 text produces outside the range, which are word characters.  Python exceptions are explicit: a function that
    can raise returns a [result]. *)

From stdpp Require Import gmap strings list.
From Stdlib Require Import ZArith NArith QArith Ascii String List Lia.
From Stdlib Require Import DecimalString Permutation.

#[local] Open Scope N_scope.

(* ------------------------------------------------------------------ *)
(** ** Python strings *)

Abbreviation str := (list N).

(** Decoding of a UTF-8 byte sequence into code points, so that string
    literals can be written as they stand in the sources. *)
Fixpoint utf8_decode (bs : list N) : str :=
  match bs with
  | [] => []
  | b :: rest =>
    if b <? 128 then b :: utf8_decode rest
    else if b <? 224 then
      match rest with
      | b1 :: rest1 => ((b - 192) * 64 + (b1 - 128)) :: utf8_decode rest1
      | [] => [b]
      end
    else if b <? 240 then
      match rest with
      | b1 :: b2 :: rest2 =>
        ((b - 224) * 4096 + (b1 - 128) * 64 + (b2 - 128)) :: utf8_decode rest2
      | _ => [b]
      end
    else
      match rest with
      | b1 :: b2 :: b3 :: rest3 =>
        ((b - 240) * 262144 + (b1 - 128) * 4096 + (b2 - 128) * 64 + (b3 - 128))
          :: utf8_decode rest3
      | _ => [b]
      end
  end.

(** [py "..."]: the Python string written by a literal. *)
Definition py (s : string) : str :=
  utf8_decode (map N_of_ascii (list_ascii_of_string s)).

Definition in_range (lo hi c : N) : bool := (lo <=? c) && (c <=? hi).

(** [str.isspace] on one character; also the class [\s] of [re]. *)
Definition py_isspace (c : N) : bool :=
  in_range 9 13 c || in_range 28 32 c || (c =? 133) || (c =? 160)
  || (c =? 5760) || in_range 8192 8202 c || (c =? 8232) || (c =? 8233)
  || (c =? 8239) || (c =? 8287) || (c =? 12288).

(** The class [\d] of [re]. *)
Definition py_isdigit (c : N) : bool := in_range 48 57 c.

Definition is_upper_latin1 (c : N) : bool :=
  in_range 65 90 c || in_range 192 214 c || in_range 216 222 c.

Definition is_lower_latin1 (c : N) : bool :=
  in_range 97 122 c || in_range 224 246 c || in_range 248 254 c.

(** The class [\w] of [re]: alphanumeric characters and the underscore.
    The last two are the capital y with diaeresis and the capital mu, which
    [str.upper] gives for the Latin-1 letters 255 and 181. *)
Definition py_isword (c : N) : bool :=
  py_isdigit c || in_range 65 90 c || (c =? 95) || in_range 97 122 c
  || (c =? 170) || (c =? 178) || (c =? 179) || (c =? 181) || (c =? 185)
  || (c =? 186) || in_range 188 190 c || in_range 192 214 c
  || in_range 216 246 c || in_range 248 255 c
  || (c =? 376) || (c =? 924).

Definition lower_char (c : N) : N := if is_upper_latin1 c then c + 32 else c.

(** Upper-casing can lengthen the string (the sharp s) and can leave
    Latin-1 (the micro sign, y with diaeresis). *)
Definition upper_char (c : N) : str :=
  if is_lower_latin1 c then [c - 32]
  else if c =? 223 then [83; 83]
  else if c =? 181 then [924]
  else if c =? 255 then [376]
  else [c].

Definition lower (s : str) : str := map lower_char s.
Definition upper (s : str) : str := flat_map upper_char s.

Definition latin1 (s : str) : Prop := Forall (fun c => c < 256) s.

Definition str_eqb (a b : str) : bool := bool_decide (a = b).

(** [s.replace(old, new)] for a one-character [old]. *)
Definition replace_char (old : N) (new : str) (s : str) : str :=
  flat_map (fun c => if c =? old then new else [c]) s.

Fixpoint lstrip (s : str) : str :=
  match s with
  | c :: rest => if py_isspace c then lstrip rest else s
  | [] => []
  end.

Definition rstrip (s : str) : str := rev (lstrip (rev s)).

(** [s.strip()] *)
Definition strip (s : str) : str := rstrip (lstrip s).

(** [s.split()]: the maximal runs of non-whitespace characters.  [cur] is
    the word being read, reversed. *)
Fixpoint split_go (cur : str) (s : str) : list str :=
  match s with
  | [] => match cur with [] => [] | _ => [rev cur] end
  | c :: rest =>
    if py_isspace c
    then match cur with
         | [] => split_go [] rest
         | _ => rev cur :: split_go [] rest
         end
    else split_go (c :: cur) rest
  end.

Definition split (s : str) : list str := split_go [] s.

(** [sep.join(ws)] *)
Fixpoint join (sep : str) (ws : list str) : str :=
  match ws with
  | [] => []
  | [w] => w
  | w :: rest => w ++ sep ++ join sep rest
  end.

(* ------------------------------------------------------------------ *)
(** ** Python values and exceptions *)

Inductive pyobj :=
| PyNone
| PyNaN                 (* the float nan, pandas' missing value *)
| PyInt (z : Z)
| PyStr (s : str).

(** Truth value of an object, as [if x] and [not x] take it. *)
Definition truthy (o : pyobj) : bool :=
  match o with
  | PyNone => false
  | PyNaN => true
  | PyInt z => negb (z =? 0)%Z
  | PyStr s => match s with [] => false | _ => true end
  end.

#[global] Instance pyobj_eq_dec : EqDecision pyobj.
Proof. solve_decision. Defined.

Inductive exn :=
| AttributeError | TypeError | KeyError | ValueError
| ZeroDivisionError | UnboundLocalError | HTTPError (status : Z).

Inductive result (A : Type) :=
| Ok (a : A)
| Raise (e : exn).
Arguments Ok {A} a.
Arguments Raise {A} e.

#[global] Instance exn_eq_dec : EqDecision exn.
Proof. solve_decision. Defined.

#[global] Instance result_eq_dec {A} `{EqDecision A} : EqDecision (result A).
Proof. solve_decision. Defined.

Definition bind {A B} (m : result A) (f : A -> result B) : result B :=
  match m with
  | Ok a => f a
  | Raise e => Raise e
  end.

Definition raises {A} (m : result A) : bool :=
  match m with Ok _ => false | Raise _ => true end.

(** [d.get(k)] on a dictionary written as a literal: the last entry of a
    key is the one the dictionary holds. *)
Fixpoint dict_get {V} (d : list (str * V)) (k : str) : option V :=
  match d with
  | [] => None
  | (k', v) :: rest =>
    match dict_get rest k with
    | Some v' => Some v'
    | None => if str_eqb k' k then Some v else None
    end
  end.

(* ------------------------------------------------------------------ *)
(** ** Tender stages: [normalizar_etapa] *)

Definition ETAPAS_MAP : list (str * str) :=
  [ (py "llamado", py "llamado");
    (py "preadjudicación", py "preadjudicacion");
    (py "preadjudicacion", py "preadjudicacion");
    (py "adjudicación", py "adjudicacion");
    (py "adjudicacion", py "adjudicacion");
    (py "prórroga", py "prorroga");
    (py "prorroga", py "prorroga");
    (py "circular con consulta", py "circular_con_consulta");
    (py "circular sin consulta", py "circular_sin_consulta");
    (py "corrección", py "correccion");
    (py "correccion", py "correccion");
    (py "apertura", py "apertura") ].

Definition normalizar_etapa (etapa : pyobj) : result pyobj :=
  if negb (truthy etapa) then Ok PyNone
  else
    match etapa with
    | PyStr s =>
      Ok (match dict_get ETAPAS_MAP (lower s) with
          | Some v => PyStr v
          | None => PyNone
          end)
    | _ => Raise AttributeError     (* etapa.lower() on a number *)
    end.

(** The vocabulary is the key set of the table, the canonical tags are
    its values. *)
Definition vocabulario : list str := map fst ETAPAS_MAP.
Definition etapas_canonicas : list str := remove_dups (map snd ETAPAS_MAP).

(* ------------------------------------------------------------------ *)
(** ** Regular expressions, as [re] matches them

    The fragment of [re] syntax the sources use, with the matching order of
    a backtracking matcher: [run r c] lists the cursors at which a match of
    [r] started at [c] can end, the preferred one first.  [re.sub],
    [re.findall] take the first. *)

Record cursor := Cursor {
  before : str;                   (* the text to the left, nearest first *)
  after : str;                    (* the text to the right *)
  groups : list (nat * str)       (* the groups captured so far *)
}.

Inductive regex :=
| Eps
| Cls (p : N -> bool)             (* one character of a class *)
| Seq (r1 r2 : regex)
| Alt (r1 r2 : regex)             (* r1|r2 *)
| Star (r : regex)                (* r*, greedy *)
| Bnd                             (* \b *)
| Eol                             (* $ *)
| Grp (n : nat) (r : regex).      (* the n-th capturing group *)

Definition Plus (r : regex) : regex := Seq r (Star r).     (* r+ *)
Definition Opt (r : regex) : regex := Alt r Eps.           (* r? *)
Definition Chr (x : N) : regex := Cls (N.eqb x).

(** A letter under [re.IGNORECASE]: the characters with the same simple
    lower case, and the three that [re] adds for i, s and k. *)
Definition ieq (x c : N) : bool :=
  (lower_char c =? lower_char x)
  || ((lower_char x =? 115) && (c =? 383))
  || ((lower_char x =? 105) && ((c =? 304) || (c =? 305)))
  || ((lower_char x =? 107) && (c =? 8490)).
Definition IChr (x : N) : regex := Cls (ieq x).

Definition word_before (c : cursor) : bool :=
  match before c with x :: _ => py_isword x | [] => false end.
Definition word_after (c : cursor) : bool :=
  match after c with x :: _ => py_isword x | [] => false end.

(** [\b]: exactly one side is a word character. *)
Definition at_boundary (c : cursor) : bool :=
  xorb (word_before c) (word_after c).

(** [$]: at the end, or just before a newline that ends the text. *)
Definition at_eol (c : cursor) : bool :=
  match after c with
  | [] => true
  | [x] => x =? 10
  | _ => false
  end.

(** The text between two cursors of one match. *)
Definition consumed (c c' : cursor) : str :=
  take (length (after c) - length (after c'))%nat (after c).

Definition set_group (n : nat) (c c' : cursor) : cursor :=
  Cursor (before c') (after c') ((n, consumed c c') :: groups c').

(** Greedy iteration.  Each round consumes at least one character (every
    starred expression of the sources does), so the length of the text to
    the right bounds the number of rounds. *)
Fixpoint star (body : cursor -> list cursor) (fuel : nat) (c : cursor)
  : list cursor :=
  match fuel with
  | O => [c]
  | S f =>
    flat_map (fun c' =>
                if (length (after c') <? length (after c))%nat
                then star body f c' else [])
             (body c)
    ++ [c]
  end.

Fixpoint run (r : regex) (c : cursor) : list cursor :=
  match r with
  | Eps => [c]
  | Cls p =>
    match after c with
    | x :: rest => if p x then [Cursor (x :: before c) rest (groups c)] else []
    | [] => []
    end
  | Seq r1 r2 => flat_map (run r2) (run r1 c)
  | Alt r1 r2 => run r1 c ++ run r2 c
  | Star r1 => star (run r1) (length (after c)) c
  | Bnd => if at_boundary c then [c] else []
  | Eol => if at_eol c then [c] else []
  | Grp n r1 => map (set_group n c) (run r1 c)
  end.

(** The match of [r] that starts here, if any. *)
Definition match_at (r : regex) (bef aft : str) : option cursor :=
  head (run r (Cursor bef aft [])).

Definition match_len (r : regex) (bef aft : str) : option nat :=
  match match_at r bef aft with
  | Some c' => Some (length aft - length (after c'))%nat
  | None => None
  end.

(** [re.sub(r, repl, s)], scanning from the left; [skip] counts the
    characters of the last match still to be passed.  No pattern of the
    sources matches the empty string; such a match is passed over. *)
Fixpoint sub_from (r : regex) (repl : str) (skip : nat) (bef aft : str)
  : str :=
  match aft with
  | [] => []
  | x :: rest =>
    match skip with
    | S k => sub_from r repl k (x :: bef) rest
    | O =>
      match match_len r bef aft with
      | Some (S n) => repl ++ sub_from r repl n (x :: bef) rest
      | _ => x :: sub_from r repl O (x :: bef) rest
      end
    end
  end.

Definition re_sub (r : regex) (repl s : str) : str := sub_from r repl O [] s.

(** [re.finditer]: the end cursors of the successive matches. *)
Fixpoint find_from (r : regex) (skip : nat) (bef aft : str) : list cursor :=
  match aft with
  | [] => []
  | x :: rest =>
    match skip with
    | S k => find_from r k (x :: bef) rest
    | O =>
      match match_at r bef aft with
      | Some c' =>
        match (length aft - length (after c'))%nat with
        | S n => c' :: find_from r n (x :: bef) rest
        | O => find_from r O (x :: bef) rest
        end
      | None => find_from r O (x :: bef) rest
      end
    end
  end.

(** The text of group [n] of a match; the empty string when the group took
    no part in it, as [re.findall] reports it. *)
Fixpoint group (n : nat) (gs : list (nat * str)) : str :=
  match gs with
  | [] => []
  | (m, s) :: rest => if (m =? n)%nat then s else group n rest
  end.

Definition re_finditer (r : regex) (s : str) : list cursor := find_from r O [] s.

(** Notions the proofs about matches use: the length of the longest prefix
    of a text in a class, the cursor a number of characters further, and
    the cursors a greedy [c*] offers, longest first. *)
Fixpoint plen (p : N -> bool) (s : str) : nat :=
  match s with
  | c :: rest => if p c then S (plen p rest) else O
  | [] => O
  end.

Definition advance (c : cursor) (n : nat) : cursor :=
  Cursor (rev (take n (after c)) ++ before c) (drop n (after c)) (groups c).

Fixpoint countdown (m : nat) : list nat :=
  match m with
  | O => [O]
  | S k => m :: countdown k
  end.

(** The texts an expression can match, whatever lies around them: [\b]
    and [$] match the empty text, a group matches what its body does. *)
Fixpoint lang (r : regex) (w : str) : Prop :=
  match r with
  | Eps | Bnd | Eol => w = []
  | Cls p => exists x, w = [x] /\ p x = true
  | Seq r1 r2 => exists u v, w = u ++ v /\ lang r1 u /\ lang r2 v
  | Alt r1 r2 => lang r1 w \/ lang r2 w
  | Star r1 => exists ws, w = concat ws /\ Forall (lang r1) ws
  | Grp _ r1 => lang r1 w
  end.

(** [c'] lies the text [w] further than [c]. *)
Definition sigue (c c' : cursor) (w : str) : Prop :=
  after c = w ++ after c' /\ before c' = rev w ++ before c.

(* ------------------------------------------------------------------ *)
(** ** Text cleaning: [limpiar_texto_licitacion] *)

Definition ws : regex := Cls py_isspace.

(** r'\s+' *)
Definition re_espacios : regex := Plus ws.

(** What [re.sub(r'\s+', ' ', t)] computes, read from left to right:
    [en_blanco] tells that the character before was whitespace. *)
Fixpoint colapsar (en_blanco : bool) (t : str) : str :=
  match t with
  | [] => []
  | c :: rest =>
    if py_isspace c
    then if en_blanco then colapsar true rest else 32 :: colapsar true rest
    else c :: colapsar false rest
  end.

(** No whitespace but single spaces. *)
Fixpoint compacto (s : str) : bool :=
  match s with
  | [] => true
  | c :: rest =>
    (if py_isspace c
     then (c =? 32) && match rest with
                       | [] => true
                       | d :: _ => negb (py_isspace d)
                       end
     else true) && compacto rest
  end.

Definition limpiar_texto_licitacion (texto : pyobj) : pyobj :=
  match texto with
  | PyStr t =>
    let t := replace_char 10 (py " ") t in
    let t := re_sub re_espacios (py " ") t in
    PyStr (strip t)
  | _ => texto
  end.

(* ------------------------------------------------------------------ *)
(** ** Amounts: [extraer_monto_total] *)

Definition ch (a : ascii) : N := N_of_ascii a.
Arguments ch a%_char.

Definition digit : regex := Cls py_isdigit.
Definition dot : regex := Chr (ch ".").

(** The numeral that group 2 of [contexto_regex] matches:
    r"(?:\d{1,3}(?:\.\d{3})+|\d+),\d{2}" *)
Definition re_numero : regex :=
  Seq (Alt (Seq (Seq digit (Opt (Seq digit (Opt digit))))
                (Plus (Seq dot (Seq digit (Seq digit digit)))))
           (Plus digit))
  (Seq (Chr (ch ","))
  (Seq digit digit)).

(** r"(USD|\$)?\s*((?:\d{1,3}(?:\.\d{3})+|\d+),\d{2})", re.IGNORECASE *)
Definition contexto_regex : regex :=
  Seq (Opt (Grp 1 (Alt (Seq (IChr (ch "U")) (Seq (IChr (ch "S")) (IChr (ch "D"))))
                       (Chr (ch "$")))))
  (Seq (Star ws)
  (Grp 2 re_numero)).

(** [contexto_regex.findall(s)]: the pairs (group 1, group 2). *)
Definition findall_monto (s : str) : list (str * str) :=
  map (fun c => (group 1 (groups c), group 2 (groups c)))
      (re_finditer contexto_regex s).

Definition digit_val (c : N) : Z := Z.of_N (c - 48).

Fixpoint digits_val (acc : Z) (s : str) : option Z :=
  match s with
  | [] => Some acc
  | c :: rest =>
    if py_isdigit c then digits_val (10 * acc + digit_val c)%Z rest else None
  end.

Fixpoint until_dot (s : str) : str :=
  match s with
  | [] => []
  | c :: rest => if c =? ch "." then [] else c :: until_dot rest
  end.

(** [float(s)] on a plain decimal numeral; any other text is a
    [ValueError] here.  The value is kept as the exact decimal, which the
    float rounds to the nearest double: the rounding is monotone and keeps
    100000, so the comparisons below are those of the floats. *)
Definition float_of_str (s : str) : option Q :=
  let ip := until_dot s in
  let fp := drop (S (length ip)) s in
  match ip ++ fp with
  | [] => None
  | _ =>
    match digits_val 0 ip, digits_val 0 fp with
    | Some i, Some f =>
      Some (Qred (Qmake (i * 10 ^ Z.of_nat (length fp) + f)
                        (Z.to_pos (10 ^ Z.of_nat (length fp)))))
    | _, _ => None
    end
  end.

(** [float(monto_str.replace(".", "").replace(",", "."))] *)
Definition valor_monto (monto_str : str) : option Q :=
  float_of_str
    (replace_char (ch ",") (py ".") (replace_char (ch ".") [] monto_str)).

(** The values of the amounts written in a text. *)
Definition valores (s : str) : list Q :=
  omap valor_monto (map snd (findall_monto s)).

(** The loop over [raw_montos]. *)
Fixpoint montos_normalizados (raw : list (str * str)) : list Q :=
  match raw with
  | [] => []
  | (_, monto_str) :: rest =>
    match valor_monto monto_str with
    | Some monto =>
      if Qle_bool 100000 monto
      then monto :: montos_normalizados rest
      else montos_normalizados rest
    | None => montos_normalizados rest           (* except ValueError *)
    end
  end.

(** [max(l)] on a non-empty list: the first of the greatest elements. *)
Fixpoint py_max (m : Q) (l : list Q) : Q :=
  match l with
  | [] => m
  | x :: rest => if Qle_bool x m then py_max m rest else py_max x rest
  end.

Definition extraer_monto_total (texto_limpio : pyobj) : Q :=
  match texto_limpio with
  | PyStr s =>
    match montos_normalizados (findall_monto s) with
    | [] => 0%Q
    | m :: rest => py_max m rest
    end
  | _ => 0%Q
  end.

(** A text in which no digit is followed by a comma and two digits. *)
Definition sin_decimales (s : str) : Prop :=
  forall u d0 d1 d2 v,
    s = u ++ [d0; ch ","; d1; d2] ++ v ->
    py_isdigit d0 && py_isdigit d1 && py_isdigit d2 = false.

(* ------------------------------------------------------------------ *)
(** ** Company suffixes: [normalizar_sufijos] *)

(** A separator between the letters of a suffix: a period or whitespace. *)
Definition es_sep (c : N) : bool := (c =? ch ".") || py_isspace c.

(** [.\s] *)
Definition dotws : regex := Cls es_sep.

(** r'\bX[.\s]*Y[.\s]*...\b' for the letters X, Y, ... *)
Fixpoint letras (ls : list N) : regex :=
  match ls with
  | [] => Bnd
  | l :: rest => Seq (IChr l) (Seq (Star dotws) (letras rest))
  end.
Definition sufijo (ls : string) : regex := Seq Bnd (letras (py ls)).

Definition sufijos : list (regex * str) :=
  [ (sufijo "SA", py "S.A.");
    (sufijo "SRL", py "S.R.L.");
    (sufijo "SAS", py "S.A.S.");
    (sufijo "CIA", py "C.I.A.");
    (sufijo "SH", py "S.H.");
    (sufijo "SE", py "S.E.");
    (sufijo "SC", py "S.C.");
    (sufijo "SENC", py "S.E.N.C.") ].



(** r'\s*\.\s*' *)
Definition re_punto : regex := Seq (Star ws) (Seq dot (Star ws)).

(** r'\.+$' *)
Definition re_puntos_finales : regex := Seq (Plus dot) Eol.

Definition normalizar_sufijos (nombre : pyobj) : pyobj :=
  match nombre with
  | PyStr n =>
    let n := re_sub re_punto (py ".") (upper n) in
    let n := fold_left (fun n pr => re_sub (fst pr) (snd pr) n) sufijos n in
    let n := re_sub re_puntos_finales (py ".") n in
    PyStr (strip n)
  | _ => nombre
  end.

(* ------------------------------------------------------------------ *)
(** ** The bulletin API: [BoletinOficialAPI.obtener_boletin]

    The network is a parameter: [red fecha i] is what the [i]-th request
    for the bulletin of [fecha] meets.  Console output is not modelled. *)

(** [str(n)] *)
Definition str_of_Z (z : Z) : str := py (NilZero.string_of_int (Z.to_int z)).

(** The bulletin object of an answer: its number and publication date,
    each possibly absent or null.  The number is a value that can be a
    member of a set (a number, a text); the loop only compares it. *)
Record boletin := Boletin {
  numero : option Z;
  fecha_publicacion : option str
}.

(** The "normas" member of an answer: a dictionary with an "errores" list
    of texts, or anything else (no such member, a dictionary without
    "errores", a value that is not a dictionary). *)
Inductive normas :=
| NormasErrores (errores : list str)
| NormasOtras.

(** A JSON object the API answers with: "boletin" may be missing. *)
Record datos := Datos {
  d_boletin : option boletin;
  d_normas : normas
}.

(** The decoded body, by what the fetch loop does with it: a value that is
    false as a condition (null, 0, an empty text, list or object); an
    object whose "boletin", when it has one, is an object; an object whose
    "boletin" is not an object (null, a number, a text, a list); a number
    other than 0 or the value true; a text that is not empty; a list that
    is not empty, with whether the text "boletin" is one of its elements. *)
Inductive cuerpo :=
| CuerpoVacio
| CuerpoDatos (d : datos)
| CuerpoBoletinOtro
| CuerpoNumero
| CuerpoTexto (s : str)
| CuerpoLista (con_boletin : bool).

Inductive respuesta_http :=
| GetFalla (msg : str)                    (* requests.get raised *)
| GetRespuesta (status : Z) (json : cuerpo + str).
                                          (* resp.json(), or what it raised *)

(** The dictionaries [obtener_boletin] returns. *)
Inductive resultado :=
| ResData (data : cuerpo) (fecha : str)   (* {"data": ..., "fecha": ...} *)
| ResError (error : str) (fecha : str).   (* {"error": ..., "fecha": ...} *)

(** What a call can return: a dictionary from the retry loop; [None] or the
    bare body from the statements after it. *)
Inductive retorno :=
| RetDict (r : resultado)
| RetNone
| RetJson (data : cuerpo).

Inductive evento :=
| EvGet (fecha : str)
| EvSleep (delay : Q).

(** [resp.raise_for_status()] raises for the 4xx and 5xx statuses. *)
Definition raise_for_status (status : Z) : bool :=
  ((400 <=? status) && (status <? 600))%Z.

Definition http_msg (status : Z) : str := py "HTTP " ++ str_of_Z status.

Section ObtenerBoletin.
Variable red : str -> nat -> respuesta_http.
Variable fecha : str.
Variable retries : Z.
Variable delay : Q.

(** The statements after the loop, reached only when the loop makes no
  round at all. *)
Definition tras_bucle (n : nat) : result retorno * list evento :=
match red fecha n with
| GetFalla _ => (Ok RetNone, [EvGet fecha])
| GetRespuesta status json =>
  if (status =? 404)%Z then (Ok RetNone, [EvGet fecha])
  else if raise_for_status status then
    if (500 <=? status)%Z then (Ok RetNone, [EvGet fecha])
    else (Raise (HTTPError status), [EvGet fecha])
  else
    match json with
    | inl data => (Ok (RetJson data), [EvGet fecha])
    | inr _ => (Ok RetNone, [EvGet fecha])
    end
end.

(** [for intento in range(retries + 1)]: [k] rounds are left, [n]
  requests were made. *)
Fixpoint bucle_intentos (k : nat) (intento : Z) (n : nat)
: result retorno * list evento :=
match k with
| O => tras_bucle n
| S k' =>
  let ret r := (Ok (RetDict r), [EvGet fecha]) in
  match red fecha n with
  | GetFalla msg => ret (ResError msg fecha)
  | GetRespuesta status json =>
    if (status =? 404)%Z then ret (ResError (py "404 Not Found") fecha)
    else if raise_for_status status then
      if (500 <=? status)%Z then
        if (intento <? retries)%Z then
          let (r, ev) := bucle_intentos k' (intento + 1)%Z (S n) in
          (r, EvGet fecha :: EvSleep delay :: ev)
        else ret (ResError (http_msg status) fecha)
      else ret (ResError (http_msg status) fecha)
    else
      match json with
      | inl data => ret (ResData data fecha)
      | inr msg => ret (ResError msg fecha)
      end
  end
end.

Definition obtener_boletin : result retorno * list evento :=
bucle_intentos (Z.to_nat (retries + 1)) 0%Z O.
End ObtenerBoletin.

Definition peticiones (ev : list evento) : nat :=
  length (filter (fun e => match e with EvGet _ => true | _ => false end) ev).
Definition esperas (ev : list evento) : list Q :=
  flat_map (fun e => match e with EvSleep d => [d] | _ => [] end) ev.

(* ------------------------------------------------------------------ *)
(** ** The incremental fetch: [BoletinOficialAPI.obtener_boletines_desde_fecha]

    A date is its proleptic Gregorian ordinal ([date.toordinal]); the
    cursor [fecha_inicio_dt] is the parsed start date, [hoy] is today. *)

Definition pad2 (z : Z) : str :=
  if (z <? 10)%Z then ch "0" :: str_of_Z z else str_of_Z z.

(** [dt.strftime("%d-%m-%Y")] *)
Definition strftime (ordinal : Z) : str :=
  (let z := ordinal + 305 in
   let era := z / 146097 in
   let doe := z - era * 146097 in
   let yoe := (doe - doe / 1460 + doe / 36524 - doe / 146096) / 365 in
   let doy := doe - (365 * yoe + yoe / 4 - yoe / 100) in
   let mp := (5 * doy + 2) / 153 in
   let d := doy - (153 * mp + 2) / 5 + 1 in
   let m := if mp <? 10 then mp + 3 else mp - 9 in
   let y := yoe + era * 400 + (if m <=? 2 then 1 else 0) in
   pad2 d ++ py "-" ++ pad2 m ++ py "-" ++ str_of_Z y)%Z.

(** [sub in s] *)
Fixpoint is_prefix (p s : str) : bool :=
  match p, s with
  | [], _ => true
  | x :: p', y :: s' => (x =? y) && is_prefix p' s'
  | _ :: _, [] => false
  end.
Fixpoint contains (sub s : str) : bool :=
  is_prefix sub s || match s with [] => false | _ :: s' => contains sub s' end.

(** An element of [resultados]. *)
Record descarga := Descarga {
  r_fecha_publicacion : str;
  r_datos : datos
}.

(** A row of the bulletin error log. *)
Record error_boletin := ErrorBoletin {
  e_fecha : str;
  e_error : str;
  e_tipo_error : str
}.

#[global] Instance error_boletin_eq_dec : EqDecision error_boletin.
Proof. solve_decision. Defined.

(** [DataFrame.drop_duplicates()]: the first of equal rows stays. *)
Fixpoint drop_duplicates_from {A} `{EqDecision A} (seen l : list A) : list A :=
  match l with
  | [] => []
  | x :: rest =>
    if bool_decide (x ∈ seen) then drop_duplicates_from seen rest
    else x :: drop_duplicates_from (x :: seen) rest
  end.
Definition drop_duplicates {A} `{EqDecision A} (l : list A) : list A :=
  drop_duplicates_from [] l.

(** The variables of the loop. *)
Record sesion := Sesion {
  resultados : list descarga;
  errores_boletines : list error_boletin;
  boletines_descargados : gset (option Z)
}.

Section ObtenerBoletines.
Variable red : str -> nat -> respuesta_http.
Variable boletines_existentes : gset (option Z).
Variable fechas_cubiertas : gset str.

Definition anotar_error (s : sesion) (e : error_boletin) : sesion :=
Sesion (resultados s) (errores_boletines s ++ [e]) (boletines_descargados s).

(** The branch taken when the answer has no usable bulletin. *)
Definition fallo_descarga (s : sesion) (fecha_str : str) (r : resultado)
: sesion :=
let tipo_error :=
  match r with
  | ResError e _ => e
  | ResData _ _ => py "Desconocido"
  end in
anotar_error s
  (ErrorBoletin fecha_str tipo_error
     (if contains (py "HTTP") tipo_error || is_prefix (py "5") tipo_error
      then py "http" else py "desconocido")).

(** One round of the [while] loop at the date [dt]. *)
Definition paso (s : sesion) (dt : Z) : result sesion :=
let fecha_str := strftime dt in
if bool_decide (fecha_str ∈ fechas_cubiertas) then Ok s
else
  match fst (obtener_boletin red fecha_str 2 2) with
  | Ok (RetDict (ResData (CuerpoDatos (Datos (Some b) ns as data)) _)) =>
    let num_boletin := numero b in
    let fecha_pub_str :=
      match fecha_publicacion b with Some f => f | None => fecha_str end in
    match ns with
    | NormasErrores errores =>
      let mensaje :=
        match errores with
        | m :: _ => m
        | [] => py "Error en normas (sin mensaje)"
        end in
      Ok (anotar_error s
            (ErrorBoletin fecha_str mensaje (py "servidor_xml")))
    | NormasOtras =>
      if bool_decide (num_boletin ∈ boletines_existentes) then Ok s
      else if bool_decide (num_boletin ∈ boletines_descargados s) then Ok s
      else Ok (Sesion (resultados s ++ [Descarga fecha_pub_str data])
                      (errores_boletines s)
                      ({[ num_boletin ]} ∪ boletines_descargados s))
    end
  | Ok (RetDict (ResData CuerpoBoletinOtro _)) =>
    Raise AttributeError               (* boletin.get on a non-dictionary *)
  | Ok (RetDict (ResData CuerpoNumero _)) =>
    Raise TypeError                    (* "boletin" in a number *)
  | Ok (RetDict (ResData (CuerpoTexto t) _ as r)) =>
    if contains (py "boletin") t
    then Raise TypeError               (* data["boletin"] on a text *)
    else Ok (fallo_descarga s fecha_str r)
  | Ok (RetDict (ResData (CuerpoLista con_boletin) _ as r)) =>
    if con_boletin
    then Raise TypeError               (* data["boletin"] on a list *)
    else Ok (fallo_descarga s fecha_str r)
  | Ok (RetDict r) => Ok (fallo_descarga s fecha_str r)
  | Ok _ => Raise AttributeError       (* result.get on a non-dictionary *)
  | Raise e => Raise e
  end.

(** The dates [fecha_inicio_dt], ..., [hoy], one day apart. *)
Definition fechas (fecha_inicio_dt hoy : Z) : list Z :=
map (fun i => fecha_inicio_dt + Z.of_nat i)%Z
    (seq 0 (Z.to_nat (hoy - fecha_inicio_dt + 1))).

Fixpoint recorrer (s : sesion) (dts : list Z) : result sesion :=
match dts with
| [] => Ok s
| dt :: rest => bind (paso s dt) (fun s' => recorrer s' rest)
end.

(** The returned list, and the error log when the run writes it. *)
Definition obtener_boletines_desde_fecha (fecha_inicio_dt hoy : Z)
: result (list descarga * option (list error_boletin)) :=
bind (recorrer (Sesion [] [] ∅) (fechas fecha_inicio_dt hoy)) (fun s =>
Ok (resultados s,
    match errores_boletines s with
    | [] => None
    | es => Some (drop_duplicates es)
    end)).
End ObtenerBoletines.

(** The number of a downloaded bulletin, as [boletin.get("numero")] reads
    it. *)
Definition numero_descarga (d : descarga) : option Z :=
  match d_boletin (r_datos d) with
  | Some b => numero b
  | None => None
  end.

(** A server that answers every date with bulletin number 1. *)
Definition red_un_boletin : str -> nat -> respuesta_http :=
  fun _ _ =>
    GetRespuesta 200
      (inl (CuerpoDatos (Datos (Some (Boletin (Some 1%Z) None)) NormasOtras))).

(** A server that answers the 24th of April 2024 with a 500 at every try,
    and every other date with an object whose "boletin" is null. *)
Definition red_500_nulo : str -> nat -> respuesta_http :=
  fun fecha _ =>
    if bool_decide (fecha = py "24-04-2024")
    then GetRespuesta 500 (inr [])
    else GetRespuesta 200 (inl CuerpoBoletinOtro).

(** A server that fails once with a 503 and then has no bulletin. *)
Definition red_503_404 : str -> nat -> respuesta_http :=
  fun _ i =>
    match i with
    | O => GetRespuesta 503 (inr [])
    | _ => GetRespuesta 404 (inr [])
    end.

(* ------------------------------------------------------------------ *)
(** ** Error logs: [utils_logs.py]

    A log file is the list of its rows, or absent. *)

(** A row of the log of failed document downloads. *)
Record error_norma := ErrorNorma {
  id_norma : option Z;            (* Int64: a number, or missing *)
  n_error : str;
  n_fecha_ejecucion : str;
  n_tipo_error : str
}.

#[global] Instance error_norma_eq_dec : EqDecision error_norma.
Proof. solve_decision. Defined.

(** A row of a log of corrected errors: the row it was, and the date of the
    run that found it corrected. *)
Record corregido (A : Type) := Corregido {
  c_fila : A;
  c_fecha_correccion : str
}.
Arguments Corregido {A} c_fila c_fecha_correccion.
Arguments c_fila {A} c.
Arguments c_fecha_correccion {A} c.

#[global] Instance corregido_eq_dec {A} `{EqDecision A} : EqDecision (corregido A).
Proof. solve_decision. Defined.

(** The two files a reconciliation reads and writes. *)
Record logs (A : Type) := Logs {
  log_errores : option (list A);
  log_corregidos : option (list (corregido A))
}.
Arguments Logs {A} log_errores log_corregidos.
Arguments log_errores {A} l.
Arguments log_corregidos {A} l.

(** The corrected log after rows were found resolved. *)
Definition guardar_corregidos {A} `{EqDecision A}
    (previos : option (list (corregido A))) (resueltas : list A) (hoy : str)
  : option (list (corregido A)) :=
  match resueltas with
  | [] => previos
  | _ =>
    let nuevas := map (fun f => Corregido f hoy) resueltas in
    match previos with
    | Some df_corr_prev => Some (drop_duplicates (df_corr_prev ++ nuevas))
    | None => Some nuevas
    end
  end.

(** Returns the rows still pending ([None] when there is no log), and the
    files as the call leaves them.  [hoy] is the date of the run. *)
Definition gestionar_logs_de_errores_boletines
    (fechas_cubiertas : gset str) (hoy : str) (fs : logs error_boletin)
  : option (list error_boletin) * logs error_boletin :=
  match log_errores fs with
  | None => (None, fs)
  | Some df_errores_previos =>
    let isin f := bool_decide (e_fecha f ∈ fechas_cubiertas) in
    let fechas_resueltas := filter isin df_errores_previos in
    let fechas_no_resueltas :=
      filter (fun f => negb (isin f)) df_errores_previos in
    (Some fechas_no_resueltas,
     Logs (Some fechas_no_resueltas)
          (guardar_corregidos (log_corregidos fs) fechas_resueltas hoy))
  end.

(** [df_normas_actual] is given by its "id_norma" column. *)
Definition gestionar_log_errores_normas
    (df_normas_actual : list (option Z)) (hoy : str) (fs : logs error_norma)
  : logs error_norma :=
  match log_errores fs with
  | None => fs
  | Some df_errores_previos =>
    let id_normas_actuales : gset Z :=
      list_to_set (omap (fun x => x) df_normas_actual) in
    let isin f :=
      match id_norma f with
      | Some n => bool_decide (n ∈ id_normas_actuales)
      | None => false
      end in
    let errores_corregidos := filter isin df_errores_previos in
    let errores_pendientes :=
      filter (fun f => negb (isin f)) df_errores_previos in
    Logs (Some errores_pendientes)
         (guardar_corregidos (log_corregidos fs) errores_corregidos hoy)
  end.

(** What a reconciliation owes its pending rows [previos]: they split into
    the rows found corrected, whose key is good, and the rows [pendientes],
    whose key is not; each row is in one of the two and not in the other;
    each corrected row is in the corrected log with the date of the run, and
    the corrected log keeps the rows it had.  The counts add up, by rows
    and by distinct keys. *)
Definition reconciliada {A K} `{Countable K} (clave : A -> K)
    (buena : K -> Prop) (hoy : str) (previos pendientes : list A)
    (corr_antes corr_despues : option (list (corregido A))) : Prop :=
  let claves (l : list A) : gset K := list_to_set (map clave l) in
  exists corregidas : list A,
    Permutation (corregidas ++ pendientes) previos
    /\ (forall f, In f corregidas -> buena (clave f))
    /\ (forall f, In f pendientes -> ~ buena (clave f))
    /\ (forall f, In f previos ->
          (In f corregidas /\ ~ In f pendientes)
          \/ (In f pendientes /\ ~ In f corregidas))
    /\ (forall f, In f corregidas ->
          exists lc, corr_despues = Some lc /\ In (Corregido f hoy) lc)
    /\ (forall lc0 c, corr_antes = Some lc0 -> In c lc0 ->
          exists lc, corr_despues = Some lc /\ In c lc)
    /\ (length corregidas + length pendientes = length previos)%nat
    /\ (size (claves corregidas) + size (claves pendientes)
        = size (claves previos))%nat.

(* ------------------------------------------------------------------ *)
(** ** Company search: [buscar_empresas_fuzzy] and
    [procesar_licitaciones_con_progreso]

    The scorer [fuzz.token_set_ratio] of the fuzzywuzzy library is a
    parameter; it scores a segment against a name from 0 to 100.
    [process.extractOne] returns the first of the choices with the greatest
    score, and [None] when there is no choice. *)

Section Fuzzy.
Variable token_set_ratio : str -> str -> Z.

Fixpoint mejor (best : str * Z) (cs : list (str * Z)) : str * Z :=
match cs with
| [] => best
| c :: rest => if (snd c <=? snd best)%Z then mejor best rest else mejor c rest
end.

(** The choices that score below the cutoff, 0, are not candidates. *)
Definition extractOne (query : str) (choices : list str) : option (str * Z) :=
match filter (fun c => (0 <=? snd c)%Z)
             (map (fun c => (c, token_set_ratio query c)) choices) with
| [] => None
| c :: rest => Some (mejor c rest)
end.

(** [' '.join(palabras[i:i+n])] *)
Definition segmento (palabras : list str) (i n : nat) : str :=
join (py " ") (take n (drop i palabras)).

(** [.upper()] on what [limpiar_texto_licitacion] returned. *)
Definition limpiar_upper (texto : pyobj) : result str :=
match limpiar_texto_licitacion texto with
| PyStr t => Ok (upper t)
| _ => Raise AttributeError
end.

(** The body of the two nested loops at one segment. *)
Definition probar_segmento (empresas_normalizadas : list str) (threshold : Z)
  (encontradas : gset str) (seg : str) : result (gset str) :=
match extractOne seg empresas_normalizadas with
| None => Raise TypeError                 (* unpacking None *)
| Some (m, score) =>
  if (threshold <=? score)%Z then Ok ({[ m ]} ∪ encontradas)
  else Ok encontradas
end.

Fixpoint probar_segmentos (empresas_normalizadas : list str) (threshold : Z)
  (encontradas : gset str) (segs : list str) : result (gset str) :=
match segs with
| [] => Ok encontradas
| seg :: rest =>
  bind (probar_segmento empresas_normalizadas threshold encontradas seg)
       (fun e => probar_segmentos empresas_normalizadas threshold e rest)
end.

(** The segments in the order the loops visit them: window sizes 3, 4
  and 5, each from left to right. *)
Definition ventanas (palabras : list str) : list str :=
flat_map (fun window_size =>
            map (fun i => segmento palabras i window_size)
                (seq 0 (length palabras + 1 - window_size)))
         [3; 4; 5]%nat.

(** The result is the set whose elements the returned list holds. *)
Definition buscar_empresas_fuzzy (texto : pyobj)
  (empresas_normalizadas : list str) (threshold : Z) : result (gset str) :=
bind (limpiar_upper texto) (fun texto_limpio =>
if (length texto_limpio <? 10)%nat then Ok ∅
else probar_segmentos empresas_normalizadas threshold ∅
                      (ventanas (split texto_limpio))).

(** A row of the tenders frame; a column the frame lacks is [None]. *)
Record licitacion := Licitacion {
texto_licitaciones : option pyobj;
l_id_norma : option pyobj
}.

(** [row[col]] *)
Definition columna (v : option pyobj) : result pyobj :=
match v with Some x => Ok x | None => Raise KeyError end.

(** [pd.isna(x)] on a scalar. *)
Definition isna (o : pyobj) : bool :=
match o with PyNone | PyNaN => true | _ => false end.

(** [dict(zip(nombres, cuits))]: the keys in the order of their first
  entry, each with the value of its last. *)
Definition mapa_keys (df_empresas : list (str * pyobj)) : list str :=
drop_duplicates (map fst df_empresas).

Definition empresa := (pyobj * str)%type.       (* {"cuit": c, "nombre": n} *)

Definition probar_bloque (df_empresas : list (str * pyobj)) (threshold : Z)
  (detectadas : list empresa) (seg : str) : result (list empresa) :=
match extractOne seg (mapa_keys df_empresas) with
| None => Raise TypeError
| Some (nombre, score) =>
  if (threshold <=? score)%Z then
    let cuit :=
      match dict_get df_empresas nombre with Some c => c | None => PyNone end in
    Ok (detectadas ++ [(cuit, nombre)])
  else Ok detectadas
end.

Fixpoint probar_bloques (df_empresas : list (str * pyobj)) (threshold : Z)
  (detectadas : list empresa) (segs : list str) : result (list empresa) :=
match segs with
| [] => Ok detectadas
| seg :: rest =>
  bind (probar_bloque df_empresas threshold detectadas seg)
       (fun d => probar_bloques df_empresas threshold d rest)
end.

(** The statements of the [try] block for one row.  The first component
  is [id_licitacion] as the block leaves it, also when it raises. *)
Definition cuerpo_try (df_empresas : list (str * pyobj)) (threshold : Z)
  (bloque_size : nat) (id_licitacion : option pyobj) (row : licitacion)
: option pyobj * result (list empresa) :=
match columna (texto_licitaciones row) with
| Raise e => (id_licitacion, Raise e)
| Ok texto =>
  match columna (l_id_norma row) with
  | Raise e => (id_licitacion, Raise e)
  | Ok id =>
    (Some id,
     if isna texto then Ok []
     else
       bind (limpiar_upper texto) (fun texto_limpio =>
       let palabras := split texto_limpio in
       match bloque_size with
       | O => Raise ZeroDivisionError
       | _ =>
         let total_bloques := (length palabras / bloque_size + 1)%nat in
         bind (probar_bloques df_empresas threshold []
                 (map (fun bloque =>
                         segmento palabras (bloque * bloque_size) bloque_size)
                      (seq 0 total_bloques)))
              (fun detectadas =>
         Ok (drop_duplicates
               (filter (fun e => truthy (fst e)) detectadas)))
       end))
  end
end.

(** The loop over the rows; the handler formats [id_licitacion], which
  must be bound by then. *)
Fixpoint filas_con_progreso (df_empresas : list (str * pyobj)) (threshold : Z)
  (bloque_size : nat) (id_licitacion : option pyobj)
  (resultados : list (list empresa)) (rows : list licitacion)
: result (list (list empresa)) :=
match rows with
| [] => Ok resultados
| row :: rest =>
  match cuerpo_try df_empresas threshold bloque_size id_licitacion row with
  | (id', Ok r) =>
    filas_con_progreso df_empresas threshold bloque_size id'
                       (resultados ++ [r]) rest
  | (id', Raise _) =>
    match id' with
    | None => Raise UnboundLocalError
    | Some _ =>
      filas_con_progreso df_empresas threshold bloque_size id'
                         (resultados ++ [[]]) rest
    end
  end
end.

Definition procesar_licitaciones_con_progreso (df : list licitacion)
  (df_empresas : list (str * pyobj)) (threshold : Z) (bloque_size : nat)
: result (list (list empresa)) :=
filas_con_progreso df_empresas threshold bloque_size None [] df.
End Fuzzy.

(* ------------------------------------------------------------------ *)
(** ** Tender titles: [parsear_nombre_licitacion] and its callers *)

(** [re.search]: the first position at which the matcher [m] succeeds,
    with the text before it (nearest first) and the end cursor. *)
Fixpoint search_from (m : cursor -> list cursor) (bef aft : str)
  : option (str * cursor) :=
  match head (m (Cursor bef aft [])) with
  | Some c' => Some (bef, c')
  | None =>
    match aft with
    | [] => None
    | x :: rest => search_from m (x :: bef) rest
    end
  end.

Definition re_search (m : cursor -> list cursor) (s : str)
  : option (str * cursor) :=
  search_from m [] s.

(** r'\s*/\s*' *)
Definition re_barra : regex := Seq (Star ws) (Seq (Chr (ch "/")) (Star ws)).

(** [re.split(r, s, maxsplit=1)], for an expression that matches no empty
    text. *)
Definition re_split1 (r : regex) (s : str) : list str :=
  match re_search (run r) s with
  | Some (bef, c') => [rev bef; after c']
  | None => [s]
  end.

(** Lazy iteration, [r*?]: the shortest first. *)
Fixpoint star_lazy (body : cursor -> list cursor) (fuel : nat) (c : cursor)
  : list cursor :=
  match fuel with
  | O => [c]
  | S f =>
    c :: flat_map (fun c' =>
                     if (length (after c') <? length (after c))%nat
                     then star_lazy body f c' else [])
                  (body c)
  end.

(** [.]: any character but the newline. *)
Definition punto : regex := Cls (fun c => negb (c =? 10)).

(** What follows the lazy group of the expression below: [\s*N°\s*] and
    a greedy group of [.*], under [re.IGNORECASE]. *)
Definition re_numero_codigo : regex :=
  Seq (Star ws)
  (Seq (IChr (ch "N"))
  (Seq (IChr 176)
  (Seq (Star ws)
  (Grp 2 (Star punto))))).

(** The expression that [parsear_nombre_licitacion] searches for, under
    [re.IGNORECASE]: a lazy group of [.*?], then [\s*N°\s*], then a greedy
    group of [.*]. *)
Definition etapa_codigo (c : cursor) : list cursor :=
  flat_map (run re_numero_codigo)
           (map (set_group 1 c)
                (star_lazy (run punto) (length (after c)) c)).

(** The dictionary the parsers return. *)
Record campos := Campos {
  tipo_licitacion : pyobj;
  etapa_licitacion : pyobj;
  codigo_licitacion : pyobj
}.

Definition parsear_nombre_licitacion (nombre_str : pyobj) : campos :=
  let result := Campos PyNone PyNone PyNone in
  match nombre_str with
  | PyStr nombre =>
    match re_split1 re_barra nombre with
    | [parte0; parte1] =>
      let tipo := strip parte0 in
      match re_search etapa_codigo parte1 with
      | Some (_, m) =>
        Campos (PyStr tipo)
               (PyStr (strip (group 1 (groups m))))
               (PyStr (strip (group 2 (groups m))))
      | None => Campos (PyStr tipo) (PyStr (strip parte1)) PyNone
      end
    | _ => result
    end
  | _ => result
  end.

Definition parsear_licitacion_con_apertura (nombre_str sumario_str : pyobj)
  : campos :=
  let base := parsear_nombre_licitacion nombre_str in
  match sumario_str with
  | PyStr sumario =>
    if negb (truthy (etapa_licitacion base)) then
      let lower_sumario := lower sumario in
      if contains (py "apertura:") lower_sumario
         || contains (py "fecha de apertura") lower_sumario
      then Campos (tipo_licitacion base) (PyStr (py "Apertura"))
                  (codigo_licitacion base)
      else base
    else base
  | _ => base
  end.

(** A row, by the two fields [row.get] reads; a field the row lacks is
    [None]. *)
Record fila_norma := FilaNorma {
  f_nombre : option pyobj;
  f_sumario : option pyobj
}.

Definition extraer_campos_licitacion (row : fila_norma) : result campos :=
  let nombre := default PyNone (f_nombre row) in
  let sumario := default (PyStr []) (f_sumario row) in
  let base := parsear_licitacion_con_apertura nombre sumario in
  bind (normalizar_etapa (etapa_licitacion base)) (fun etapa =>
  Ok (Campos (tipo_licitacion base) etapa (codigo_licitacion base))).

(* ------------------------------------------------------------------ *)
(** ** Company identifiers: [extraer_pais_y_cuit] *)

(** The expression that matches the text [s] and nothing else. *)
Fixpoint literal (s : str) : regex :=
  match s with
  | [] => Eps
  | c :: rest => Seq (Chr c) (literal rest)
  end.

(** [A-Z] *)
Definition mayuscula : regex := Cls (in_range 65 90).

(** [\d\-] *)
Definition es_digito_o_guion (c : N) : bool := py_isdigit c || (c =? ch "-").

(** r'^([A-Z]{2})-CUIT-([\d\-]+)-supplier$'.  [re.match] starts at the
    beginning of the text, where [^] holds. *)
Definition re_company_id : regex :=
  Seq (Grp 1 (Seq mayuscula mayuscula))
  (Seq (literal (py "-CUIT-"))
  (Seq (Grp 2 (Plus (Cls es_digito_o_guion)))
  (Seq (literal (py "-supplier")) Eol))).

(** f"{cuit_raw[:2]}-{cuit_raw[2:10]}-{cuit_raw[10]}" *)
Definition formatear_cuit (cuit_raw : str) : str :=
  take 2 cuit_raw ++ py "-" ++ take 8 (drop 2 cuit_raw) ++ py "-"
  ++ take 1 (drop 10 cuit_raw).

(** The pair (country, CUIT); [None] is [pd.NA]. *)
Definition extraer_pais_y_cuit (company_id : pyobj)
  : option str * option str :=
  match company_id with
  | PyStr s =>
    match match_at re_company_id [] s with
    | None => (None, None)
    | Some m =>
      let pais := group 1 (groups m) in
      let cuit_raw := replace_char (ch "-") [] (group 2 (groups m)) in
      if (length cuit_raw =? 11)%nat
      then (Some pais, Some (formatear_cuit cuit_raw))
      else (Some pais, None)
    end
  | _ => (None, None)
  end.

(* ------------------------------------------------------------------ *)
(** ** The log of failed documents: [guardar_log_errores_normas] *)

(** [DataFrame.drop_duplicates(subset=...)]: of the rows with equal values
    in the columns [clave], the first stays. *)
Fixpoint drop_duplicates_by_from {A K} `{EqDecision K} (clave : A -> K)
    (seen : list K) (l : list A) : list A :=
  match l with
  | [] => []
  | x :: rest =>
    if bool_decide (clave x ∈ seen)
    then drop_duplicates_by_from clave seen rest
    else x :: drop_duplicates_by_from clave (clave x :: seen) rest
  end.

Definition drop_duplicates_by {A K} `{EqDecision K} (clave : A -> K)
    (l : list A) : list A :=
  drop_duplicates_by_from clave [] l.

(** The columns "id_norma" and "error" of a row. *)
Definition clave_error_norma (f : error_norma) : option Z * str :=
  (id_norma f, n_error f).

(** The log file after the call: [lista_errores] holds the pairs
    (id_norma, error), [hoy] is the date of the run, [log] the rows of the
    file, if there is one. *)
Definition guardar_log_errores_normas (lista_errores : list (option Z * str))
    (hoy : str) (log : option (list error_norma))
  : option (list error_norma) :=
  match lista_errores with
  | [] => log
  | _ =>
    let df_nuevo :=
      map (fun e => ErrorNorma (fst e) (snd e) hoy (py "timeout"))
          lista_errores in
    match log with
    | Some df_existente =>
      Some (drop_duplicates_by clave_error_norma (df_existente ++ df_nuevo))
    | None => Some df_nuevo
    end
  end.

(* ------------------------------------------------------------------ *)
(** ** Tender documents: [descargar_pdf], [extraer_texto_pdf],
    [procesar_licitaciones]

    The directory of documents is a map from the identifier of a notice to
    the content of its file.  The network and the text extractor are
    parameters: [red_pdf n url] is what the request for [url] meets after
    [n] earlier requests, [texto_de] is the text pdfplumber reads from a
    content, if it reads it. *)

Inductive respuesta_pdf :=
| PdfTimeout                                  (* requests.exceptions.Timeout *)
| PdfFalla                                    (* another exception *)
| PdfRespuesta (status : Z) (content : str).

Record disco := Disco {
  archivos : gmap Z str;
  pedidos : list str                          (* the URLs requested so far *)
}.

(** A row of the notices frame. *)
Record norma := Norma {
  subsecciones : pyobj;
  nr_id_norma : Z;
  nr_url_norma : str
}.

Section Pdf.
Variable red_pdf : nat -> str -> respuesta_pdf.
Variable texto_de : str -> option str.

(** The returned path is that of the file of [id]; the directory as the
  call leaves it. *)
Definition descargar_pdf (d : disco) (id : Z) (url_pdf : str) : disco :=
match archivos d !! id with
| Some _ => d
| None =>
  match red_pdf (length (pedidos d)) url_pdf with
  | PdfRespuesta status content =>
    if raise_for_status status
    then Disco (archivos d) (pedidos d ++ [url_pdf])
    else Disco (<[id := content]> (archivos d)) (pedidos d ++ [url_pdf])
  | _ => Disco (archivos d) (pedidos d ++ [url_pdf])
  end
end.

Definition extraer_texto_pdf (d : disco) (id : Z) : str :=
match archivos d !! id with
| Some content =>
  match texto_de content with
  | Some texto => texto
  | None => []
  end
| None => []
end.

(** The variables of the loop over the tenders. *)
Record lote := Lote {
l_disco : disco;
errores_pdf_normas : list (Z * str);
textos_pdf : list str
}.

Definition mensaje_sin_archivo (id : Z) : str :=
py "No se encontró el archivo para id_norma " ++ str_of_Z id.

(** One round of the loop. *)
Definition procesar_fila (l : lote) (row : norma) : lote :=
let d := descargar_pdf (l_disco l) (nr_id_norma row) (nr_url_norma row) in
match archivos d !! nr_id_norma row with
| None =>
  Lote d
       (errores_pdf_normas l
        ++ [(nr_id_norma row, mensaje_sin_archivo (nr_id_norma row))])
       (textos_pdf l ++ [[]])
| Some _ =>
  Lote d (errores_pdf_normas l)
       (textos_pdf l ++ [extraer_texto_pdf d (nr_id_norma row)])
end.

Definition es_licitacion (row : norma) : bool :=
bool_decide (subsecciones row = PyStr (py "Licitaciones")).

(** The tenders with their texts, the directory and the list of errors as
  the call leaves them. *)
Definition procesar_licitaciones (d : disco) (df_normas : list norma)
: list (norma * str) * disco * list (Z * str) :=
let df_licitaciones := filter es_licitacion df_normas in
let l := fold_left procesar_fila df_licitaciones (Lote d [] []) in
(combine df_licitaciones (textos_pdf l), l_disco l, errores_pdf_normas l).
End Pdf.

(* ------------------------------------------------------------------ *)
(** ** Notions of the statements and proofs below *)

(** Checks of [normalizar_etapa] on one name: it has a canonical tag; its
    tag is kept by a second normalisation. *)
Definition etapa_total (k : str) : bool :=
  match normalizar_etapa (PyStr k) with
  | Ok (PyStr c) => bool_decide (c ∈ etapas_canonicas)
  | _ => false
  end.

Definition etapa_idem (x : str) : bool :=
  bool_decide (bind (normalizar_etapa (PyStr x)) normalizar_etapa
               = normalizar_etapa (PyStr x)).

(** The answer of the server [red] for the date [dt] is a bulletin with
    number [n] and no error in its notices: what the loop can add to its
    results. *)
Definition publica (red : str -> nat -> respuesta_http) (dt : Z)
    (n : option Z) : Prop :=
  exists b f,
    fst (obtener_boletin red (strftime dt) 2 2)
    = Ok (RetDict (ResData (CuerpoDatos (Datos (Some b) NormasOtras)) f))
    /\ numero b = n.

(** The bodies on which a round of the loop raises. *)
Definition cuerpo_invalido (c : cuerpo) : bool :=
  match c with
  | CuerpoBoletinOtro | CuerpoNumero | CuerpoLista true => true
  | CuerpoTexto t => contains (py "boletin") t
  | _ => false
  end.

(** The answer for the date [dt] is such a body. *)
Definition lanza (red : str -> nat -> respuesta_http) (dt : Z) : Prop :=
  exists c f,
    fst (obtener_boletin red (strftime dt) 2 2) = Ok (RetDict (ResData c f))
    /\ cuerpo_invalido c = true.

(** The numbers of the bulletins downloaded so far. *)
Definition numeros (s : sesion) : list (option Z) :=
  map numero_descarga (resultados s).

(** A character of a numeral before its comma; a text whose last character
    is a digit. *)
Definition es_numeral (c : N) : Prop := py_isdigit c = true \/ c = ch ".".

Definition termina_en_digito (w : str) : Prop :=
  exists b d, w = b ++ [d] /\ py_isdigit d = true.

(** A scorer for examples: 100 when the name is one of the words of the
    segment, 0 otherwise. *)
Definition ratio_palabra (seg nombre : str) : Z :=
  if bool_decide (nombre ∈ split seg) then 100 else 0.

(** The kinds of error the fetch loop writes in its log. *)
Definition tipos_error : list str :=
  [py "http"; py "desconocido"; py "servidor_xml"].

(** A row of the log of failed documents as [guardar_log_errores_normas]
    writes it on the date [hoy]. *)
Definition fila_error_norma (hoy : str) (e : option Z * str) : error_norma :=
  ErrorNorma (fst e) (snd e) hoy (py "timeout").

(** The text read from the content of a file; the empty text when the
    extractor raises. *)
Definition texto_o_vacio (texto_de : str -> option str) (content : str)
  : str :=
  match texto_de content with
  | Some texto => texto
  | None => []
  end.

(** An expression with no capturing group. *)
Fixpoint sin_grupos (r : regex) : bool :=
  match r with
  | Eps | Cls _ | Bnd | Eol => true
  | Seq r1 r2 | Alt r1 r2 => sin_grupos r1 && sin_grupos r2
  | Star r1 => sin_grupos r1
  | Grp _ _ => false
  end.

(** A text in which no letter N, in either case, is followed by the degree
    sign: a title part without the marker of the code. *)
Definition sin_numero (v : str) : Prop :=
  forall a x y b, v = a ++ x :: y :: b -> ieq (ch "N") x && ieq 176 y = false.

(** The same, as a check. *)
Fixpoint sin_numero_b (v : str) : bool :=
  match v with
  | x :: rest =>
    match rest with
    | y :: _ => negb (ieq (ch "N") x && ieq 176 y)
    | [] => true
    end && sin_numero_b rest
  | [] => true
  end.

(** No letter N followed by the degree sign among the first [m] characters
    of a text. *)
Definition libre (T : str) (m : nat) : Prop :=
  forall i x y, (i + 1 < m)%nat ->
    T !! i = Some x -> T !! (i + 1)%nat = Some y ->
    ieq (ch "N") x && ieq 176 y = false.

(** The class of [.]. *)
Definition no_salto (c : N) : bool := negb (c =? 10).

(** What a list of detected companies owes the registry: no company is
    repeated, and each has a CUIT that is true as a condition and is the one
    the registry holds for its name. *)
Definition detectadas_en_registro (df_empresas : list (str * pyobj))
    (r : list empresa) : Prop :=
  NoDup r
  /\ forall cuit nombre, In (cuit, nombre) r ->
       truthy cuit = true /\ dict_get df_empresas nombre = Some cuit.

Abbreviation es_punto := (fun c : N => c = ch ".").
Abbreviation sep := (fun c : N => es_sep c = true).
Abbreviation blanco := (fun c : N => py_isspace c = true).

Arguments py : simpl never.
Arguments strftime : simpl never.
Arguments str_of_Z : simpl never.
Arguments obtener_boletin : simpl never.

(* ------------------------------------------------------------------ *)
(** ** Tender stages *)

Lemma dict_get_None_lookup s :
  dict_get ETAPAS_MAP (lower s) = None ->
  normalizar_etapa (PyStr s) = Ok PyNone.
Proof.
  intros H. unfold normalizar_etapa.
  destruct s as [|c s']; [reflexivity|].
  cbn [truthy negb]. now rewrite H.
Qed.

Lemma dict_get_not_in {V} (d : list (str * V)) k :
  ~ In k (map fst d) -> dict_get d k = None.
Proof.
  induction d as [|[k' v] d IH]; intros Hn; [reflexivity|].
  cbn in *. rewrite IH by tauto.
  unfold str_eqb. rewrite bool_decide_eq_false_2; [reflexivity|tauto].
Qed.

(** C5, the tag the claim fails at: [circular_con_consulta] is a canonical
    tag, and [normalizar_etapa] maps it to [None], not to itself. *)
Lemma normalizar_etapa_circular_no_fijo :
  In (py "circular_con_consulta") etapas_canonicas
  /\ normalizar_etapa (PyStr (py "circular_con_consulta")) = Ok PyNone
  /\ normalizar_etapa (PyStr (py "circular_con_consulta"))
     <> Ok (PyStr (py "circular_con_consulta")).
Proof.
  split; [vm_compute; tauto|].
  split; [vm_compute; reflexivity|].
  vm_compute. discriminate.
Qed.

(** C5 (amended).  [normalizar_etapa] is total on its vocabulary: each of
    the twelve known names has a canonical tag.  For every canonical tag
    [x], normalising twice equals normalising once.  Six of the eight
    canonical tags are fixed points; [circular_con_consulta] and
    [circular_sin_consulta] are not names of the vocabulary and map to
    [None].  [None], the empty string and every string whose lower case is
    not in the vocabulary map to [None]. *)
Theorem normalizar_etapa_canonicas :
  (forall k, In k vocabulario ->
     exists c, In c etapas_canonicas
               /\ normalizar_etapa (PyStr k) = Ok (PyStr c))
  /\ (forall x, In x etapas_canonicas ->
        bind (normalizar_etapa (PyStr x)) normalizar_etapa
        = normalizar_etapa (PyStr x))
  /\ (forall x, In x etapas_canonicas ->
        x <> py "circular_con_consulta" -> x <> py "circular_sin_consulta" ->
        normalizar_etapa (PyStr x) = Ok (PyStr x))
  /\ normalizar_etapa (PyStr (py "circular_con_consulta")) = Ok PyNone
  /\ normalizar_etapa (PyStr (py "circular_sin_consulta")) = Ok PyNone
  /\ normalizar_etapa PyNone = Ok PyNone
  /\ normalizar_etapa (PyStr []) = Ok PyNone
  /\ (forall s, ~ In (lower s) vocabulario ->
                normalizar_etapa (PyStr s) = Ok PyNone).
Proof.
  split; [|split; [|split; [|split; [|split; [|split; [|split]]]]]].
  - intros k Hk.
    assert (Hall : forallb etapa_total vocabulario = true)
      by (vm_compute; reflexivity).
    rewrite forallb_forall in Hall. specialize (Hall k Hk).
    unfold etapa_total in Hall.
    destruct (normalizar_etapa (PyStr k)) as [[| | |c]|]; try discriminate.
    exists c. split; [|reflexivity].
    apply bool_decide_eq_true in Hall. now apply list_elem_of_In.
  - intros x Hx.
    assert (Hall : forallb etapa_idem etapas_canonicas = true)
      by (vm_compute; reflexivity).
    rewrite forallb_forall in Hall. specialize (Hall x Hx).
    now apply bool_decide_eq_true in Hall.
  - intros x Hx H1 H2.
    assert (Hc : etapas_canonicas =
                 map py ["llamado"; "preadjudicacion"; "adjudicacion";
                         "prorroga"; "circular_con_consulta";
                         "circular_sin_consulta"; "correccion";
                         "apertura"]%string)
      by (vm_compute; reflexivity).
    rewrite Hc in Hx. cbn [map In] in Hx.
    repeat (destruct Hx as [<-|Hx];
            [first [vm_compute; reflexivity | contradiction]|]).
    contradiction.
  - vm_compute; reflexivity.
  - vm_compute; reflexivity.
  - reflexivity.
  - reflexivity.
  - intros s Hs. apply dict_get_None_lookup, dict_get_not_in, Hs.
Qed.

Lemma normalizar_etapa_canonicas_witness :
  normalizar_etapa (PyStr (py "Desierta")) = Ok PyNone.
Proof.
  apply (proj2 (proj2 (proj2 (proj2 (proj2 (proj2 (proj2
          normalizar_etapa_canonicas))))))).
  vm_compute. intros H.
  repeat (destruct H as [H|H]; [discriminate H|]). exact H.
Defined.

(* ------------------------------------------------------------------ *)
(** ** The bulletin API *)

Ltac romper_respuestas :=
  repeat match goal with
         | |- context [match ?red ?f ?n with GetFalla _ => _ | _ => _ end] =>
           let E := fresh "Hred" in destruct (red f n) as [?|? [?|?]] eqn:E
         | |- context [if ?b then _ else _] =>
           let E := fresh "Hb" in destruct b eqn:E
         end.

(** The loop of a call with two retries, unrolled. *)
Ltac desplegar_intentos :=
  unfold obtener_boletin; change (Z.to_nat (2 + 1)) with 3%nat;
  cbn [bucle_intentos];
  change (0 + 1 + 1 <? 2)%Z with false;
  change (0 + 1 <? 2)%Z with true;
  change (0 <? 2)%Z with true; cbv iota.

(** With the two retries of the callers, a call always returns one of the
    two dictionaries. *)
Lemma obtener_boletin_dict red fecha delay :
  exists r, fst (obtener_boletin red fecha 2 delay) = Ok (RetDict r).
Proof.
  desplegar_intentos. romper_respuestas; cbn [fst]; eauto.
Qed.

Lemma status_5xx status :
  raise_for_status status = true -> (500 <=? status)%Z = true ->
  (500 <= status < 600)%Z.
Proof. unfold raise_for_status. lia. Qed.

(** C9.  A call of [obtener_boletin] with its two retries never raises and
    returns one of the two dictionaries.  It makes at most three requests,
    sleeps the fixed delay between two requests and at no other time, and
    makes a further request only after an answer with a 5xx status.  A
    request that meets a 404 ends the call with the "404 Not Found"
    dictionary; one that meets another 4xx status ends it with the "HTTP
    status" error; one that raises ends it with the message of the
    exception. *)
Theorem obtener_boletin_reintentos red fecha delay :
  let r := fst (obtener_boletin red fecha 2 delay) in
  let ev := snd (obtener_boletin red fecha 2 delay) in
  (exists d, r = Ok (RetDict d))
  /\ (1 <= peticiones ev <= 3)%nat
  /\ length (esperas ev) = (peticiones ev - 1)%nat
  /\ Forall (fun d => d = delay) (esperas ev)
  /\ (forall i, (S i < peticiones ev)%nat ->
        exists status json,
          red fecha i = GetRespuesta status json /\ (500 <= status < 600)%Z)
  /\ (forall i json, (i < peticiones ev)%nat ->
        red fecha i = GetRespuesta 404 json ->
        r = Ok (RetDict (ResError (py "404 Not Found") fecha))
        /\ peticiones ev = S i)
  /\ (forall i status json, (i < peticiones ev)%nat ->
        red fecha i = GetRespuesta status json ->
        (400 <= status < 500)%Z -> status <> 404%Z ->
        r = Ok (RetDict (ResError (http_msg status) fecha))
        /\ peticiones ev = S i)
  /\ (forall i msg, (i < peticiones ev)%nat ->
        red fecha i = GetFalla msg ->
        r = Ok (RetDict (ResError msg fecha)) /\ peticiones ev = S i).
Proof.
  desplegar_intentos. romper_respuestas; cbn [fst snd].
  all: cbn [peticiones esperas filter flat_map length app Nat.sub].
  all: (split; [eauto|]).
  all: (split; [lia|]).
  all: (split; [reflexivity|]).
  all: (split; [repeat constructor|]).
  all: repeat match goal with
       | H : raise_for_status ?s = true, H' : (500 <=? ?s)%Z = true |- _ =>
         pose proof (status_5xx s H H'); clear H'
       end.
  all: unfold raise_for_status in *.
  all: (split; [intros [|[|[|i]]] Hi; try lia; eauto|]).
  all: (split; [intros [|[|[|i]]] json' Hi Hr; try lia;
                try (rewrite Hr in *; simplify_eq; try lia; auto; fail)|]).
  all: (split; [intros [|[|[|i]]] st' json' Hi Hr H4 Hn; try lia;
                try (rewrite Hr in *; simplify_eq; try lia; auto; fail)|]).
  all: intros [|[|[|i]]] msg' Hi Hr; try lia;
       try (rewrite Hr in *; simplify_eq; try lia; auto; fail).
Qed.

Lemma obtener_boletin_reintentos_witness :
  fst (obtener_boletin red_503_404 (py "01-01-2024") 2 2)
  = Ok (RetDict (ResError (py "404 Not Found") (py "01-01-2024")))
  /\ peticiones (snd (obtener_boletin red_503_404 (py "01-01-2024") 2 2)) = 2%nat.
Proof.
  pose proof (obtener_boletin_reintentos red_503_404 (py "01-01-2024") 2) as H.
  cbv zeta in H. destruct H as (_ & _ & _ & _ & _ & H404 & _).
  apply (H404 1%nat (inr [])); [vm_compute; lia|reflexivity].
Defined.

(* ------------------------------------------------------------------ *)
(** ** The incremental fetch *)

Section Recorrido.
Variable red : str -> nat -> respuesta_http.

(** One round keeps the results it has, keeps every number seen among
    the numbers of the results, and accounts for the bulletin of its
    date. *)
Lemma paso_primera E C s dt s' :
  paso red E C s dt = Ok s' ->
  (forall n, n ∈ boletines_descargados s -> In n (numeros s)) ->
  (forall n, n ∈ boletines_descargados s' -> In n (numeros s'))
  /\ (forall n, In n (numeros s) -> In n (numeros s'))
  /\ (forall n, strftime dt ∉ C -> publica red dt n ->
                n ∈ E \/ In n (numeros s')).
Proof.
  unfold paso, publica, numeros. intros Hp Hinv.
  destruct (bool_decide (strftime dt ∈ C)) eqn:HC.
  { apply bool_decide_eq_true in HC. simplify_eq.
    split; [auto|]. split; [auto|]. intros; contradiction. }
  destruct (obtener_boletin_dict red (strftime dt) 2) as [r Hr].
  rewrite Hr in Hp |- *.
  destruct r as [[|[[b|] [errs|]]| | |t|[|]] f|e f]; cbn in Hp.
  all: try discriminate Hp.
  all: try (revert Hp; destruct (contains _ t); intros Hp;
            [discriminate Hp|]).
  all: try (simplify_eq; cbn;
            split; [auto|]; split; [auto|];
            intros n _ (b' & f' & Heq & _); discriminate Heq).
  destruct (bool_decide (numero b ∈ E)) eqn:HE.
  { apply bool_decide_eq_true in HE. simplify_eq.
    split; [auto|]. split; [auto|].
    intros n _ (b' & f' & Heq & <-). simplify_eq. now left. }
  destruct (bool_decide (numero b ∈ boletines_descargados s)) eqn:HD.
  { apply bool_decide_eq_true in HD. simplify_eq.
    split; [auto|]. split; [auto|].
    intros n _ (b' & f' & Heq & <-). simplify_eq. right. auto. }
  simplify_eq. cbn. rewrite map_app. cbn.
  split.
  { intros n Hn. apply in_or_app.
    apply elem_of_union in Hn as [Hn|Hn]; [|left; auto].
    apply elem_of_singleton in Hn. subst. right. now left. }
  split.
  { intros n Hn. apply in_or_app. now left. }
  intros n _ (b' & f' & Heq & <-). simplify_eq.
  right. apply in_or_app. right. now left.
Qed.

Lemma recorrer_primera E C dts : forall s sf,
  recorrer red E C s dts = Ok sf ->
  (forall n, n ∈ boletines_descargados s -> In n (numeros s)) ->
  (forall n, In n (numeros s) -> In n (numeros sf))
  /\ (forall dt n, In dt dts -> strftime dt ∉ C -> publica red dt n ->
                   n ∈ E \/ In n (numeros sf)).
Proof.
  induction dts as [|dt dts IH]; intros s sf Hr Hinv; cbn in Hr.
  - simplify_eq. split; [auto|]. intros dt n [].
  - destruct (paso red E C s dt) as [s'|] eqn:Hs'; [|discriminate Hr].
    cbn in Hr.
    destruct (paso_primera _ _ _ _ _ Hs' Hinv) as (Hinv' & Hmono & Hdt).
    destruct (IH _ _ Hr Hinv') as (Hmono' & Hrest).
    split; [auto|].
    intros d n [<-|Hd] HC Hpub.
    + destruct (Hdt n HC Hpub); auto.
    + eauto.
Qed.

(** A run in which every bulletin on offer is already known adds
    nothing; and it ends where an earlier run over the same dates, with
    no more dates covered, ended: a round raises on the answer alone. *)
Lemma recorrer_segunda E0 C0 E C dts : forall s0 sf0 s,
  recorrer red E0 C0 s0 dts = Ok sf0 ->
  C0 ⊆ C ->
  (forall dt n, In dt dts -> strftime dt ∉ C -> publica red dt n -> n ∈ E) ->
  resultados s = [] ->
  exists sf, recorrer red E C s dts = Ok sf /\ resultados sf = [].
Proof.
  induction dts as [|dt dts IH]; intros s0 sf0 s H0 HCC Hknown Hnil; cbn.
  - eauto.
  - cbn in H0.
    destruct (paso red E0 C0 s0 dt) as [s0'|] eqn:Hp0; [|discriminate H0].
    cbn in H0.
    assert (Hstep : exists s', paso red E C s dt = Ok s' /\ resultados s' = []).
    { unfold paso in Hp0 |- *.
      destruct (bool_decide (strftime dt ∈ C)) eqn:HC; [eauto|].
      apply bool_decide_eq_false in HC.
      assert (HC0 : strftime dt ∉ C0) by set_solver.
      rewrite (bool_decide_eq_false_2 _ HC0) in Hp0.
      destruct (obtener_boletin_dict red (strftime dt) 2) as [r Hr].
      rewrite Hr in Hp0 |- *.
      destruct r as [[|[[b|] [errs|]]| | |t|[|]] f|e f]; cbn in Hp0 |- *;
        eauto; try discriminate Hp0.
      - assert (HE : numero b ∈ E).
        { apply (Hknown dt); [now left|assumption|].
          exists b, f. split; [assumption|reflexivity]. }
        rewrite (bool_decide_eq_true_2 _ HE). eauto.
      - revert Hp0. destruct (contains _ t); intros Hp0;
          [discriminate Hp0|eauto]. }
    destruct Hstep as (s' & -> & Hnil'). cbn.
    apply (IH _ _ _ H0 HCC); [|assumption].
    intros d n Hd. apply Hknown. now right.
Qed.
End Recorrido.

(** C2 (amended).  When a run of [obtener_boletines_desde_fecha] returned
    the downloads [r1], a second run over the same dates against the same
    server returns no download, provided its set of existing numbers holds
    the first run's set and the numbers of [r1], and its set of covered
    dates holds the first run's. *)
Theorem obtener_boletines_segunda_corrida red E C E' C' inicio hoy r1 log1 :
  obtener_boletines_desde_fecha red E C inicio hoy = Ok (r1, log1) ->
  E ⊆ E' -> C ⊆ C' ->
  (forall d, In d r1 -> numero_descarga d ∈ E') ->
  exists log2,
    obtener_boletines_desde_fecha red E' C' inicio hoy = Ok ([], log2).
Proof.
  unfold obtener_boletines_desde_fecha. intros H1 HE HC Hr1.
  destruct (recorrer red E C (Sesion [] [] ∅) (fechas inicio hoy))
    as [sf|] eqn:Hrun; [|discriminate].
  cbn in H1. simplify_eq.
  destruct (recorrer_primera red E C _ _ _ Hrun) as (_ & Hcover).
  { cbn. intros n Hn. set_solver. }
  destruct (recorrer_segunda red E C E' C' (fechas inicio hoy) _ _
              (Sesion [] [] ∅) Hrun HC)
    as (sf2 & -> & Hnil); [|reflexivity|].
  - intros dt n Hdt HC' Hpub.
    destruct (Hcover dt n Hdt) as [Hn|Hn]; [set_solver|assumption|set_solver|].
    unfold numeros in Hn. apply in_map_iff in Hn as (d & <- & Hd). auto.
  - cbn. rewrite Hnil. eauto.
Qed.

(** C2, a run the claim fails at: with no existing number and no covered
    date, against a server that offers bulletin 1, the run over one day
    returns that bulletin; run again with the same two sets, it returns it
    again. *)
Lemma obtener_boletines_misma_corrida :
  let primera := obtener_boletines_desde_fecha red_un_boletin ∅ ∅ 739000 739000 in
  let segunda := obtener_boletines_desde_fecha red_un_boletin ∅ ∅ 739000 739000 in
  primera = segunda
  /\ segunda
     = Ok ([Descarga (py "24-04-2024")
              (Datos (Some (Boletin (Some 1%Z) None)) NormasOtras)], None).
Proof. split; [reflexivity|]. vm_compute. reflexivity. Qed.

Lemma obtener_boletines_segunda_corrida_witness :
  exists log2,
    obtener_boletines_desde_fecha red_un_boletin {[ Some 1%Z ]} ∅ 739000 739000
    = Ok ([], log2).
Proof.
  apply (obtener_boletines_segunda_corrida red_un_boletin ∅ ∅ {[ Some 1%Z ]} ∅
           739000 739000
           [Descarga (py "24-04-2024")
              (Datos (Some (Boletin (Some 1%Z) None)) NormasOtras)] None).
  - vm_compute. reflexivity.
  - set_solver.
  - set_solver.
  - intros d [<-|[]]. cbn. set_solver.
Defined.

(* ------------------------------------------------------------------ *)
(** ** Error logs *)

Lemma drop_duplicates_from_In {A} `{EqDecision A} (l : list A) :
  forall seen x,
    In x (drop_duplicates_from seen l) <-> In x l /\ ~ In x seen.
Proof.
  induction l as [|y l IH]; intros seen x; cbn; [tauto|].
  destruct (bool_decide (y ∈ seen)) eqn:Hy.
  - apply bool_decide_eq_true, list_elem_of_In in Hy.
    rewrite IH. split; [tauto|].
    intros [[<-|Hx] Hn]; [contradiction|tauto].
  - apply bool_decide_eq_false in Hy. rewrite list_elem_of_In in Hy.
    cbn. rewrite IH. cbn. split.
    + intros [<-|(Hx & Hn)]; [tauto|]. split; [tauto|]. tauto.
    + intros [[<-|Hx] Hn]; [tauto|].
      destruct (decide (y = x)) as [<-|Hne]; [tauto|]. right. tauto.
Qed.

Lemma drop_duplicates_In {A} `{EqDecision A} (l : list A) x :
  In x (drop_duplicates l) <-> In x l.
Proof. unfold drop_duplicates. rewrite drop_duplicates_from_In. cbn. tauto. Qed.

Lemma guardar_corregidos_nuevas {A} `{EqDecision A}
    (previos : option (list (corregido A))) resueltas hoy f :
  In f resueltas ->
  exists lc, guardar_corregidos previos resueltas hoy = Some lc
             /\ In (Corregido f hoy) lc.
Proof.
  intros Hf. unfold guardar_corregidos.
  destruct resueltas as [|r rs]; [destruct Hf|].
  assert (Hin : In (Corregido f hoy) (map (fun f => Corregido f hoy) (r :: rs)))
    by (apply in_map_iff; eauto).
  destruct previos as [prev|]; eexists; (split; [reflexivity|]); [|exact Hin].
  apply drop_duplicates_In, in_or_app. now right.
Qed.

Lemma guardar_corregidos_previas {A} `{EqDecision A}
    (lc0 : list (corregido A)) resueltas hoy c :
  In c lc0 ->
  exists lc, guardar_corregidos (Some lc0) resueltas hoy = Some lc /\ In c lc.
Proof.
  intros Hc. unfold guardar_corregidos.
  destruct resueltas as [|r rs]; [eauto|].
  eexists; split; [reflexivity|].
  apply drop_duplicates_In, in_or_app. now left.
Qed.

Section Particion.
Context {A K : Type} `{Countable K}.
Variable clave : A -> K.
Variable isin : A -> bool.
Hypothesis isin_clave : forall a b, clave a = clave b -> isin a = isin b.

Let claves (l : list A) : gset K := list_to_set (map clave l).

Lemma filter_particion (l : list A) :
  Permutation (filter isin l ++ filter (fun f => negb (isin f)) l) l.
Proof.
  induction l as [|a l IH]; cbn; [constructor|].
  destruct (isin a); cbn.
  - now constructor.
  - symmetry. apply Permutation_cons_app. now symmetry.
Qed.

Lemma claves_filter_disjuntas (l : list A) :
  claves (filter isin l) ## claves (filter (fun f => negb (isin f)) l).
Proof.
  unfold claves. intros k Hk1 Hk2.
  apply elem_of_list_to_set, list_elem_of_In, in_map_iff in Hk1
    as (a & <- & Ha).
  apply elem_of_list_to_set, list_elem_of_In, in_map_iff in Hk2
    as (b & Hab & Hb).
  apply filter_In in Ha as (_ & Ha). apply filter_In in Hb as (_ & Hb).
  rewrite (isin_clave _ _ Hab) in Hb. rewrite Ha in Hb. discriminate.
Qed.

Lemma claves_filter_union (l : list A) :
  claves (filter isin l) ∪ claves (filter (fun f => negb (isin f)) l)
  = claves l.
Proof.
  unfold claves. rewrite <- list_to_set_app_L, <- map_app.
  apply set_eq. intros k. rewrite !elem_of_list_to_set, !list_elem_of_In.
  rewrite !in_map_iff.
  split; intros (a & Hk & Ha); exists a; (split; [assumption|]).
  - eapply Permutation_in; [apply filter_particion|assumption].
  - eapply Permutation_in; [symmetry; apply filter_particion|assumption].
Qed.

Lemma claves_filter_size (l : list A) :
  (size (claves (filter isin l))
   + size (claves (filter (fun f => negb (isin f)) l))
   = size (claves l))%nat.
Proof.
  rewrite <- (claves_filter_union l).
  symmetry. apply size_union, claves_filter_disjuntas.
Qed.

(** The two filters of a reconciliation reconcile the log. *)
Lemma filter_reconciliada (buena : K -> Prop) hoy (previos : list A)
    `{EqDecision A} (corr : option (list (corregido A))) :
  (forall f, isin f = true <-> buena (clave f)) ->
  reconciliada clave buena hoy previos
    (filter (fun f => negb (isin f)) previos) corr
    (guardar_corregidos corr (filter isin previos) hoy).
Proof.
  intros Hb. exists (filter isin previos).
  split; [apply filter_particion|].
  split; [intros f Hf; apply filter_In in Hf as (_ & Hf); now apply Hb|].
  split.
  { intros f Hf Hg. apply filter_In in Hf as (_ & Hf).
    apply Hb in Hg. rewrite Hg in Hf. discriminate. }
  split.
  { intros f Hf. rewrite !filter_In.
    destruct (isin f) eqn:Hi; [left|right]; cbn;
      (split; [tauto|]); intros (_ & Hx); discriminate. }
  split; [intros f Hf; now apply guardar_corregidos_nuevas|].
  split; [intros lc0 c -> Hc; now apply guardar_corregidos_previas|].
  split; [apply filter_length|apply claves_filter_size].
Qed.
End Particion.

(** C1.  A reconciliation over an existing log [previos] reconciles it, by
    date against the covered dates and by [id_norma] against the numbers
    of the current notices: the rows written back as pending and the rows
    moved to the corrected log split [previos], no row is in both or in
    neither, and the two counts add up to the count of [previos], by rows
    and by distinct keys.  A row with no [id_norma] stays pending. *)
Theorem reconciliacion_particion :
  (forall fechas_cubiertas hoy previos corr,
     let out := gestionar_logs_de_errores_boletines fechas_cubiertas hoy
                  (Logs (Some previos) corr) in
     exists pendientes,
       fst out = Some pendientes
       /\ log_errores (snd out) = Some pendientes
       /\ reconciliada e_fecha (fun k => k ∈ fechas_cubiertas) hoy
            previos pendientes corr (log_corregidos (snd out)))
  /\ (forall df_normas_actual hoy previos corr,
        let out := gestionar_log_errores_normas df_normas_actual hoy
                     (Logs (Some previos) corr) in
        exists pendientes,
          log_errores out = Some pendientes
          /\ reconciliada id_norma
               (fun k => exists n, k = Some n /\ In (Some n) df_normas_actual)
               hoy previos pendientes corr (log_corregidos out)).
Proof.
  split.
  - intros cub hoy previos corr. cbn.
    eexists; split; [reflexivity|]; split; [reflexivity|].
    apply filter_reconciliada.
    + intros a b Hab. now rewrite Hab.
    + intros f. apply bool_decide_eq_true.
  - intros col hoy previos corr. cbn.
    eexists; split; [reflexivity|].
    apply (filter_reconciliada id_norma
             (fun f => match id_norma f with
                       | Some n => bool_decide
                                     (n ∈ (list_to_set (omap (fun x => x) col) : gset Z))
                       | None => false
                       end)).
    + intros a b Hab. now rewrite Hab.
    + intros f. destruct (id_norma f) as [n|].
      * rewrite bool_decide_eq_true, elem_of_list_to_set, list_elem_of_omap.
        split.
        -- intros (x & Hx & Hn). cbn in Hn. subst x. exists n. split; [reflexivity|].
           now apply list_elem_of_In.
        -- intros (m & Hm & Hin). simplify_eq. exists (Some m).
           split; [now apply list_elem_of_In|reflexivity].
      * split; [discriminate|]. intros (n & Hn & _). discriminate.
Qed.

(* ------------------------------------------------------------------ *)
(** ** Matches of regular expressions *)

Lemma advance_0 c : advance c 0 = c.
Proof. destruct c; reflexivity. Qed.

Lemma advance_S c x rest n :
  after c = x :: rest ->
  advance c (S n) = advance (Cursor (x :: before c) rest (groups c)) n.
Proof.
  intros Ha. unfold advance. rewrite Ha. cbn.
  now rewrite <- app_assoc.
Qed.

Lemma countdown_snoc c x rest m :
  after c = x :: rest ->
  map (advance (Cursor (x :: before c) rest (groups c))) (countdown m) ++ [c]
  = map (advance c) (countdown (S m)).
Proof.
  intros Ha. induction m as [|m IH].
  - cbn. now rewrite (advance_S c x rest 0 Ha), !advance_0.
  - change (countdown (S (S m))) with (S (S m) :: countdown (S m)).
    rewrite map_cons, <- IH.
    change (countdown (S m)) with (S m :: countdown m) at 1.
    rewrite map_cons. cbn [app].
    now rewrite (advance_S c x rest (S m) Ha).
Qed.

Lemma plen_le p s : (plen p s <= length s)%nat.
Proof. induction s as [|c s IH]; cbn; [lia|]. destruct (p c); cbn; lia. Qed.

(** A greedy [c*] offers the prefixes in the class, longest first. *)
Lemma star_cls p fuel : forall c,
  (plen p (after c) <= fuel)%nat ->
  star (run (Cls p)) fuel c = map (advance c) (countdown (plen p (after c))).
Proof.
  induction fuel as [|fuel IH]; intros c Hf.
  - assert (plen p (after c) = 0)%nat as -> by lia. cbn. now rewrite advance_0.
  - cbn [star run]. destruct (after c) as [|x rest] eqn:Ha.
    + cbn. now rewrite advance_0.
    + cbn [plen] in *. destruct (p x) eqn:Hp.
      * cbn [flat_map]. rewrite app_nil_r. cbn [after length].
        rewrite (proj2 (Nat.ltb_lt _ _)) by lia.
        rewrite IH by (cbn; lia). cbn [after].
        now apply countdown_snoc.
      * cbn. now rewrite advance_0.
Qed.

Lemma run_star_cls p c :
  run (Star (Cls p)) c = map (advance c) (countdown (plen p (after c))).
Proof. cbn [run]. apply star_cls, plen_le. Qed.

Lemma run_seq r1 r2 c : run (Seq r1 r2) c = flat_map (run r2) (run r1 c).
Proof. reflexivity. Qed.

Lemma run_alt r1 r2 c : run (Alt r1 r2) c = run r1 c ++ run r2 c.
Proof. reflexivity. Qed.

Lemma run_cls p c :
  run (Cls p) c
  = match after c with
    | x :: rest => if p x then [Cursor (x :: before c) rest (groups c)] else []
    | [] => []
    end.
Proof. reflexivity. Qed.

Lemma head_flat_map {A B} (f : A -> list B) x l :
  head (flat_map f (x :: l))
  = match f x with y :: _ => Some y | [] => head (flat_map f l) end.
Proof. cbn. now destruct (f x). Qed.

Lemma length_after_advance c n :
  (n <= length (after c))%nat ->
  (length (after c) - length (after (advance c n)) = n)%nat.
Proof. intros Hn. cbn. rewrite length_drop. lia. Qed.

(** ** Substitution *)


Lemma sub_from_none r repl bef x rest :
  match_len r bef (x :: rest) = None ->
  sub_from r repl 0 bef (x :: rest) = x :: sub_from r repl 0 (x :: bef) rest.
Proof. intros H. cbn [sub_from]. now rewrite H. Qed.


(* ------------------------------------------------------------------ *)
(** ** Text cleaning *)

Lemma match_len_espacios bef aft :
  match_len re_espacios bef aft
  = match plen py_isspace aft with O => None | n => Some n end.
Proof.
  unfold match_len, match_at, re_espacios, Plus, ws.
  rewrite run_seq, run_cls. cbn [after before groups].
  destruct aft as [|x rest]; [reflexivity|].
  cbn [plen]. destruct (py_isspace x); [|reflexivity].
  rewrite head_flat_map, run_star_cls. cbn [after].
  pose proof (plen_le py_isspace rest).
  destruct (plen py_isspace rest) as [|m] eqn:Hm; cbn [countdown map].
  - rewrite advance_0. cbn [after length]. f_equal. lia.
  - cbn [advance after]. rewrite length_drop. cbn [length]. f_equal. lia.
Qed.

Lemma colapsar_true_no_blanco t :
  plen py_isspace t = 0%nat -> colapsar true t = colapsar false t.
Proof. destruct t as [|c t]; cbn; [reflexivity|]. now destruct (py_isspace c). Qed.

Lemma sub_espacios aft : forall bef,
  sub_from re_espacios (py " ") 0 bef aft = colapsar false aft
  /\ sub_from re_espacios (py " ") (plen py_isspace aft) bef aft
     = colapsar true aft.
Proof.
  induction aft as [|x rest IH]; intros bef; [split; reflexivity|].
  assert (H0 : sub_from re_espacios (py " ") 0 bef (x :: rest)
               = colapsar false (x :: rest)).
  { destruct (match_len re_espacios bef (x :: rest)) as [[|n]|] eqn:Hm;
      rewrite match_len_espacios in Hm; cbn [plen] in Hm;
      destruct (py_isspace x) eqn:Hx; try discriminate.
    - injection Hm as <-.
      cbn [sub_from]. rewrite match_len_espacios. cbn [plen]. rewrite Hx.
      cbn [colapsar]. rewrite Hx.
      rewrite (proj2 (IH (x :: bef))). reflexivity.
    - rewrite sub_from_none
        by (rewrite match_len_espacios; cbn [plen]; now rewrite Hx).
      cbn [colapsar]. rewrite Hx. now rewrite (proj1 (IH (x :: bef))). }
  split; [exact H0|].
  cbn [plen]. destruct (py_isspace x) eqn:Hx.
  - cbn [sub_from colapsar]. rewrite Hx. apply IH.
  - rewrite H0. cbn [colapsar]. now rewrite Hx.
Qed.

Lemma compacto_colapsar t : forall b,
  compacto (colapsar b t) = true
  /\ (b = true -> match colapsar b t with
                  | [] => True
                  | d :: _ => py_isspace d = false
                  end).
Proof.
  induction t as [|c t IH]; intros b; [split; [reflexivity|intros _; exact I]|].
  cbn [colapsar]. destruct (py_isspace c) eqn:Hc.
  - destruct b.
    + apply IH.
    + split; [|discriminate].
      destruct (IH true) as (Hcomp & Hhd). specialize (Hhd eq_refl).
      cbn [compacto]. rewrite Hcomp.
      change (py_isspace 32) with true. cbn.
      destruct (colapsar true t); [reflexivity|]. now rewrite Hhd.
  - split; [|now rewrite Hc].
    cbn [compacto]. rewrite Hc. apply IH.
Qed.

Lemma compacto_solo_espacios s c :
  compacto s = true -> In c s -> py_isspace c = true -> c = 32.
Proof.
  induction s as [|d s IH]; intros Hs Hin Hc; [destruct Hin|].
  cbn [compacto] in Hs. apply andb_prop in Hs as (Hd & Hs).
  destruct Hin as [->|Hin]; [|auto].
  rewrite Hc in Hd. apply andb_prop in Hd as (Hd & _).
  now apply N.eqb_eq in Hd.
Qed.

Lemma compacto_sin_dobles s : forall u a b v,
  compacto s = true -> s = u ++ a :: b :: v ->
  py_isspace a = true -> py_isspace b = false.
Proof.
  intros u. revert s.
  induction u as [|x u IH]; intros s a b v Hs -> Ha.
  - cbn [app compacto] in Hs. rewrite Ha in Hs.
    apply andb_prop in Hs as (Hs & _). apply andb_prop in Hs as (_ & Hs).
    now apply negb_true_iff in Hs.
  - cbn [app compacto] in Hs. apply andb_prop in Hs as (_ & Hs).
    eapply IH; eauto.
Qed.

Lemma lstrip_sufijo s : exists p, s = p ++ lstrip s.
Proof.
  induction s as [|c s (p & IH)]; [now exists []|].
  cbn. destruct (py_isspace c).
  - exists (c :: p). cbn. now f_equal.
  - now exists [].
Qed.

Lemma lstrip_cabeza s c : head (lstrip s) = Some c -> py_isspace c = false.
Proof.
  induction s as [|d s IH]; cbn; [discriminate|].
  destruct (py_isspace d) eqn:Hd; [exact IH|].
  cbn. intros [= <-]. exact Hd.
Qed.

Lemma rstrip_prefijo s : exists q, s = rstrip s ++ q.
Proof.
  unfold rstrip. destruct (lstrip_sufijo (rev s)) as (p & Hp).
  exists (rev p). rewrite <- rev_app_distr, <- Hp. now rewrite rev_involutive.
Qed.

Lemma rstrip_ultimo s c :
  head (rev (rstrip s)) = Some c -> py_isspace c = false.
Proof.
  unfold rstrip. rewrite rev_involutive. apply lstrip_cabeza.
Qed.

Lemma strip_contiguo s : exists p q, s = p ++ strip s ++ q.
Proof.
  unfold strip. destruct (lstrip_sufijo s) as (p & Hp).
  destruct (rstrip_prefijo (lstrip s)) as (q & Hq).
  exists p, q. now rewrite <- Hq.
Qed.

Lemma strip_cabeza s c : head (strip s) = Some c -> py_isspace c = false.
Proof.
  unfold strip. destruct (rstrip_prefijo (lstrip s)) as (q & Hq).
  intros Hh. apply (lstrip_cabeza s). rewrite Hq.
  destruct (rstrip (lstrip s)); [discriminate|exact Hh].
Qed.

(** C8.  On a string, [limpiar_texto_licitacion] returns a string with no
    newline, no whitespace character other than the space, no two spaces in
    a row, and no whitespace at either end.  Any other value is returned as
    it is. *)
Theorem limpiar_texto_licitacion_limpio :
  (forall t, exists o,
      limpiar_texto_licitacion (PyStr t) = PyStr o
      /\ ~ In 10 o
      /\ (forall c, In c o -> py_isspace c = true -> c = 32)
      /\ (forall u v, o <> u ++ [32; 32] ++ v)
      /\ (forall c, head o = Some c -> py_isspace c = false)
      /\ (forall c, head (rev o) = Some c -> py_isspace c = false))
  /\ limpiar_texto_licitacion PyNone = PyNone
  /\ limpiar_texto_licitacion PyNaN = PyNaN
  /\ (forall z, limpiar_texto_licitacion (PyInt z) = PyInt z).
Proof.
  split; [|repeat split].
  intros t. eexists. split; [reflexivity|].
  set (s := re_sub re_espacios (py " ") (replace_char 10 (py " ") t)).
  assert (Hs : compacto s = true).
  { unfold s, re_sub. rewrite (proj1 (sub_espacios _ _)).
    apply compacto_colapsar. }
  destruct (strip_contiguo s) as (p & q & Hpq).
  assert (Hsolo : forall c, In c (strip s) -> py_isspace c = true -> c = 32).
  { intros c Hc. apply (compacto_solo_espacios s c Hs).
    rewrite Hpq. apply in_or_app. right. apply in_or_app. now left. }
  split.
  { intros H10. specialize (Hsolo 10 H10 eq_refl). discriminate. }
  split; [exact Hsolo|].
  split.
  { intros u v Huv.
    assert (Hd : py_isspace 32 = false); [|discriminate Hd].
    apply (compacto_sin_dobles s (p ++ u) 32 32 (v ++ q) Hs); [|reflexivity].
    rewrite Hpq, Huv. cbn. now rewrite <- !app_assoc. }
  split; [apply strip_cabeza|].
  unfold strip. apply rstrip_ultimo.
Qed.

(* ------------------------------------------------------------------ *)
(** ** Soundness of matching *)

Lemma sigue_refl c : sigue c c [].
Proof. split; reflexivity. Qed.

Lemma sigue_trans c1 c2 c3 u v :
  sigue c1 c2 u -> sigue c2 c3 v -> sigue c1 c3 (u ++ v).
Proof.
  intros (Ha & Hb) (Ha' & Hb'). split.
  - now rewrite Ha, Ha', app_assoc.
  - now rewrite Hb', Hb, rev_app_distr, app_assoc.
Qed.

Lemma star_sound (body : cursor -> list cursor) (P : str -> Prop) :
  (forall c c', In c' (body c) -> exists w, sigue c c' w /\ P w) ->
  forall fuel c c', In c' (star body fuel c) ->
    exists ws, sigue c c' (concat ws) /\ Forall P ws.
Proof.
  intros Hbody. induction fuel as [|fuel IH]; intros c c' Hin;
    cbn [star In] in Hin.
  - destruct Hin as [<-|[]]. exists []. split; [apply sigue_refl|constructor].
  - apply in_app_or in Hin as [Hin|[<-|[]]].
    + apply in_flat_map in Hin as (c1 & Hc1 & Hin).
      revert Hin.
      destruct (length (after c1) <? length (after c))%nat; intros Hin;
        [|exfalso; exact Hin].
      destruct (Hbody _ _ Hc1) as (w & Hw & HP).
      destruct (IH _ _ Hin) as (ws & Hws & HF).
      exists (w :: ws). split; [|now constructor].
      cbn. eapply sigue_trans; eauto.
    + exists []. split; [apply sigue_refl|constructor].
Qed.

(** Every match of an expression covers a text of its language. *)
Lemma run_sound r : forall c c',
  In c' (run r c) -> exists w, sigue c c' w /\ lang r w.
Proof.
  induction r as [|p|r1 IH1 r2 IH2|r1 IH1 r2 IH2|r1 IH1| | |n r1 IH1];
    intros c c' Hin; cbn [run lang] in *.
  - destruct Hin as [<-|[]]. exists []. split; [apply sigue_refl|reflexivity].
  - destruct (after c) as [|x rest] eqn:Ha; [exfalso; exact Hin|].
    destruct (p x) eqn:Hp; [|exfalso; exact Hin].
    destruct Hin as [<-|[]]. exists [x]. split; [|eauto].
    split; cbn; [exact Ha|reflexivity].
  - apply in_flat_map in Hin as (c1 & Hc1 & Hin).
    destruct (IH1 _ _ Hc1) as (u & Hu & Lu).
    destruct (IH2 _ _ Hin) as (v & Hv & Lv).
    exists (u ++ v). split; [eapply sigue_trans; eauto|eauto].
  - apply in_app_or in Hin as [Hin|Hin].
    + destruct (IH1 _ _ Hin) as (w & Hw & Lw). eauto.
    + destruct (IH2 _ _ Hin) as (w & Hw & Lw). eauto.
  - destruct (star_sound (run r1) (lang r1) IH1 _ _ _ Hin) as (ws & Hws & HF).
    eauto.
  - destruct (at_boundary c); [|exfalso; exact Hin].
    destruct Hin as [<-|[]]. exists []. split; [apply sigue_refl|reflexivity].
  - destruct (at_eol c); [|exfalso; exact Hin].
    destruct Hin as [<-|[]]. exists []. split; [apply sigue_refl|reflexivity].
  - apply in_map_iff in Hin as (c1 & <- & Hc1).
    destruct (IH1 _ _ Hc1) as (w & (Ha & Hb) & Lw).
    exists w. split; [split; assumption|assumption].
Qed.

Lemma sigue_consumed c c' w : sigue c c' w -> consumed c c' = w.
Proof.
  intros (Ha & _). unfold consumed. rewrite Ha, length_app.
  replace (length w + length (after c') - length (after c'))%nat
    with (length w) by lia.
  now rewrite take_app_length.
Qed.

Lemma match_at_In r bef aft c' :
  match_at r bef aft = Some c' -> In c' (run r (Cursor bef aft [])).
Proof.
  unfold match_at. destruct (run r (Cursor bef aft [])); cbn [head]; [discriminate|].
  intros [= <-]. now left.
Qed.

(** Every match [re.finditer] reports starts somewhere in the text. *)
Lemma find_from_In r aft : forall skip bef c',
  In c' (find_from r skip bef aft) ->
  exists bef' aft',
    rev bef' ++ aft' = rev bef ++ aft /\ match_at r bef' aft' = Some c'.
Proof.
  induction aft as [|x rest IH]; intros skip bef c' Hin; [exfalso; exact Hin|].
  assert (Hrec : forall k, In c' (find_from r k (x :: bef) rest) ->
            exists bef' aft',
              rev bef' ++ aft' = rev bef ++ x :: rest
              /\ match_at r bef' aft' = Some c').
  { intros k Hk. destruct (IH _ _ _ Hk) as (b' & a' & Heq & Hm).
    exists b', a'. split; [|exact Hm].
    rewrite Heq. cbn. now rewrite <- app_assoc. }
  cbn [find_from] in Hin. destruct skip as [|k]; [|eauto].
  destruct (match_at r bef (x :: rest)) as [c1|] eqn:Hm; [|eauto].
  destruct (length (x :: rest) - length (after c1))%nat; [eauto|].
  destruct Hin as [<-|Hin]; [|eauto].
  exists bef, (x :: rest). split; [reflexivity|exact Hm].
Qed.

(* ------------------------------------------------------------------ *)
(** ** Amounts *)

Ltac todos_numerales :=
  repeat (apply Forall_cons; [unfold es_numeral; auto|]); apply Forall_nil.

Lemma termina_en_digito_app u v :
  termina_en_digito v -> termina_en_digito (u ++ v).
Proof. intros (b & d & -> & Hd). exists (u ++ b), d. now rewrite app_assoc. Qed.

Lemma termina_en_digito_concat gs : forall u,
  termina_en_digito u -> Forall termina_en_digito gs ->
  termina_en_digito (u ++ concat gs).
Proof.
  induction gs as [|g gs IH]; intros u Hu Hgs; cbn.
  - now rewrite app_nil_r.
  - inversion Hgs; subst. rewrite app_assoc. apply IH; [|assumption].
    now apply termina_en_digito_app.
Qed.

Lemma Forall_concat_lang (P : N -> Prop) (Q : str -> Prop) ws :
  (forall w, Q w -> Forall P w) -> Forall Q ws -> Forall P (concat ws).
Proof.
  intros HQ Hws. induction Hws; cbn; [constructor|].
  apply Forall_app. split; auto.
Qed.

Lemma lang_digit w : lang digit w -> exists d, w = [d] /\ py_isdigit d = true.
Proof. intros H. exact H. Qed.

Lemma lang_grupo_miles w :
  lang (Seq dot (Seq digit (Seq digit digit))) w ->
  Forall es_numeral w /\ termina_en_digito w.
Proof.
  intros (u & v & -> & (x & -> & Hx) & (u1 & v1 & -> & (d1 & -> & H1)
          & (u2 & v2 & -> & (d2 & -> & H2) & (d3 & -> & H3)))).
  apply N.eqb_eq in Hx. subst x. split.
  - todos_numerales.
  - exists [ch "."; d1; d2], d3. split; [reflexivity|assumption].
Qed.

(** The part of a numeral before the comma: digits and periods, the last
    one a digit. *)
Lemma lang_entero w :
  lang (Alt (Seq (Seq digit (Opt (Seq digit (Opt digit))))
                 (Plus (Seq dot (Seq digit (Seq digit digit)))))
            (Plus digit)) w ->
  Forall es_numeral w /\ termina_en_digito w.
Proof.
  intros [H|H].
  - destruct H as (a & b & -> & Ha & (g & gs & -> & Hg & (ws & -> & Hws))).
    apply lang_grupo_miles in Hg as (Hg1 & Hg2).
    assert (Hws' : Forall (fun w => Forall es_numeral w /\ termina_en_digito w) ws).
    { eapply Forall_impl; [|exact Hws]. intros w. apply lang_grupo_miles. }
    assert (Hda : Forall es_numeral a).
    { destruct Ha as (u & v & -> & (x & -> & Hx) & [Hv|Hv]).
      - destruct Hv as (u1 & v1 & -> & (y & -> & Hy) & [Hz|Hz]).
        + destruct Hz as (z & -> & Hz).
          todos_numerales.
        + cbn in Hz. subst. todos_numerales.
      - cbn in Hv. subst. todos_numerales. }
    split.
    + apply Forall_app. split; [assumption|].
      apply Forall_app. split; [assumption|].
      eapply Forall_concat_lang; [|exact Hws']. now intros w (? & _).
    + apply termina_en_digito_app, termina_en_digito_concat; [assumption|].
      eapply Forall_impl; [|exact Hws']. now intros w (_ & ?).
  - destruct H as (u & v & -> & (x & -> & Hx) & (ws & -> & Hws)).
    assert (Hws' : Forall (fun w => Forall es_numeral w /\ termina_en_digito w) ws).
    { eapply Forall_impl; [|exact Hws]. intros w (d & -> & Hd). split.
      - todos_numerales.
      - exists [], d. split; [reflexivity|assumption]. }
    split.
    + apply Forall_app. split; [todos_numerales|].
      eapply Forall_concat_lang; [|exact Hws']. now intros w (? & _).
    + apply termina_en_digito_concat.
      * exists [], x. split; [reflexivity|assumption].
      * eapply Forall_impl; [|exact Hws']. now intros w (_ & ?).
Qed.

(** A numeral of [re_numero]: digits and periods up to a digit, then a
    comma and two digits. *)
Lemma lang_re_numero w :
  lang re_numero w ->
  exists b d0 d1 d2,
    w = b ++ [d0; ch ","; d1; d2]
    /\ Forall es_numeral b
    /\ py_isdigit d0 = true /\ py_isdigit d1 = true /\ py_isdigit d2 = true.
Proof.
  intros (u & v & -> & Hu & (u1 & v1 & -> & (x & -> & Hx)
          & (u2 & v2 & -> & (d1 & -> & H1) & (d2 & -> & H2)))).
  apply N.eqb_eq in Hx. subst x.
  apply lang_entero in Hu as (Hnum & (b & d0 & -> & H0)).
  exists b, d0, d1, d2. split; [now rewrite <- app_assoc|].
  split; [|auto]. apply Forall_app in Hnum. tauto.
Qed.

Lemma in_run_seq r1 r2 c c' :
  In c' (run (Seq r1 r2) c) ->
  exists c1, In c1 (run r1 c) /\ In c' (run r2 c1).
Proof. intros H. now apply in_flat_map in H. Qed.

Lemma in_run_grp n r c c' :
  In c' (run (Grp n r) c) ->
  exists c1, set_group n c c1 = c' /\ In c1 (run r c).
Proof. intros H. now apply in_map_iff in H. Qed.

(** What a match of [contexto_regex] leaves in group 2 is a numeral that
    the match covers to its end. *)
Lemma run_contexto_regex c c' :
  In c' (run contexto_regex c) ->
  exists pre w,
    lang re_numero w /\ sigue c c' (pre ++ w)
    /\ group 2 (groups c') = w.
Proof.
  unfold contexto_regex. intros Hin.
  apply in_run_seq in Hin as (c1 & Hc1 & Hin).
  apply in_run_seq in Hin as (c2 & Hc2 & Hin).
  apply in_run_grp in Hin as (c3 & <- & Hc3).
  apply run_sound in Hc1 as (u1 & Hu1 & _).
  apply run_sound in Hc2 as (u2 & Hu2 & _).
  apply run_sound in Hc3 as (w & Hw & Lw).
  exists (u1 ++ u2), w. split; [assumption|]. split.
  - apply (sigue_trans c c2 _); [eapply sigue_trans; eauto|].
    destruct Hw as (Ha & Hb). split; assumption.
  - cbn. now apply sigue_consumed.
Qed.

(** Every amount [findall] reports stands in the text. *)
Lemma findall_monto_In s g1 g2 :
  In (g1, g2) (findall_monto s) ->
  lang re_numero g2 /\ exists u v, s = u ++ g2 ++ v.
Proof.
  unfold findall_monto, re_finditer. intros Hin.
  apply in_map_iff in Hin as (c' & Heq & Hin).
  apply find_from_In in Hin as (bef & aft & Hs & Hm).
  apply match_at_In, run_contexto_regex in Hm as (pre & w & Lw & (Ha & _) & Hg).
  injection Heq as _ <-. rewrite Hg. split; [assumption|].
  cbn in Hs, Ha. rewrite <- Hs, Ha.
  exists (rev bef ++ pre), (after c'). now rewrite <- !app_assoc.
Qed.

Lemma findall_monto_sin_decimales s :
  sin_decimales s -> findall_monto s = [].
Proof.
  intros Hs. destruct (findall_monto s) as [|[g1 g2] l] eqn:Hf; [reflexivity|].
  exfalso.
  destruct (findall_monto_In s g1 g2) as (Lw & u & v & Huv);
    [rewrite Hf; now left|].
  apply lang_re_numero in Lw as (b & d0 & d1 & d2 & -> & _ & H0 & H1 & H2).
  specialize (Hs (u ++ b) d0 d1 d2 v).
  rewrite H0, H1, H2 in Hs.
  assert (true = false); [|discriminate].
  apply Hs. rewrite Huv. now rewrite <- !app_assoc.
Qed.

(** C10.  Every amount that [extraer_monto_total] reads is a run of digits
    and periods that ends in a digit, a comma and two digits.  On a text
    (of Latin-1 characters) in which no digit is followed by a comma and
    two digits, the result is 0, whatever the figures: so for
    "$ 2.400.000". *)
Theorem extraer_monto_total_solo_decimales :
  (forall s g1 g2, In (g1, g2) (findall_monto s) ->
     exists b d0 d1 d2,
       g2 = b ++ [d0; ch ","; d1; d2]
       /\ Forall (fun c => py_isdigit c = true \/ c = ch ".") b
       /\ py_isdigit d0 = true /\ py_isdigit d1 = true
       /\ py_isdigit d2 = true)
  /\ (forall s, latin1 s -> sin_decimales s ->
                extraer_monto_total (PyStr s) = 0%Q)
  /\ extraer_monto_total (PyStr (py "$ 2.400.000")) = 0%Q
  /\ extraer_monto_total (PyStr (py "USD 1.000.000.000")) = 0%Q.
Proof.
  split; [|split; [|split]].
  - intros s g1 g2 Hin. apply findall_monto_In in Hin as (Lw & _).
    now apply lang_re_numero.
  - intros s _ Hs. unfold extraer_monto_total.
    now rewrite (findall_monto_sin_decimales s Hs).
  - vm_compute. reflexivity.
  - vm_compute. reflexivity.
Qed.

Lemma sin_decimales_total : sin_decimales (py "total 2.400.000 pesos").
Proof.
  intros u d0 d1 d2 v Huv.
  destruct (py_isdigit d0 && py_isdigit d1 && py_isdigit d2) eqn:Hd;
    [exfalso|reflexivity].
  assert (Hc : In (ch ",") (py "total 2.400.000 pesos")).
  { rewrite Huv. apply in_or_app. right. right. now left. }
  vm_compute in Hc.
  repeat (destruct Hc as [Hc|Hc]; [discriminate Hc|]). exact Hc.
Qed.

Lemma extraer_monto_total_solo_decimales_witness :
  extraer_monto_total (PyStr (py "total 2.400.000 pesos")) = 0%Q.
Proof.
  apply (proj1 (proj2 extraer_monto_total_solo_decimales)).
  - unfold latin1. vm_compute. repeat constructor.
  - exact sin_decimales_total.
Defined.

Lemma montos_normalizados_filter raw :
  montos_normalizados raw
  = filter (Qle_bool 100000) (omap valor_monto (map snd raw)).
Proof.
  induction raw as [|[g1 g2] raw IH]; [reflexivity|].
  cbn [montos_normalizados map snd omap list_omap].
  destruct (valor_monto g2) as [m|]; cbn [filter]; [|exact IH].
  destruct (Qle_bool 100000 m); now rewrite IH.
Qed.

(** [max] returns an element of the list that no element exceeds. *)
Lemma py_max_spec l : forall m,
  In (py_max m l) (m :: l)
  /\ (forall v, In v (m :: l) -> (v <= py_max m l)%Q).
Proof.
  induction l as [|x l IH]; intros m; cbn [py_max].
  - split; [now left|]. intros v [<-|[]]. apply Qle_refl.
  - destruct (Qle_bool x m) eqn:Hx.
    + destruct (IH m) as (Hin & Hmax). split.
      * destruct Hin as [Hin|Hin]; [now left|right; now right].
      * intros v [Hv|[Hv|Hv]].
        -- apply Hmax. now left.
        -- subst v. apply Qle_bool_iff in Hx.
           eapply Qle_trans; [exact Hx|]. apply Hmax. now left.
        -- apply Hmax. now right.
    + destruct (IH x) as (Hin & Hmax). split.
      * right. exact Hin.
      * intros v [Hv|[Hv|Hv]].
        -- subst v. assert (Hlt : (m < x)%Q).
           { apply Qnot_le_lt. intros Hle. apply Qle_bool_iff in Hle.
             rewrite Hle in Hx. discriminate. }
           eapply Qle_trans; [apply Qlt_le_weak, Hlt|]. apply Hmax. now left.
        -- apply Hmax. now left.
        -- apply Hmax. now right.
Qed.

(** C7.  On a string, [extraer_monto_total] returns 0 when none of the
    amounts written in it reaches 100000, and otherwise the greatest of
    those that do.  On the text of the example it returns 2400000, the
    amount 50000 being below the floor.  On any value that is not a string
    it returns 0. *)
Theorem extraer_monto_total_maximo :
  (forall s,
     let r := extraer_monto_total (PyStr s) in
     ((forall v, In v (valores s) -> Qle_bool 100000 v = false) /\ r = 0%Q)
     \/ (In r (valores s) /\ (100000 <= r)%Q
         /\ forall v, In v (valores s) -> (100000 <= v)%Q -> (v <= r)%Q))
  /\ valores (py "El monto total es $ 2.400.000,00 y el anticipo es $ 50.000,00")
     = [2400000%Q; 50000%Q]
  /\ extraer_monto_total
       (PyStr (py "El monto total es $ 2.400.000,00 y el anticipo es $ 50.000,00"))
     = 2400000%Q
  /\ extraer_monto_total PyNone = 0%Q
  /\ extraer_monto_total PyNaN = 0%Q
  /\ (forall z, extraer_monto_total (PyInt z) = 0%Q).
Proof.
  split; [|split; [|split; [|repeat split]]].
  - intros s. cbn zeta. unfold extraer_monto_total.
    rewrite montos_normalizados_filter. fold (valores s).
    destruct (filter (Qle_bool 100000) (valores s)) as [|m l] eqn:Hf.
    + left. split; [|reflexivity]. intros v Hv.
      destruct (Qle_bool 100000 v) eqn:Hb; [|reflexivity].
      assert (Hin : In v (filter (Qle_bool 100000) (valores s)))
        by (apply filter_In; auto).
      rewrite Hf in Hin. destruct Hin.
    + right. destruct (py_max_spec l m) as (Hin & Hmax).
      rewrite <- Hf in Hin, Hmax.
      apply filter_In in Hin as (Hin & Hfloor).
      split; [assumption|]. split; [now apply Qle_bool_iff|].
      intros v Hv Hle. apply Hmax, filter_In. split; [assumption|].
      now apply Qle_bool_iff.
  - vm_compute. reflexivity.
  - vm_compute. reflexivity.
Qed.

(* ------------------------------------------------------------------ *)
(** ** Character classes *)

Ltac evaluar_ch :=
  repeat match goal with
         | |- context [ch ?a] =>
           let v := eval vm_compute in (ch a) in change (ch a) with v
         | H : context [ch ?a] |- _ =>
           let v := eval vm_compute in (ch a) in change (ch a) with v in H
         end.

Ltac clases :=
  unfold es_sep, py_isspace, py_isword, py_isdigit, ieq, lower_char,
    upper_char, is_upper_latin1, is_lower_latin1, in_range in *;
  evaluar_ch;
  repeat match goal with
         | H : context [if ?b then _ else _] |- _ => destruct b eqn:?
         | |- context [if ?b then _ else _] => destruct b eqn:?
         end;
  repeat progress
    (rewrite ?Bool.orb_true_iff, ?Bool.andb_true_iff, ?Bool.orb_false_iff,
       ?Bool.andb_false_iff, ?N.leb_le, ?N.leb_gt, ?N.eqb_eq, ?N.eqb_neq in *);
  first [reflexivity | lia | exfalso; lia | idtac].






(* ------------------------------------------------------------------ *)
(** ** Greedy runs *)

Lemma flat_map_nil {A B} (f : A -> list B) l :
  (forall x, In x l -> f x = []) -> flat_map f l = [].
Proof.
  induction l as [|x l IH]; intros H; [reflexivity|].
  cbn. rewrite (H x) by now left. apply IH. intros y Hy. apply H. now right.
Qed.

Lemma In_countdown j m : In j (countdown m) <-> (j <= m)%nat.
Proof.
  induction m as [|m IH]; cbn [countdown In].
  - split; [intros [<-|[]]; lia|intros; left; lia].
  - rewrite IH. lia.
Qed.

(** When only the longest run leads on, the match goes through it. *)
Lemma flat_map_countdown_largo (f : cursor -> list cursor) c m :
  (forall j, (j < m)%nat -> f (advance c j) = []) ->
  flat_map f (map (advance c) (countdown m)) = f (advance c m).
Proof.
  intros H. destruct m as [|m]; cbn [countdown map flat_map].
  - apply app_nil_r.
  - rewrite flat_map_nil; [apply app_nil_r|].
    intros x Hx. apply in_map_iff in Hx as (j & <- & Hj).
    apply In_countdown in Hj. apply H. lia.
Qed.


Lemma plen_app_all p g t :
  Forall (fun c => p c = true) g -> plen p (g ++ t) = (length g + plen p t)%nat.
Proof.
  induction 1 as [|c g Hc _ IH]; [reflexivity|].
  cbn. now rewrite Hc, IH.
Qed.

Lemma plen_all p g :
  Forall (fun c => p c = true) g -> plen p g = length g.
Proof.
  intros H. rewrite <- (app_nil_r g) at 1. rewrite plen_app_all by assumption.
  cbn. lia.
Qed.



Lemma plen_drop_lt p s j :
  (j < plen p s)%nat -> exists x rest, drop j s = x :: rest /\ p x = true.
Proof.
  revert j. induction s as [|c s IH]; intros j Hj; cbn in Hj; [lia|].
  destruct (p c) eqn:Hc; [|lia].
  destruct j as [|j]; [exists c, s; auto|].
  cbn. apply IH. lia.
Qed.

(** ** Texts with no match *)



(* ------------------------------------------------------------------ *)
(** ** The letters of a suffix *)







(* ------------------------------------------------------------------ *)
(** ** Periods and the whitespace around them *)

Lemma plen_app_stop p g L rest :
  p L = false -> plen p (g ++ L :: rest) = plen p g.
Proof.
  intros HL. induction g as [|c g IH]; cbn; [now rewrite HL|].
  destruct (p c); [now rewrite IH|reflexivity].
Qed.













(* ------------------------------------------------------------------ *)
(** ** The suffix expressions on a way of writing "S A" *)

Lemma run_bnd c : run Bnd c = if at_boundary c then [c] else [].
Proof. reflexivity. Qed.

Lemma run_ichr l bef x rest g :
  run (IChr l) (Cursor bef (x :: rest) g)
  = if ieq l x then [Cursor (x :: bef) rest g] else [].
Proof. reflexivity. Qed.


Lemma advance_app c g t :
  after c = g ++ t ->
  advance c (length g) = Cursor (rev g ++ before c) t (groups c).
Proof.
  intros Ha. unfold advance. rewrite Ha.
  now rewrite take_app_length, drop_app_length.
Qed.












(* ------------------------------------------------------------------ *)
(** ** The periods at the end *)








(* ------------------------------------------------------------------ *)
(** ** Company suffixes *)



Lemma lstrip_blancos w s : Forall blanco w -> lstrip (w ++ s) = lstrip s.
Proof.
  induction 1 as [|c w Hc _ IH]; [reflexivity|].
  cbn. now rewrite Hc.
Qed.


(** C6.  Where a suffix is followed by a period and more text,
    [normalizar_sufijos] writes a second period: the pattern ends before
    the period, the replacement brings its own, and only the periods at the
    end of the name are collapsed.  So "Acme S.A., Buenos Aires" becomes
    "ACME S.A.., BUENOS AIRES", a name already in canonical form is changed,
    and each further application adds a period: applying the function twice
    differs from applying it once. *)
Theorem normalizar_sufijos_punto_doble :
  normalizar_sufijos (PyStr (py "Acme S.A., Buenos Aires"))
  = PyStr (py "ACME S.A.., BUENOS AIRES")
  /\ normalizar_sufijos (PyStr (py "ACME S.A., BUENOS AIRES"))
     = PyStr (py "ACME S.A.., BUENOS AIRES")
  /\ normalizar_sufijos (PyStr (py "S.A.,")) = PyStr (py "S.A..,")
  /\ normalizar_sufijos (normalizar_sufijos (PyStr (py "S.A.,")))
     = PyStr (py "S.A...,")
  /\ normalizar_sufijos (normalizar_sufijos (PyStr (py "S.A.,")))
     <> normalizar_sufijos (PyStr (py "S.A.,"))
  /\ normalizar_sufijos (PyStr (py "Acme S.A. (en liquidacion)"))
     = PyStr (py "ACME S.A..(EN LIQUIDACION)").
Proof.
  repeat split; try (vm_compute; reflexivity).
  vm_compute. discriminate.
Qed.

(** The capital letters that upper-casing brings from outside Latin-1 are
    word characters: no suffix is found in a word that ends in one. *)
Lemma normalizar_sufijos_mayusculas_no_latinas :
  normalizar_sufijos (PyStr (py "saÿ NNe")) = PyStr (py "SAŸ NNE")
  /\ normalizar_sufijos (PyStr (py "saµ x")) = PyStr (py "SAΜ X").
Proof. split; vm_compute; reflexivity. Qed.






(* ------------------------------------------------------------------ *)
(** ** Company search *)

Section Busqueda.
Variable token_set_ratio : str -> str -> Z.
Hypothesis ratio_rango : forall a b, (0 <= token_set_ratio a b <= 100)%Z.

Lemma mejor_primero pre nombre post best :
(snd best < 100)%Z ->
Forall (fun c => (snd c < 100)%Z) pre ->
Forall (fun c => (snd c <= 100)%Z) post ->
mejor best (pre ++ (nombre, 100%Z) :: post) = (nombre, 100%Z).
Proof.
revert best. induction pre as [|c pre IH]; intros best Hb Hpre Hpost.
- cbn [app mejor snd]. rewrite (proj2 (Z.leb_gt _ _)) by lia.
  clear Hb. induction post as [|d post IHp]; [reflexivity|].
  inversion Hpost; subst. cbn [mejor snd].
  rewrite (proj2 (Z.leb_le _ _)) by lia. now apply IHp.
- inversion Hpre; subst. cbn [app mejor].
  destruct (snd c <=? snd best)%Z; now apply IH.
Qed.

Lemma mejor_ya best post :
snd best = 100%Z -> Forall (fun c => (snd c <= 100)%Z) post ->
mejor best post = best.
Proof.
intros Hb. induction 1 as [|d post Hd _ IH]; [reflexivity|].
cbn [mejor]. rewrite (proj2 (Z.leb_le _ _)) by lia. exact IH.
Qed.

Lemma filter_cutoff seg (l : list str) :
filter (fun c => (0 <=? snd c)%Z) (map (fun c => (c, token_set_ratio seg c)) l)
= map (fun c => (c, token_set_ratio seg c)) l.
Proof.
induction l as [|c l IH]; [reflexivity|].
cbn [map filter snd]. rewrite (proj2 (Z.leb_le _ _)) by apply ratio_rango.
now rewrite IH.
Qed.

(** [extractOne] returns the first of the names that score 100. *)
Lemma extractOne_primero seg pre nombre post :
token_set_ratio seg nombre = 100%Z ->
Forall (fun e => token_set_ratio seg e <> 100%Z) pre ->
extractOne token_set_ratio seg (pre ++ nombre :: post) = Some (nombre, 100%Z).
Proof.
intros Hn Hpre. unfold extractOne. rewrite filter_cutoff, map_app.
cbn [map]. rewrite Hn.
assert (Hpost : Forall (fun c : str * Z => (snd c <= 100)%Z)
                  (map (fun c => (c, token_set_ratio seg c)) post)).
{ apply Forall_forall. intros c Hc. apply in_map_iff in Hc as (e & <- & _).
  apply ratio_rango. }
assert (Hpre' : Forall (fun c : str * Z => (snd c < 100)%Z)
                  (map (fun c => (c, token_set_ratio seg c)) pre)).
{ apply Forall_forall. intros c Hc. apply in_map_iff in Hc as (e & <- & He).
  cbn. pose proof (ratio_rango seg e).
  pose proof (proj1 (Forall_forall _ _) Hpre e He). cbn in *. lia. }
destruct pre as [|p pre]; cbn [app map].
- f_equal. now apply mejor_ya.
- f_equal. inversion Hpre'; subst. now apply mejor_primero.
Qed.

Lemma extractOne_some seg (empresas : list str) :
empresas <> [] ->
exists m score, extractOne token_set_ratio seg empresas = Some (m, score).
Proof.
intros Hne. unfold extractOne. rewrite filter_cutoff.
destruct empresas as [|e es]; [contradiction|]. cbn [map].
destruct (mejor (e, token_set_ratio seg e)
            (map (fun c => (c, token_set_ratio seg c)) es)) as [m score].
eauto.
Qed.

(** With a registry that is not empty, the loops over the segments do not
  raise and only add names. *)
Lemma probar_segmentos_ok empresas threshold segs : forall enc,
empresas <> [] ->
exists r, probar_segmentos token_set_ratio empresas threshold enc segs = Ok r
          /\ enc ⊆ r.
Proof.
induction segs as [|seg segs IH]; intros enc Hne; cbn [probar_segmentos].
- exists enc. split; [reflexivity|set_solver].
- unfold probar_segmento.
  destruct (extractOne_some seg empresas Hne) as (m & score & ->).
  destruct (threshold <=? score)%Z; cbn [bind].
  + destruct (IH ({[m]} ∪ enc) Hne) as (r & -> & Hr).
    exists r. split; [reflexivity|set_solver].
  + apply IH, Hne.
Qed.

Lemma probar_segmentos_in empresas threshold seg nombre segs : forall enc,
empresas <> [] ->
In seg segs ->
extractOne token_set_ratio seg empresas = Some (nombre, 100%Z) ->
(threshold <= 100)%Z ->
exists r, probar_segmentos token_set_ratio empresas threshold enc segs = Ok r
          /\ nombre ∈ r.
Proof.
induction segs as [|s segs IH]; intros enc Hne Hin Hex Hth; [destruct Hin|].
cbn [probar_segmentos]. destruct Hin as [->|Hin].
- unfold probar_segmento. rewrite Hex.
  rewrite (proj2 (Z.leb_le _ _)) by lia. cbn [bind].
  destruct (probar_segmentos_ok empresas threshold segs ({[nombre]} ∪ enc) Hne)
    as (r & -> & Hr).
  exists r. split; [reflexivity|set_solver].
- unfold probar_segmento.
  destruct (extractOne_some s empresas Hne) as (m & score & ->).
  destruct (threshold <=? score)%Z; cbn [bind]; now apply IH.
Qed.

Lemma ventanas_pocas (palabras : list str) :
(length palabras < 3)%nat -> ventanas palabras = [].
Proof.
intros H. unfold ventanas. cbn [flat_map].
replace (length palabras + 1 - 3)%nat with 0%nat by lia.
replace (length palabras + 1 - 4)%nat with 0%nat by lia.
replace (length palabras + 1 - 5)%nat with 0%nat by lia.
reflexivity.
Qed.
End Busqueda.

(** C3, a text the claim fails at: the cleaned, upper-cased text has 25
    characters and is the registry name itself, but it has two words only,
    so there is no window of three words to score, and the search returns
    nothing, whatever the scorer and the threshold. *)
Lemma buscar_empresas_fuzzy_dos_palabras :
  limpiar_upper (PyStr (py "Constructora Sudamericana"))
  = Ok (py "CONSTRUCTORA SUDAMERICANA")
  /\ (10 <= length (py "CONSTRUCTORA SUDAMERICANA"))%nat
  /\ (forall token_set_ratio threshold,
        buscar_empresas_fuzzy token_set_ratio
          (PyStr (py "Constructora Sudamericana"))
          [py "CONSTRUCTORA SUDAMERICANA"] threshold
        = Ok ∅).
Proof.
  split; [vm_compute; reflexivity|]. split; [vm_compute; lia|].
  intros scorer threshold. unfold buscar_empresas_fuzzy.
  replace (limpiar_upper (PyStr (py "Constructora Sudamericana")))
    with (Ok (A := str) (py "CONSTRUCTORA SUDAMERICANA"))
    by (vm_compute; reflexivity).
  cbn [bind].
  replace (length (py "CONSTRUCTORA SUDAMERICANA") <? 10)%nat with false
    by (vm_compute; reflexivity).
  rewrite ventanas_pocas by (vm_compute; lia). reflexivity.
Qed.

(** C3 (amended).  Let the scorer give scores from 0 to 100 and the
    threshold be at most 100.  If the cleaned, upper-cased text has at least
    10 characters and one of its windows of 3, 4 or 5 consecutive words
    scores 100 against a registry name, and no name before it in the
    registry scores 100 against that window, the search returns a set that
    holds the name.  A text of fewer than three words has no window and the
    search returns the empty set. *)
Theorem buscar_empresas_fuzzy_ventana
    (token_set_ratio : str -> str -> Z) texto t pre nombre post threshold seg :
  (forall a b, (0 <= token_set_ratio a b <= 100)%Z) ->
  (threshold <= 100)%Z ->
  limpiar_upper texto = Ok t ->
  (10 <= length t)%nat ->
  In seg (ventanas (split t)) ->
  token_set_ratio seg nombre = 100%Z ->
  Forall (fun e => token_set_ratio seg e <> 100%Z) pre ->
  (exists r, buscar_empresas_fuzzy token_set_ratio texto
               (pre ++ nombre :: post) threshold = Ok r
             /\ nombre ∈ r)
  /\ (forall texto' t' empresas,
        limpiar_upper texto' = Ok t' -> (length (split t') < 3)%nat ->
        buscar_empresas_fuzzy token_set_ratio texto' empresas threshold
        = Ok ∅).
Proof.
  intros Hrango Hth Ht Hlen Hseg Hn Hpre. split.
  - unfold buscar_empresas_fuzzy. rewrite Ht. cbn [bind].
    rewrite (proj2 (Nat.ltb_ge _ _)) by lia.
    eapply probar_segmentos_in;
      [exact Hrango|now destruct pre|exact Hseg| |assumption].
    now apply extractOne_primero.
  - intros texto' t' empresas Ht' Hw. unfold buscar_empresas_fuzzy.
    rewrite Ht'. cbn [bind]. rewrite (ventanas_pocas _ Hw).
    now destruct (length t' <? 10)%nat.
Qed.

Lemma buscar_empresas_fuzzy_ventana_witness :
  exists r, buscar_empresas_fuzzy ratio_palabra
              (PyStr (py "obra de acme en curso")) [py "OTRA"; py "ACME"] 85
            = Ok r
            /\ py "ACME" ∈ r.
Proof.
  apply (proj1 (buscar_empresas_fuzzy_ventana ratio_palabra
                  (PyStr (py "obra de acme en curso"))
                  (py "OBRA DE ACME EN CURSO")
                  [py "OTRA"] (py "ACME") [] 85 (py "OBRA DE ACME")
                  ltac:(intros a b; unfold ratio_palabra;
                        destruct (bool_decide _); lia)
                  ltac:(lia)
                  ltac:(vm_compute; reflexivity)
                  ltac:(vm_compute; lia)
                  ltac:(vm_compute; tauto)
                  ltac:(vm_compute; reflexivity)
                  ltac:(repeat constructor; vm_compute; discriminate))).
Defined.

(** ** The batch search *)

(** C4, the frame the claim fails at: when the frame has no
    "texto_licitaciones" column, the first row raises [KeyError] before
    [id_licitacion] is bound, the handler raises [UnboundLocalError] in
    turn, and the call raises it: no list is returned. *)
Theorem procesar_licitaciones_sin_columna
    (token_set_ratio : str -> str -> Z) df_empresas threshold bloque_size rows id :
  procesar_licitaciones_con_progreso token_set_ratio
    (Licitacion None id :: rows) df_empresas threshold bloque_size
  = Raise UnboundLocalError
  /\ procesar_licitaciones_con_progreso token_set_ratio
       (Licitacion (Some PyNone) None :: rows) df_empresas threshold bloque_size
     = Raise UnboundLocalError.
Proof. split; reflexivity. Qed.

Lemma cuerpo_try_columnas (token_set_ratio : str -> str -> Z)
    df_empresas threshold bloque_size id0 texto id :
  exists r,
    cuerpo_try token_set_ratio df_empresas threshold bloque_size id0
      (Licitacion (Some texto) (Some id))
    = (Some id, r)
    /\ (isna texto = true -> r = Ok []).
Proof.
  unfold cuerpo_try. cbn [texto_licitaciones l_id_norma columna].
  eexists. split; [reflexivity|]. now intros ->.
Qed.

Lemma filas_con_progreso_columnas (token_set_ratio : str -> str -> Z)
    df_empresas threshold bloque_size rows :
  Forall (fun row => exists texto id,
            row = Licitacion (Some texto) (Some id)) rows ->
  forall id0 resultados,
  exists res,
    filas_con_progreso token_set_ratio df_empresas threshold bloque_size
      id0 resultados rows
    = Ok (resultados ++ res)
    /\ Forall2 (fun row r =>
                  (exists texto, texto_licitaciones row = Some texto
                                 /\ isna texto = true) -> r = [])
               rows res.
Proof.
  induction 1 as [|row rows (texto & id & ->) _ IH]; intros id0 resultados.
  - exists []. split; [cbn; now rewrite app_nil_r|constructor].
  - cbn [filas_con_progreso].
    destruct (cuerpo_try_columnas token_set_ratio df_empresas threshold
                bloque_size id0 texto id) as (r & -> & Hna).
    destruct r as [r|e].
    + destruct (IH (Some id) (resultados ++ [r])) as (res & -> & Hres).
      exists (r :: res). split; [now rewrite <- app_assoc|].
      constructor; [|assumption].
      intros (t & Ht & Hn). cbn in Ht. injection Ht as <-.
      specialize (Hna Hn). now injection Hna.
    + destruct (IH (Some id) (resultados ++ [[]])) as (res & -> & Hres).
      exists ([] :: res). split; [now rewrite <- app_assoc|].
      constructor; [reflexivity|assumption].
Qed.

(** X21.  When the frame has its two columns, the batch search does not raise:
    it returns one list for each row, in order, and the list of a row whose
    text is missing ([None] or nan) is empty. *)
Lemma procesar_licitaciones_columnas (token_set_ratio : str -> str -> Z)
    df df_empresas threshold bloque_size :
  Forall (fun row => exists texto id,
            row = Licitacion (Some texto) (Some id)) df ->
  exists res,
    procesar_licitaciones_con_progreso token_set_ratio df df_empresas
      threshold bloque_size
    = Ok res
    /\ length res = length df
    /\ Forall2 (fun row r =>
                  (exists texto, texto_licitaciones row = Some texto
                                 /\ isna texto = true) -> r = [])
               df res.
Proof.
  intros Hdf. unfold procesar_licitaciones_con_progreso.
  destruct (filas_con_progreso_columnas token_set_ratio df_empresas threshold
              bloque_size df Hdf None []) as (res & -> & Hres).
  exists res. split; [reflexivity|]. split; [|assumption].
  symmetry. eapply Forall2_length. exact Hres.
Qed.

Lemma procesar_licitaciones_columnas_witness :
  exists res,
    procesar_licitaciones_con_progreso ratio_palabra
      [Licitacion (Some PyNaN) (Some (PyInt 7));
       Licitacion (Some (PyStr (py "obra de acme"))) (Some (PyInt 8))]
      [(py "ACME", PyStr (py "30-12345678-9"))] 85 500
    = Ok res
    /\ length res = 2%nat
    /\ Forall2 (fun row r =>
                  (exists texto, texto_licitaciones row = Some texto
                                 /\ isna texto = true) -> r = [])
         [Licitacion (Some PyNaN) (Some (PyInt 7));
          Licitacion (Some (PyStr (py "obra de acme"))) (Some (PyInt 8))]
         res.
Proof.
  apply procesar_licitaciones_columnas.
  repeat constructor; eexists; eexists; reflexivity.
Defined.

(* ------------------------------------------------------------------ *)
(** * Further properties of the code *)

(** ** Tender stages: the range of [normalizar_etapa] *)

Lemma lower_char_idem c : lower_char (lower_char c) = lower_char c.
Proof.
  unfold lower_char. destruct (is_upper_latin1 c) eqn:E; [|now rewrite E].
  assert (H : is_upper_latin1 (c + 32) = false) by clases.
  now rewrite H.
Qed.

Lemma lower_idem s : lower (lower s) = lower s.
Proof.
  unfold lower. rewrite map_map. apply map_ext. intros c.
  apply lower_char_idem.
Qed.

Lemma dict_get_In {V} (d : list (str * V)) k v :
  dict_get d k = Some v -> In v (map snd d).
Proof.
  induction d as [|[k' v'] d IH]; cbn [dict_get map snd]; [discriminate|].
  destruct (dict_get d k) as [v0|].
  - intros [= ->]. right. now apply IH.
  - destruct (str_eqb k' k); [|discriminate]. intros [= ->]. now left.
Qed.

(** X1.  The stage that [normalizar_etapa] returns depends on the text
    through its lower case only, and it is [None] or one of the canonical
    tags, whatever the input. *)
Theorem normalizar_etapa_rango :
  (forall s, normalizar_etapa (PyStr s) = normalizar_etapa (PyStr (lower s)))
  /\ (forall o r, normalizar_etapa o = Ok r ->
        r = PyNone \/ exists c, r = PyStr c /\ c ∈ etapas_canonicas).
Proof.
  split.
  - intros [|c s]; [reflexivity|].
    unfold normalizar_etapa. rewrite lower_idem. reflexivity.
  - intros o r. unfold normalizar_etapa.
    destruct (negb (truthy o)); [intros [= <-]; now left|].
    destruct o as [| |z|s]; try discriminate.
    destruct (dict_get ETAPAS_MAP (lower s)) as [v|] eqn:E;
      intros [= <-]; [right|now left].
    exists v. split; [reflexivity|].
    unfold etapas_canonicas. apply elem_of_remove_dups, list_elem_of_In.
    eapply dict_get_In, E.
Qed.

(** X2.  [normalizar_etapa] raises on the values that are true as a
    condition and are not text: it raises [AttributeError] on nan and on a
    number other than 0, and raises nothing else; [None], 0 and the empty
    text give [None]. *)
Theorem normalizar_etapa_no_texto :
  (forall o, normalizar_etapa o = Raise AttributeError
             <-> o = PyNaN \/ exists z, z <> 0%Z /\ o = PyInt z)
  /\ (forall o e, normalizar_etapa o = Raise e -> e = AttributeError)
  /\ normalizar_etapa PyNone = Ok PyNone
  /\ normalizar_etapa (PyInt 0) = Ok PyNone
  /\ normalizar_etapa (PyStr []) = Ok PyNone.
Proof.
  split; [|split; [|repeat split]].
  - intros o. unfold normalizar_etapa. split.
    + destruct o as [| |z|s]; cbn [truthy negb].
      * discriminate.
      * intros _. now left.
      * destruct (z =? 0)%Z eqn:E; cbn [negb]; [discriminate|].
        intros _. right. exists z. split; [lia|reflexivity].
      * destruct s; discriminate.
    + intros [->|(z & Hz & ->)]; [reflexivity|].
      cbn [truthy]. rewrite (proj2 (Z.eqb_neq z 0) Hz). reflexivity.
  - intros o e. unfold normalizar_etapa.
    destruct (negb (truthy o)); [discriminate|].
    destruct o; try discriminate; now intros [= <-].
Qed.

(* ------------------------------------------------------------------ *)
(** ** Company search: what is returned, and the edges *)

Lemma mejor_In best cs : In (mejor best cs) (best :: cs).
Proof.
  revert best. induction cs as [|c cs IH]; intros best; [now left|].
  cbn [mejor]. destruct (snd c <=? snd best)%Z.
  - destruct (IH best) as [H|H]; [now left|right; now right].
  - right. apply IH.
Qed.

Lemma extractOne_In (ratio : str -> str -> Z) seg l m score :
  extractOne ratio seg l = Some (m, score) ->
  In m l /\ score = ratio seg m.
Proof.
  unfold extractOne.
  destruct (filter _ _) as [|c rest] eqn:E; [discriminate|].
  intros [= H]. pose proof (mejor_In c rest) as Hin.
  rewrite H, <- E in Hin.
  apply filter_In in Hin as [Hin _].
  apply in_map_iff in Hin as (x & [= <- <-] & Hx). auto.
Qed.

Lemma probar_segmentos_sound (ratio : str -> str -> Z) emp th segs :
  forall enc r,
    probar_segmentos ratio emp th enc segs = Ok r ->
    forall n, n ∈ r ->
      n ∈ enc
      \/ (In n emp /\ exists seg, In seg segs /\ (th <= ratio seg n)%Z).
Proof.
  induction segs as [|seg segs IH]; intros enc r Hr n Hn;
    cbn [probar_segmentos] in Hr.
  - injection Hr as <-. now left.
  - unfold probar_segmento in Hr.
    destruct (extractOne ratio seg emp) as [[m score]|] eqn:E; [|discriminate].
    apply extractOne_In in E as [Hm ->].
    destruct (th <=? ratio seg m)%Z eqn:Hth; cbn [bind] in Hr.
    + destruct (IH _ _ Hr n Hn) as [H|(H1 & s & H2 & H3)].
      * apply elem_of_union in H as [H|H]; [|now left].
        apply elem_of_singleton in H. subst. right. split; [assumption|].
        exists seg. split; [now left|lia].
      * right. split; [assumption|]. exists s. split; [now right|assumption].
    + destruct (IH _ _ Hr n Hn) as [H|(H1 & s & H2 & H3)]; [now left|].
      right. split; [assumption|]. exists s. split; [now right|assumption].
Qed.

(** X3.  With a scorer that gives scores from 0 to 100 and a registry that
    is not empty, the search in a text does not raise, and every name it
    returns is a name of the registry that reaches the threshold on a
    window of 3, 4 or 5 consecutive words of the cleaned, upper-cased
    text. *)
Theorem buscar_empresas_fuzzy_en_registro
    (token_set_ratio : str -> str -> Z) t empresas threshold :
  (forall a b, (0 <= token_set_ratio a b <= 100)%Z) ->
  empresas <> [] ->
  exists r limpio,
    buscar_empresas_fuzzy token_set_ratio (PyStr t) empresas threshold = Ok r
    /\ limpiar_upper (PyStr t) = Ok limpio
    /\ forall n, n ∈ r ->
         In n empresas
         /\ exists seg, In seg (ventanas (split limpio))
                        /\ (threshold <= token_set_ratio seg n)%Z.
Proof.
  intros Hrango Hne. unfold buscar_empresas_fuzzy.
  destruct (limpiar_upper (PyStr t)) as [limpio|e] eqn:El;
    [|discriminate El].
  cbn [bind]. destruct (length limpio <? 10)%nat.
  - exists ∅, limpio. split; [reflexivity|]. split; [reflexivity|].
    intros n Hn. exfalso. revert Hn. apply not_elem_of_empty.
  - destruct (probar_segmentos_ok token_set_ratio Hrango empresas threshold
                (ventanas (split limpio)) ∅ Hne) as (r & Hr & _).
    exists r, limpio. split; [exact Hr|]. split; [reflexivity|].
    intros n Hn.
    destruct (probar_segmentos_sound _ _ _ _ _ _ Hr n Hn) as [H|H];
      [|exact H].
    exfalso. revert H. apply not_elem_of_empty.
Qed.

Lemma buscar_empresas_fuzzy_en_registro_witness :
  exists r limpio,
    buscar_empresas_fuzzy ratio_palabra (PyStr (py "obra de acme en curso"))
      [py "OTRA"; py "ACME"] 85 = Ok r
    /\ limpiar_upper (PyStr (py "obra de acme en curso")) = Ok limpio
    /\ forall n, n ∈ r ->
         In n [py "OTRA"; py "ACME"]
         /\ exists seg, In seg (ventanas (split limpio))
                        /\ (85 <= ratio_palabra seg n)%Z.
Proof.
  apply buscar_empresas_fuzzy_en_registro.
  - intros a b. unfold ratio_palabra. destruct (bool_decide _); lia.
  - discriminate.
Defined.

Lemma ventanas_cabeza (palabras : list str) :
  (3 <= length palabras)%nat ->
  exists seg rest, ventanas palabras = seg :: rest.
Proof.
  intros H. unfold ventanas. cbn [flat_map].
  destruct (length palabras + 1 - 3)%nat as [|k] eqn:E; [lia|].
  cbn [seq map app]. eauto.
Qed.

(** X4.  The edges of the search.  A text whose cleaned form has fewer
    than 10 characters gives the empty set, whatever the registry.  With
    an empty registry, a text whose cleaned form has at least 10 characters
    and 3 words raises [TypeError].  A value that is not text raises
    [AttributeError]. *)
Theorem buscar_empresas_fuzzy_bordes
    (token_set_ratio : str -> str -> Z) threshold :
  (forall texto t empresas,
     limpiar_upper texto = Ok t -> (length t < 10)%nat ->
     buscar_empresas_fuzzy token_set_ratio texto empresas threshold = Ok ∅)
  /\ (forall texto t,
        limpiar_upper texto = Ok t -> (10 <= length t)%nat ->
        (3 <= length (split t))%nat ->
        buscar_empresas_fuzzy token_set_ratio texto [] threshold
        = Raise TypeError)
  /\ (forall texto empresas,
        (forall s, texto <> PyStr s) ->
        buscar_empresas_fuzzy token_set_ratio texto empresas threshold
        = Raise AttributeError)
  /\ buscar_empresas_fuzzy token_set_ratio
       (PyStr (py "obra de acme en curso")) [] threshold
     = Raise TypeError.
Proof.
  split; [|split; [|split]].
  - intros texto t empresas Ht Hlen. unfold buscar_empresas_fuzzy.
    rewrite Ht. cbn [bind]. now rewrite (proj2 (Nat.ltb_lt _ _) Hlen).
  - intros texto t Ht Hlen Hw. unfold buscar_empresas_fuzzy.
    rewrite Ht. cbn [bind]. rewrite (proj2 (Nat.ltb_ge _ _) Hlen).
    destruct (ventanas_cabeza _ Hw) as (seg & rest & ->).
    reflexivity.
  - intros texto empresas Hno. unfold buscar_empresas_fuzzy, limpiar_upper.
    destruct texto as [| |z|s]; try reflexivity.
    now destruct (Hno s).
  - unfold buscar_empresas_fuzzy.
    replace (limpiar_upper (PyStr (py "obra de acme en curso")))
      with (Ok (A := str) (py "OBRA DE ACME EN CURSO"))
      by (vm_compute; reflexivity).
    cbn [bind].
    replace (length (py "OBRA DE ACME EN CURSO") <? 10)%nat with false
      by (vm_compute; reflexivity).
    destruct (ventanas_cabeza (split (py "OBRA DE ACME EN CURSO")))
      as (seg & rest & ->); [vm_compute; lia|reflexivity].
Qed.

(* ------------------------------------------------------------------ *)
(** ** The bulletin API: any number of retries *)

Lemma bucle_intentos_dict red fecha retries delay k : forall intento n,
  (intento + Z.of_nat k = retries + 1)%Z -> (1 <= k)%nat ->
  (exists d, fst (bucle_intentos red fecha retries delay k intento n)
             = Ok (RetDict d))
  /\ (1 <= peticiones (snd (bucle_intentos red fecha retries delay k intento n))
      <= k)%nat
  /\ esperas (snd (bucle_intentos red fecha retries delay k intento n))
     = repeat delay
         (peticiones (snd (bucle_intentos red fecha retries delay k intento n))
          - 1).
Proof.
  induction k as [|k IH]; intros intento n Hk Hpos; [lia|].
  cbn [bucle_intentos].
  destruct (red fecha n) as [msg|status json].
  { cbn. split; [eauto|]. split; [lia|reflexivity]. }
  destruct (status =? 404)%Z.
  { cbn. split; [eauto|]. split; [lia|reflexivity]. }
  destruct (raise_for_status status).
  - destruct (500 <=? status)%Z.
    + destruct (intento <? retries)%Z eqn:Hlt.
      * specialize (IH (intento + 1)%Z (S n) ltac:(lia) ltac:(lia)).
        destruct (bucle_intentos red fecha retries delay k (intento + 1) (S n))
          as [r ev].
        unfold peticiones, esperas in *.
        cbn [fst snd filter flat_map length app] in *.
        destruct IH as (Hd & Hp & He).
        split; [exact Hd|]. split; [lia|]. rewrite He.
        replace (S (length (filter _ ev)) - 1)%nat
          with (S (length (filter (fun e => match e with
                                            | EvGet _ => true
                                            | _ => false
                                            end) ev) - 1))%nat by lia.
        reflexivity.
      * cbn. split; [eauto|]. split; [lia|reflexivity].
    + cbn. split; [eauto|]. split; [lia|reflexivity].
  - destruct json; cbn; (split; [eauto|]; split; [lia|reflexivity]).
Qed.

(** X5.  For every number of retries that is not negative, a call of
    [obtener_boletin] does not raise and returns one of the two
    dictionaries; it makes at least one request and at most one more than
    the retries, and it sleeps the delay once between two requests and at
    no other time. *)
Theorem obtener_boletin_intentos red fecha retries delay :
  (0 <= retries)%Z ->
  (exists d, fst (obtener_boletin red fecha retries delay) = Ok (RetDict d))
  /\ (1 <= peticiones (snd (obtener_boletin red fecha retries delay))
      <= Z.to_nat retries + 1)%nat
  /\ esperas (snd (obtener_boletin red fecha retries delay))
     = repeat delay
         (peticiones (snd (obtener_boletin red fecha retries delay)) - 1).
Proof.
  intros H. unfold obtener_boletin.
  replace (Z.to_nat retries + 1)%nat with (Z.to_nat (retries + 1)) by lia.
  apply bucle_intentos_dict; lia.
Qed.

Lemma obtener_boletin_intentos_witness :
  (exists d, fst (obtener_boletin red_503_404 (py "01-01-2024") 5 2)
             = Ok (RetDict d))
  /\ (1 <= peticiones (snd (obtener_boletin red_503_404 (py "01-01-2024") 5 2))
      <= Z.to_nat 5 + 1)%nat
  /\ esperas (snd (obtener_boletin red_503_404 (py "01-01-2024") 5 2))
     = repeat 2%Q
         (peticiones (snd (obtener_boletin red_503_404 (py "01-01-2024") 5 2))
          - 1).
Proof. apply obtener_boletin_intentos. lia. Defined.

(** X6.  With a negative number of retries the loop of [obtener_boletin]
    makes no round and the statements after it run: one request and no
    sleep; the call never returns one of the two dictionaries; a 4xx status
    other than 404 raises [HTTPError]; a 404, a 5xx status and an exception
    of the request give [None]. *)
Theorem obtener_boletin_sin_intentos red fecha retries delay :
  (retries < 0)%Z ->
  snd (obtener_boletin red fecha retries delay) = [EvGet fecha]
  /\ (forall d, fst (obtener_boletin red fecha retries delay)
                <> Ok (RetDict d))
  /\ (forall status json,
        red fecha 0%nat = GetRespuesta status json ->
        (400 <= status < 500)%Z -> status <> 404%Z ->
        fst (obtener_boletin red fecha retries delay)
        = Raise (HTTPError status))
  /\ (forall status json,
        red fecha 0%nat = GetRespuesta status json ->
        status = 404%Z \/ (500 <= status < 600)%Z ->
        fst (obtener_boletin red fecha retries delay) = Ok RetNone)
  /\ (forall msg,
        red fecha 0%nat = GetFalla msg ->
        fst (obtener_boletin red fecha retries delay) = Ok RetNone).
Proof.
  intros H. unfold obtener_boletin.
  replace (Z.to_nat (retries + 1)) with 0%nat by lia.
  cbn [bucle_intentos]. unfold tras_bucle.
  destruct (red fecha 0%nat) as [msg|status json].
  { cbn. repeat split; try discriminate; reflexivity. }
  destruct (status =? 404)%Z eqn:E404.
  { cbn. repeat split; try discriminate.
    intros s j [= <- <-]. lia. }
  destruct (raise_for_status status) eqn:Ers.
  - destruct (500 <=? status)%Z eqn:E5.
    + cbn. repeat split; try discriminate.
      intros s j [= <- <-]. lia.
    + cbn. repeat split; try discriminate.
      * intros s j [= <- <-] _ _. reflexivity.
      * intros s j [= <- <-]. unfold raise_for_status in Ers. lia.
  - unfold raise_for_status in Ers.
    destruct json; cbn; repeat split; try discriminate;
      intros s j [= <- <-]; lia.
Qed.

Lemma obtener_boletin_sin_intentos_witness :
  fst (obtener_boletin (fun _ _ => GetRespuesta 403 (inr [])) (py "01-01-2024")
         (-1) 2)
  = Raise (HTTPError 403).
Proof.
  refine (proj1 (proj2 (proj2
            (obtener_boletin_sin_intentos
               (fun _ _ => GetRespuesta 403 (inr [])) (py "01-01-2024")
               (-1) 2 _))) 403%Z (inr []) eq_refl _ _); lia.
Defined.

(* ------------------------------------------------------------------ *)
(** ** Error logs: a second reconciliation *)

Lemma filter_filter_negb {A} (p : A -> bool) l :
  filter p (filter (fun x => negb (p x)) l) = [].
Proof.
  induction l as [|x l IH]; [reflexivity|].
  cbn [filter]. destruct (p x) eqn:E; cbn [negb filter]; [exact IH|].
  now rewrite E.
Qed.

Lemma filter_negb_idem {A} (p : A -> bool) l :
  filter (fun x => negb (p x)) (filter (fun x => negb (p x)) l)
  = filter (fun x => negb (p x)) l.
Proof.
  induction l as [|x l IH]; [reflexivity|].
  cbn [filter]. destruct (p x) eqn:E; cbn [negb filter]; [exact IH|].
  rewrite E. cbn [negb]. now rewrite IH.
Qed.

(** X7.  Reconciling a second time against the same covered dates (or the
    same present notices) changes nothing: both files stay as the first
    run left them, whatever the dates of the two runs, and the rows
    reported pending are the same. *)
Theorem reconciliacion_idempotente :
  (forall fechas_cubiertas hoy hoy' fs,
     gestionar_logs_de_errores_boletines fechas_cubiertas hoy'
       (snd (gestionar_logs_de_errores_boletines fechas_cubiertas hoy fs))
     = gestionar_logs_de_errores_boletines fechas_cubiertas hoy fs)
  /\ (forall df_normas_actual hoy hoy' fs,
        gestionar_log_errores_normas df_normas_actual hoy'
          (gestionar_log_errores_normas df_normas_actual hoy fs)
        = gestionar_log_errores_normas df_normas_actual hoy fs).
Proof.
  split.
  - intros C hoy hoy' [[l|] corr];
      unfold gestionar_logs_de_errores_boletines;
      cbn [log_errores log_corregidos snd]; [|reflexivity].
    rewrite (filter_filter_negb
               (fun f => bool_decide (e_fecha f ∈ C)) l).
    rewrite (filter_negb_idem
               (fun f => bool_decide (e_fecha f ∈ C)) l).
    reflexivity.
  - intros df hoy hoy' [[l|] corr];
      unfold gestionar_log_errores_normas;
      cbn [log_errores log_corregidos]; [|reflexivity].
    lazymatch goal with
    | |- context [guardar_corregidos _ (filter ?p _) hoy'] =>
      rewrite (filter_filter_negb p l), (filter_negb_idem p l)
    end.
    reflexivity.
Qed.

(* ------------------------------------------------------------------ *)
(** ** The incremental fetch: what a run returns and what it logs *)

Lemma In_fechas inicio hoy dt :
  In dt (fechas inicio hoy) <-> (inicio <= dt <= hoy)%Z.
Proof.
  unfold fechas. rewrite in_map_iff. split.
  - intros (i & <- & Hi). apply in_seq in Hi. lia.
  - intros H. exists (Z.to_nat (dt - inicio)). split; [lia|].
    apply in_seq. lia.
Qed.

Lemma NoDup_snoc {A} (l : list A) x : NoDup l -> ~ In x l -> NoDup (l ++ [x]).
Proof.
  induction 1 as [|y l Hy Hl IH]; intros Hx; cbn [app].
  - constructor; [intros []|constructor].
  - constructor.
    + intros Hin. apply in_app_or in Hin as [Hin|[<-|[]]]; [tauto|].
      apply Hx. now left.
    + apply IH. intros Hin. apply Hx. now right.
Qed.

Lemma drop_duplicates_from_NoDup {A} `{EqDecision A} (l : list A) :
  forall seen, NoDup (drop_duplicates_from seen l).
Proof.
  induction l as [|x l IH]; intros seen; cbn [drop_duplicates_from];
    [constructor|].
  destruct (bool_decide (x ∈ seen)); [apply IH|].
  constructor; [|apply IH].
  rewrite drop_duplicates_from_In. intros [_ H]. apply H. now left.
Qed.

(** The four things a round of the loop can do at a date. *)
Lemma paso_casos red E C s dt :
  (strftime dt ∈ C /\ paso red E C s dt = Ok s)
  \/ ((strftime dt ∉ C)
      /\ exists n, publica red dt n
         /\ (((n ∈ E \/ n ∈ boletines_descargados s)
              /\ paso red E C s dt = Ok s)
             \/ ((n ∉ E) /\ (n ∉ boletines_descargados s)
                 /\ exists d, numero_descarga d = n
                    /\ paso red E C s dt
                       = Ok (Sesion (resultados s ++ [d])
                                    (errores_boletines s)
                                    ({[ n ]} ∪ boletines_descargados s)))))
  \/ ((strftime dt ∉ C)
      /\ ~ (exists n, publica red dt n)
      /\ exists e, e_fecha e = strftime dt
                   /\ In (e_tipo_error e) tipos_error
                   /\ paso red E C s dt = Ok (anotar_error s e))
  \/ ((strftime dt ∉ C)
      /\ ~ (exists n, publica red dt n)
      /\ lanza red dt
      /\ exists x, (x = AttributeError \/ x = TypeError)
                   /\ paso red E C s dt = Raise x).
Proof.
  unfold paso, publica.
  destruct (bool_decide (strftime dt ∈ C)) eqn:HC.
  { left. apply bool_decide_eq_true in HC. auto. }
  apply bool_decide_eq_false in HC. right.
  destruct (obtener_boletin_dict red (strftime dt) 2) as [r Hr]. rewrite Hr.
  assert (Hfallo : forall r0,
             (forall b f, r0 <> ResData (CuerpoDatos (Datos (Some b) NormasOtras)) f) ->
             exists e, e_fecha e = strftime dt
                       /\ In (e_tipo_error e) tipos_error
                       /\ Ok (A := sesion) (fallo_descarga s (strftime dt) r0)
                          = Ok (anotar_error s e)).
  { intros r0 _. unfold fallo_descarga. eexists (ErrorBoletin _ _ _).
    split; [reflexivity|]. split; [|reflexivity].
    cbn [e_tipo_error]. destruct (_ || _); unfold tipos_error; cbn [In]; auto. }
  assert (Hno : forall c f,
             (forall b, c <> CuerpoDatos (Datos (Some b) NormasOtras)) ->
             ~ (exists n b' f',
                   Ok (A := retorno) (RetDict (ResData c f))
                   = Ok (RetDict (ResData (CuerpoDatos (Datos (Some b') NormasOtras)) f'))
                   /\ numero b' = n)).
  { intros c f Hc (n & b' & f' & Heq & _). injection Heq as -> _.
    now apply (Hc b'). }
  destruct r as [[|[[b|] [errs|]]| | |t|[|]] f|e f].
  - right. left. split; [exact HC|].
    split; [now apply Hno|]. apply Hfallo. discriminate.
  - right. left. split; [exact HC|].
    split; [now apply Hno|].
    eexists (ErrorBoletin _ _ _).
    split; [reflexivity|]. split; [|reflexivity].
    unfold tipos_error. cbn [e_tipo_error In]. auto.
  - left. split; [exact HC|]. exists (numero b).
    split; [exists b, f; split; reflexivity|].
    destruct (bool_decide (numero b ∈ E)) eqn:HE.
    { apply bool_decide_eq_true in HE. left. auto. }
    apply bool_decide_eq_false in HE.
    destruct (bool_decide (numero b ∈ boletines_descargados s)) eqn:HD.
    { apply bool_decide_eq_true in HD. left. auto. }
    apply bool_decide_eq_false in HD.
    right. split; [exact HE|]. split; [exact HD|].
    eexists. split; [|reflexivity]. reflexivity.
  - right. left. split; [exact HC|].
    split; [now apply Hno|]. apply Hfallo. discriminate.
  - right. left. split; [exact HC|].
    split; [now apply Hno|]. apply Hfallo. discriminate.
  - right. right. split; [exact HC|]. split; [now apply Hno|].
    split; [eexists _, _; split; [exact Hr|reflexivity]|]. eauto.
  - right. right. split; [exact HC|]. split; [now apply Hno|].
    split; [eexists _, _; split; [exact Hr|reflexivity]|]. eauto.
  - destruct (contains (py "boletin") t) eqn:Ht.
    + right. right. split; [exact HC|]. split; [now apply Hno|].
      split; [eexists _, _; split; [exact Hr|exact Ht]|]. eauto.
    + right. left. split; [exact HC|].
      split; [now apply Hno|]. apply Hfallo. discriminate.
  - right. right. split; [exact HC|]. split; [now apply Hno|].
    split; [eexists _, _; split; [exact Hr|reflexivity]|]. eauto.
  - right. left. split; [exact HC|].
    split; [now apply Hno|]. apply Hfallo. discriminate.
  - right. left. split; [exact HC|].
    split; [intros (n & b' & f' & Heq & _); discriminate|].
    apply Hfallo. discriminate.
Qed.

Lemma publica_unica red dt n m : publica red dt n -> publica red dt m -> n = m.
Proof.
  intros (b & f & H1 & <-) (b' & f' & H2 & <-). rewrite H1 in H2.
  now injection H2 as <- _.
Qed.

Lemma recorrer_resultados red E C dts : forall s sf,
  recorrer red E C s dts = Ok sf ->
  NoDup (numeros s) ->
  (forall n, In n (numeros s) <-> n ∈ boletines_descargados s) ->
  NoDup (numeros sf)
  /\ exists nuevos,
       resultados sf = resultados s ++ nuevos
       /\ forall d, In d nuevos ->
            (numero_descarga d ∉ E)
            /\ exists dt, In dt dts /\ (strftime dt ∉ C)
                          /\ publica red dt (numero_descarga d).
Proof.
  induction dts as [|dt dts IH]; intros s sf Hr Hnd Hinv;
    cbn [recorrer] in Hr.
  - injection Hr as <-. split; [exact Hnd|]. exists [].
    split; [now rewrite app_nil_r|]. intros d [].
  - assert (Hmas : forall s',
               recorrer red E C s' dts = Ok sf ->
               resultados s' = resultados s ->
               boletines_descargados s' = boletines_descargados s ->
               NoDup (numeros sf)
               /\ exists nuevos,
                    resultados sf = resultados s ++ nuevos
                    /\ forall d, In d nuevos ->
                         (numero_descarga d ∉ E)
                         /\ exists dt0, In dt0 (dt :: dts) /\ (strftime dt0 ∉ C)
                                        /\ publica red dt0 (numero_descarga d)).
    { intros s' Hr' Hres Hdes.
      destruct (IH s' sf Hr') as (Hnd' & nuevos & Heq & Hn).
      - unfold numeros. now rewrite Hres.
      - intros n. unfold numeros. rewrite Hres, Hdes. apply Hinv.
      - split; [exact Hnd'|]. exists nuevos. rewrite <- Hres.
        split; [exact Heq|]. intros d Hd.
        destruct (Hn d Hd) as (HE & dt0 & Hin & HC & Hp).
        split; [exact HE|]. exists dt0. split; [now right|]. auto. }
    destruct (paso_casos red E C s dt)
      as [(HC & Hp)|[(HC & n & Hpub & [(Hk & Hp)|(HE & HD & d & Hd & Hp)])
                    |[(HC & Hno & e & He & Ht & Hp)
                     |(HC & Hno & Hl & x & Hx & Hp)]]];
      rewrite Hp in Hr; cbn [bind] in Hr; [| | | |discriminate Hr].
    + now apply (Hmas s).
    + now apply (Hmas s).
    + destruct (IH _ sf Hr) as (Hnd' & nuevos & Heq & Hn).
      * unfold numeros. cbn [resultados]. rewrite map_app. cbn [map].
        apply NoDup_snoc; [exact Hnd|]. rewrite Hd.
        intros Hin. apply HD, Hinv, Hin.
      * intros m. unfold numeros. cbn [resultados boletines_descargados].
        rewrite map_app, in_app_iff, elem_of_union, elem_of_singleton.
        cbn [map In]. rewrite Hd.
        specialize (Hinv m). unfold numeros in Hinv. rewrite Hinv.
        split; [intros [H|[H|[]]]|intros [H|H]]; auto.
      * split; [exact Hnd'|]. exists (d :: nuevos).
        cbn [resultados] in Heq. rewrite <- app_assoc in Heq.
        split; [exact Heq|]. intros d0 [<-|Hd0].
        -- rewrite Hd. split; [exact HE|]. exists dt.
           split; [now left|]. auto.
        -- destruct (Hn d0 Hd0) as (HE0 & dt0 & Hin & HC0 & Hp0).
           split; [exact HE0|]. exists dt0. split; [now right|]. auto.
    + now apply (Hmas (anotar_error s e)).
Qed.

Lemma recorrer_errores red E C dts : forall s sf,
  recorrer red E C s dts = Ok sf ->
  exists errs,
    errores_boletines sf = errores_boletines s ++ errs
    /\ (forall e, In e errs ->
          exists dt, In dt dts /\ e_fecha e = strftime dt
                     /\ (strftime dt ∉ C)
                     /\ ~ (exists n, publica red dt n)
                     /\ In (e_tipo_error e) tipos_error)
    /\ (forall dt, In dt dts -> (strftime dt ∉ C) ->
          ~ (exists n, publica red dt n) ->
          exists e, In e errs /\ e_fecha e = strftime dt).
Proof.
  induction dts as [|dt dts IH]; intros s sf Hr; cbn [recorrer] in Hr.
  - injection Hr as <-. exists []. split; [now rewrite app_nil_r|].
    split; [intros e []|intros dt []].
  - assert (Hmas : forall s',
               recorrer red E C s' dts = Ok sf ->
               errores_boletines s' = errores_boletines s ->
               (strftime dt ∈ C \/ exists n, publica red dt n) ->
               exists errs,
                 errores_boletines sf = errores_boletines s ++ errs
                 /\ (forall e, In e errs ->
                       exists dt0, In dt0 (dt :: dts) /\ e_fecha e = strftime dt0
                                   /\ (strftime dt0 ∉ C)
                                   /\ ~ (exists n, publica red dt0 n)
                                   /\ In (e_tipo_error e) tipos_error)
                 /\ (forall dt0, In dt0 (dt :: dts) -> (strftime dt0 ∉ C) ->
                       ~ (exists n, publica red dt0 n) ->
                       exists e, In e errs /\ e_fecha e = strftime dt0)).
    { intros s' Hr' Herr Hbien.
      destruct (IH s' sf Hr') as (errs & Heq & Hs & Hc).
      exists errs. rewrite <- Herr. split; [exact Heq|]. split.
      - intros e0 He0. destruct (Hs e0 He0) as (dt0 & Hin & H).
        exists dt0. split; [now right|exact H].
      - intros dt0 [<-|Hin] HC0 Hno0; [|now apply Hc].
        destruct Hbien as [H|H]; contradiction. }
    destruct (paso_casos red E C s dt)
      as [(HC & Hp)|[(HC & n & Hpub & [(Hk & Hp)|(HE & HD & d & Hd & Hp)])
                    |[(HC & Hno & e & He & Ht & Hp)
                     |(HC & Hno & Hl & x & Hx & Hp)]]];
      rewrite Hp in Hr; cbn [bind] in Hr; [| | | |discriminate Hr].
    + apply (Hmas s); auto.
    + apply (Hmas s); eauto.
    + eapply Hmas; [exact Hr|reflexivity|eauto].
    + destruct (IH _ sf Hr) as (errs & Heq & Hs & Hc).
      exists (e :: errs). cbn [anotar_error errores_boletines] in Heq.
      rewrite <- app_assoc in Heq. split; [exact Heq|]. split.
      * intros e0 [<-|He0].
        -- exists dt. split; [now left|]. auto.
        -- destruct (Hs e0 He0) as (dt0 & Hin & H).
           exists dt0. split; [now right|exact H].
      * intros dt0 [<-|Hin] HC0 Hno0.
        -- exists e. split; [now left|exact He].
        -- destruct (Hc dt0 Hin HC0 Hno0) as (e0 & He0 & Hf).
           exists e0. split; [now right|exact Hf].
Qed.

Lemma publica_dec red dt :
  (exists n, publica red dt n) \/ ~ (exists n, publica red dt n).
Proof.
  destruct (paso_casos red ∅ ∅ (Sesion [] [] ∅) dt)
    as [(HC & _)|[(_ & n & Hpub & _)|[(_ & Hno & _)|(_ & Hno & _)]]];
    eauto.
  exfalso. revert HC. apply not_elem_of_empty.
Qed.

(** X8.  The bulletins a run of the fetch loop returns have numbers that
    differ from each other and from the known ones, and each was answered,
    with no error in its notices, for a date of the range that is not
    covered. *)
Theorem obtener_boletines_resultados red E C inicio hoy res log :
  obtener_boletines_desde_fecha red E C inicio hoy = Ok (res, log) ->
  NoDup (map numero_descarga res)
  /\ forall d, In d res ->
       (numero_descarga d ∉ E)
       /\ exists dt, (inicio <= dt <= hoy)%Z /\ (strftime dt ∉ C)
                     /\ publica red dt (numero_descarga d).
Proof.
  unfold obtener_boletines_desde_fecha. intros Hrun.
  destruct (recorrer red E C (Sesion [] [] ∅) (fechas inicio hoy))
    as [sf|] eqn:Hsf; [|discriminate Hrun].
  cbn [bind] in Hrun. injection Hrun as <- _.
  destruct (recorrer_resultados red E C _ _ _ Hsf) as (Hnd & nuevos & Heq & Hn).
  - constructor.
  - intros n. cbn. split; [intros []|]. apply not_elem_of_empty.
  - cbn [resultados app] in Heq. split; [exact Hnd|].
    rewrite Heq. intros d Hd.
    destruct (Hn d Hd) as (HE & dt & Hin & HC & Hp).
    split; [exact HE|]. exists dt. split; [now apply In_fechas|]. auto.
Qed.

Lemma obtener_boletines_resultados_witness :
  let res := [Descarga (py "24-04-2024")
                (Datos (Some (Boletin (Some 1%Z) None)) NormasOtras)] in
  NoDup (map numero_descarga res)
  /\ forall d, In d res ->
       (numero_descarga d ∉ (∅ : gset (option Z)))
       /\ exists dt, (739000 <= dt <= 739000)%Z
                     /\ (strftime dt ∉ (∅ : gset str))
                     /\ publica red_un_boletin dt (numero_descarga d).
Proof.
  apply (obtener_boletines_resultados red_un_boletin ∅ ∅ 739000 739000 _ None).
  vm_compute. reflexivity.
Defined.

(** X9.  The error log of a run of the fetch loop that ends.  The run
    writes no log exactly when every date of the range that is not covered
    was answered with a bulletin without errors in its notices.  Otherwise
    the log has no repeated row; each row is for a date of the range that
    is not covered and was not so answered, with one of the three kinds of
    error; and every such date has a row. *)
Theorem obtener_boletines_errores red E C inicio hoy res log :
  obtener_boletines_desde_fecha red E C inicio hoy = Ok (res, log) ->
  (log = None
   <-> forall dt, (inicio <= dt <= hoy)%Z -> (strftime dt ∉ C) ->
                  exists n, publica red dt n)
  /\ forall es, log = Some es ->
       NoDup es
       /\ (forall e, In e es ->
             exists dt, (inicio <= dt <= hoy)%Z /\ e_fecha e = strftime dt
                        /\ (strftime dt ∉ C)
                        /\ ~ (exists n, publica red dt n)
                        /\ In (e_tipo_error e) tipos_error)
       /\ (forall dt, (inicio <= dt <= hoy)%Z -> (strftime dt ∉ C) ->
             ~ (exists n, publica red dt n) ->
             exists e, In e es /\ e_fecha e = strftime dt).
Proof.
  unfold obtener_boletines_desde_fecha. intros Hrun.
  destruct (recorrer red E C (Sesion [] [] ∅) (fechas inicio hoy))
    as [sf|] eqn:Hsf; [|discriminate Hrun].
  cbn [bind] in Hrun. injection Hrun as _ <-.
  destruct (recorrer_errores red E C _ _ _ Hsf) as (errs & Heq & Hs & Hc).
  cbn [errores_boletines app] in Heq. rewrite Heq. split.
  - split.
    + intros Hnone dt Hdt HC.
      destruct (publica_dec red dt) as [H|H]; [exact H|].
      destruct (Hc dt (proj2 (In_fechas _ _ _) Hdt) HC H) as (e & He & _).
      destruct errs; [destruct He|discriminate].
    + intros Hall. destruct errs as [|e errs]; [reflexivity|].
      destruct (Hs e (or_introl eq_refl)) as (dt & Hin & _ & HC & Hno & _).
      exfalso. apply Hno, Hall; [now apply In_fechas|exact HC].
  - intros es Hes.
    assert (Hdd : es = drop_duplicates errs)
      by (destruct errs; [discriminate|now injection Hes as <-]).
    subst es. split; [apply drop_duplicates_from_NoDup|]. split.
    + intros e He. apply (proj1 (drop_duplicates_In _ _)) in He.
      destruct (Hs e He) as (dt & Hin & H).
      exists dt. split; [now apply In_fechas|exact H].
    + intros dt Hdt HC Hno.
      destruct (Hc dt (proj2 (In_fechas _ _ _) Hdt) HC Hno) as (e & He & Hf).
      exists e. split; [now apply (proj2 (drop_duplicates_In _ _))|exact Hf].
Qed.

Lemma obtener_boletines_errores_witness :
  let log := Some [ErrorBoletin (py "24-04-2024") (py "HTTP 500")
                     (py "http")] in
  (log = None
   <-> forall dt, (739000 <= dt <= 739000)%Z ->
                  (strftime dt ∉ (∅ : gset str)) ->
                  exists n, publica red_500_nulo dt n)
  /\ forall es, log = Some es ->
       NoDup es
       /\ (forall e, In e es ->
             exists dt, (739000 <= dt <= 739000)%Z
                        /\ e_fecha e = strftime dt
                        /\ (strftime dt ∉ (∅ : gset str))
                        /\ ~ (exists n, publica red_500_nulo dt n)
                        /\ In (e_tipo_error e) tipos_error)
       /\ (forall dt, (739000 <= dt <= 739000)%Z ->
             (strftime dt ∉ (∅ : gset str)) ->
             ~ (exists n, publica red_500_nulo dt n) ->
             exists e, In e es /\ e_fecha e = strftime dt).
Proof.
  apply (obtener_boletines_errores red_500_nulo ∅ ∅ 739000 739000 []).
  vm_compute. reflexivity.
Defined.





(* ------------------------------------------------------------------ *)
(** ** Text cleaning: a clean text stays as it is *)

Lemma compacto_replace s :
  compacto s = true -> replace_char 10 (py " ") s = s.
Proof.
  induction s as [|c s IH]; [reflexivity|].
  cbn [compacto]. intros H. apply andb_prop in H as [Hc Hs].
  unfold replace_char in *. cbn [flat_map].
  rewrite (IH Hs). destruct (c =? 10) eqn:E; [|reflexivity].
  apply N.eqb_eq in E. subst c. discriminate Hc.
Qed.

Lemma compacto_colapsar_id s :
  compacto s = true -> colapsar false s = s.
Proof.
  induction s as [|c s IH]; [reflexivity|].
  cbn [compacto colapsar]. intros H. apply andb_prop in H as [Hc Hs].
  destruct (py_isspace c) eqn:Ec.
  - apply andb_prop in Hc as [H32 Hsig]. apply N.eqb_eq in H32. subst c.
    f_equal. rewrite colapsar_true_no_blanco; [now apply IH|].
    destruct s as [|d s']; [reflexivity|]. cbn [plen].
    now destruct (py_isspace d).
  - f_equal. now apply IH.
Qed.

Lemma compacto_sufijo p s : compacto (p ++ s) = true -> compacto s = true.
Proof.
  induction p as [|c p IH]; [auto|].
  cbn [app compacto]. intros H. apply andb_prop in H as [_ H]. now apply IH.
Qed.

Lemma compacto_prefijo s q : compacto (s ++ q) = true -> compacto s = true.
Proof.
  induction s as [|c s IH]; [reflexivity|].
  cbn [app compacto]. intros H. apply andb_prop in H as [Hc H].
  rewrite (IH H), Bool.andb_true_r.
  destruct (py_isspace c); [|reflexivity].
  apply andb_prop in Hc as [H32 Hsig]. rewrite H32. cbn [andb].
  destruct s as [|d s']; [reflexivity|exact Hsig].
Qed.

Lemma lstrip_id s :
  (forall c, head s = Some c -> py_isspace c = false) -> lstrip s = s.
Proof.
  destruct s as [|c s]; [reflexivity|]. intros H. cbn [lstrip].
  now rewrite (H c eq_refl).
Qed.

Lemma rstrip_id s :
  (forall c, head (rev s) = Some c -> py_isspace c = false) -> rstrip s = s.
Proof.
  intros H. unfold rstrip. rewrite (lstrip_id _ H). apply rev_involutive.
Qed.

Lemma strip_id s : strip (strip s) = strip s.
Proof.
  unfold strip at 1. rewrite (lstrip_id (strip s)) by apply strip_cabeza.
  apply rstrip_id. unfold strip. apply rstrip_ultimo.
Qed.

(** X10.  Cleaning is idempotent: a text that was cleaned is left as it is
    by a second cleaning, and so is a value that is not text. *)
Theorem limpiar_texto_licitacion_idempotente texto :
  limpiar_texto_licitacion (limpiar_texto_licitacion texto)
  = limpiar_texto_licitacion texto.
Proof.
  destruct texto as [| |z|t]; try reflexivity.
  cbn [limpiar_texto_licitacion]. f_equal.
  unfold re_sub. rewrite !(proj1 (sub_espacios _ _)).
  set (o := colapsar false (replace_char 10 (py " ") t)).
  assert (Ho : compacto (strip o) = true).
  { destruct (strip_contiguo o) as (p & q & Hpq).
    pose proof (proj1 (compacto_colapsar (replace_char 10 (py " ") t) false))
      as Hc.
    fold o in Hc. rewrite Hpq in Hc.
    apply compacto_sufijo in Hc. now apply compacto_prefijo in Hc. }
  rewrite (compacto_replace _ Ho), (compacto_colapsar_id _ Ho).
  apply strip_id.
Qed.

(* ------------------------------------------------------------------ *)
(** ** Amounts: the value of a numeral *)

Lemma digito_no_punto c : py_isdigit c = true -> (c =? ch ".") = false.
Proof. intros H. clases. Qed.

Lemma digito_no_coma c : py_isdigit c = true -> (c =? ch ",") = false.
Proof. intros H. clases. Qed.

Lemma replace_char_app old new a b :
  replace_char old new (a ++ b)
  = replace_char old new a ++ replace_char old new b.
Proof. unfold replace_char. apply flat_map_app. Qed.

Lemma replace_char_ajeno old new s :
  Forall (fun c => (c =? old) = false) s -> replace_char old new s = s.
Proof.
  induction 1 as [|c s Hc _ IH]; [reflexivity|].
  unfold replace_char in *. cbn [flat_map]. now rewrite Hc, IH.
Qed.

Lemma replace_punto_numeral b :
  Forall es_numeral b ->
  Forall (fun c => py_isdigit c = true) (replace_char (ch ".") [] b).
Proof.
  induction 1 as [|c b Hc _ IH]; [constructor|].
  unfold replace_char in *. cbn [flat_map].
  destruct Hc as [Hc| ->].
  - rewrite (digito_no_punto _ Hc). now constructor.
  - rewrite N.eqb_refl. exact IH.
Qed.

Lemma until_dot_digitos ds rest :
  Forall (fun c => py_isdigit c = true) ds ->
  until_dot (ds ++ ch "." :: rest) = ds.
Proof.
  induction 1 as [|c ds Hc _ IH]; cbn [app until_dot].
  - now rewrite N.eqb_refl.
  - now rewrite (digito_no_punto _ Hc), IH.
Qed.

Lemma digits_val_digitos ds :
  Forall (fun c => py_isdigit c = true) ds ->
  forall acc, (0 <= acc)%Z ->
    exists n, digits_val acc ds = Some n /\ (0 <= n)%Z.
Proof.
  induction 1 as [|c ds Hc _ IH]; intros acc Hacc; cbn [digits_val].
  - eauto.
  - rewrite Hc. apply IH. unfold digit_val. lia.
Qed.

(** X11.  Every numeral that [extraer_monto_total] finds in a text is
    read as a number: it is a run of digits and periods, a comma and two
    digits, and its value is the number that the digits before the comma
    spell, plus the two digits after it as hundredths.  The handler for
    numerals that cannot be read is never entered. *)
Theorem extraer_monto_total_valor s g1 g2 :
  In (g1, g2) (findall_monto s) ->
  exists b d1 d2 n,
    g2 = b ++ [ch ","; d1; d2]
    /\ py_isdigit d1 = true /\ py_isdigit d2 = true
    /\ digits_val 0 (replace_char (ch ".") [] b) = Some n
    /\ (0 <= n)%Z
    /\ valor_monto g2
       = Some (Qred ((n * 100 + (10 * digit_val d1 + digit_val d2))
                     # 100)).
Proof.
  intros Hin. apply findall_monto_In in Hin as [Hl _].
  apply lang_re_numero in Hl as (b0 & d0 & d1 & d2 & -> & Hb & H0 & H1 & H2).
  set (ds := replace_char (ch ".") [] (b0 ++ [d0])).
  assert (Hds : Forall (fun c => py_isdigit c = true) ds).
  { apply replace_punto_numeral, Forall_app. split; [exact Hb|].
    constructor; [now left|constructor]. }
  destruct (digits_val_digitos ds Hds 0%Z ltac:(lia)) as (n & Hn & Hpos).
  exists (b0 ++ [d0]), d1, d2, n.
  split; [now rewrite <- app_assoc|].
  do 4 (split; [assumption|]).
  unfold valor_monto.
  replace (b0 ++ [d0; ch ","; d1; d2]) with ((b0 ++ [d0]) ++ [ch ","; d1; d2])
    by now rewrite <- app_assoc.
  rewrite (replace_char_app (ch ".")). fold ds.
  rewrite (replace_char_ajeno (ch ".") [] [ch ","; d1; d2])
    by (apply Forall_cons; [reflexivity|];
        apply Forall_cons; [now apply digito_no_punto|];
        apply Forall_cons; [now apply digito_no_punto|apply Forall_nil]).
  rewrite (replace_char_app (ch ",")).
  rewrite (replace_char_ajeno (ch ",") _ ds)
    by (eapply Forall_impl; [|exact Hds]; apply digito_no_coma).
  unfold replace_char at 1. cbn [flat_map].
  rewrite N.eqb_refl, (digito_no_coma _ H1), (digito_no_coma _ H2).
  change (py "." ++ [d1] ++ [d2] ++ []) with (ch "." :: [d1; d2]).
  unfold float_of_str. rewrite (until_dot_digitos ds [d1; d2] Hds).
  replace (drop (S (length ds)) (ds ++ ch "." :: [d1; d2])) with [d1; d2]
    by (change (ds ++ ch "." :: [d1; d2]) with (ds ++ [ch "."] ++ [d1; d2]);
        rewrite app_assoc, drop_app_length'; [reflexivity|];
        rewrite length_app; cbn; lia).
  rewrite Hn. cbn [digits_val]. rewrite H1, H2.
  destruct (ds ++ [d1; d2]) eqn:E; [now destruct ds|].
  reflexivity.
Qed.

Lemma extraer_monto_total_valor_witness :
  exists b d1 d2 n,
    py "2.400.000,00" = b ++ [ch ","; d1; d2]
    /\ py_isdigit d1 = true /\ py_isdigit d2 = true
    /\ digits_val 0 (replace_char (ch ".") [] b) = Some n
    /\ (0 <= n)%Z
    /\ valor_monto (py "2.400.000,00")
       = Some (Qred ((n * 100 + (10 * digit_val d1 + digit_val d2))
                     # 100)).
Proof.
  apply (extraer_monto_total_valor (py "El monto total es $ 2.400.000,00")
           (py "$") (py "2.400.000,00")).
  vm_compute. auto.
Defined.

(* ------------------------------------------------------------------ *)
(** ** The log of failed documents *)

Lemma drop_duplicates_by_from_spec {A K} `{EqDecision K} (clave : A -> K) l :
  forall seen,
    NoDup (map clave (drop_duplicates_by_from clave seen l))
    /\ (forall x, In x (drop_duplicates_by_from clave seen l) ->
                  In x l /\ ~ In (clave x) seen)
    /\ (forall k, In k (map clave l) -> ~ In k seen ->
                  In k (map clave (drop_duplicates_by_from clave seen l))).
Proof.
  induction l as [|x l IH]; intros seen; cbn [drop_duplicates_by_from map].
  - split; [constructor|]. split; [intros x []|intros k []].
  - destruct (bool_decide (clave x ∈ seen)) eqn:E.
    + apply bool_decide_eq_true in E. rewrite list_elem_of_In in E.
      destruct (IH seen) as (Hnd & Hin & Hk).
      split; [exact Hnd|]. split.
      * intros y Hy. destruct (Hin y Hy). split; [now right|assumption].
      * intros k [<-|Hkl] Hns; [contradiction|now apply Hk].
    + apply bool_decide_eq_false in E. rewrite list_elem_of_In in E.
      destruct (IH (clave x :: seen)) as (Hnd & Hin & Hk).
      cbn [map]. split; [|split].
      * constructor; [|exact Hnd]. intros Hx.
        apply in_map_iff in Hx as (y & Hy & Hyin).
        destruct (Hin y Hyin) as [_ Hno]. apply Hno. now left.
      * intros y [<-|Hy]; [split; [now left|exact E]|].
        destruct (Hin y Hy) as [H1 H2].
        split; [now right|]. intros H. apply H2. now right.
      * intros k Hkin Hns. destruct (decide (k = clave x)) as [->|Hne];
          [now left|].
        right. apply Hk.
        -- destruct Hkin as [<-|H]; [contradiction|exact H].
        -- intros [H|H]; [now apply Hne|contradiction].
Qed.

Lemma drop_duplicates_by_from_prefijo {A K} `{EqDecision K} (clave : A -> K)
    ex l : forall seen,
  NoDup (map clave ex) ->
  (forall x, In x ex -> ~ In (clave x) seen) ->
  drop_duplicates_by_from clave seen (ex ++ l)
  = ex ++ drop_duplicates_by_from clave (rev (map clave ex) ++ seen) l.
Proof.
  induction ex as [|x ex IH]; intros seen Hnd Hseen; [reflexivity|].
  cbn [app drop_duplicates_by_from map rev].
  inversion Hnd as [|? ? Hx Hnd']; subst.
  rewrite bool_decide_eq_false_2
    by (rewrite list_elem_of_In; apply Hseen; now left).
  f_equal. rewrite IH.
  - now rewrite <- app_assoc.
  - exact Hnd'.
  - intros y Hy [H|H].
    + apply Hx. rewrite H. now apply in_map.
    + apply (Hseen y); [now right|exact H].
Qed.

Lemma clave_fila_error_norma hoy lista :
  map clave_error_norma (map (fila_error_norma hoy) lista) = lista.
Proof.
  rewrite map_map. rewrite <- (map_id lista) at 2. apply map_ext.
  now intros [i e].
Qed.

(** X12.  Saving the failed documents of a run.  An empty list leaves the
    file as it is.  When the file exists, what is written has no two rows
    with the same notice and message; its keys are those of the file and of
    the new list; each of its rows is a row of the file or a new row with
    the date of the run; and when the file had no repeated key, its rows
    come first, unchanged, followed by rows whose keys the file did not
    have.  When there is no file, the new rows are written as they come,
    repeated ones too. *)
Theorem guardar_log_errores_normas_sin_repetidos :
  (forall hoy log, guardar_log_errores_normas [] hoy log = log)
  /\ (forall e lista hoy existentes,
        exists out,
          guardar_log_errores_normas (e :: lista) hoy (Some existentes)
          = Some out
          /\ NoDup (map clave_error_norma out)
          /\ (forall k, In k (map clave_error_norma out)
                        <-> In k (map clave_error_norma existentes)
                            \/ In k (e :: lista))
          /\ (forall f, In f out ->
                In f existentes
                \/ exists p, In p (e :: lista) /\ f = fila_error_norma hoy p)
          /\ (NoDup (map clave_error_norma existentes) ->
              exists nuevos,
                out = existentes ++ nuevos
                /\ forall f, In f nuevos ->
                     ~ In (clave_error_norma f)
                          (map clave_error_norma existentes)))
  /\ (forall e lista hoy,
        guardar_log_errores_normas (e :: lista) hoy None
        = Some (map (fila_error_norma hoy) (e :: lista))).
Proof.
  split; [reflexivity|]. split; [|reflexivity].
  intros e lista hoy ex. eexists. split; [reflexivity|].
  fold (fila_error_norma hoy). unfold drop_duplicates_by.
  change (fila_error_norma hoy e :: map (fila_error_norma hoy) lista)
    with (map (fila_error_norma hoy) (e :: lista)).
  set (nuevo := map (fila_error_norma hoy) (e :: lista)).
  destruct (drop_duplicates_by_from_spec clave_error_norma (ex ++ nuevo) [])
    as (Hnd & Hin & Hk).
  assert (Hclaves : map clave_error_norma (ex ++ nuevo)
                    = map clave_error_norma ex ++ (e :: lista))
    by (rewrite map_app; unfold nuevo; now rewrite clave_fila_error_norma).
  split; [exact Hnd|]. split; [|split].
  - intros k. rewrite <- in_app_iff, <- Hclaves. split.
    + intros Hx. apply in_map_iff in Hx as (y & <- & Hy).
      apply in_map. now apply Hin.
    + intros Hx. apply Hk; [exact Hx|intros []].
  - intros f Hf. destruct (Hin f Hf) as [Hf' _].
    apply in_app_or in Hf' as [H|H]; [now left|right].
    unfold nuevo in H. apply in_map_iff in H as (p & <- & Hp). eauto.
  - intros Hex.
    rewrite (drop_duplicates_by_from_prefijo clave_error_norma ex nuevo [] Hex)
      by (intros x _ []).
    eexists. split; [reflexivity|]. intros f Hf.
    destruct (drop_duplicates_by_from_spec clave_error_norma nuevo
                (rev (map clave_error_norma ex) ++ []))
      as (_ & Hin' & _).
    destruct (Hin' f Hf) as [_ Hno]. intros H. apply Hno.
    rewrite app_nil_r. now apply in_rev in H.
Qed.

(* ------------------------------------------------------------------ *)
(** ** Tender documents *)

Section Documentos.
Variable red_pdf : nat -> str -> respuesta_pdf.
Variable texto_de : str -> option str.

Lemma descargar_pdf_casos d id url :
archivos d ⊆ archivos (descargar_pdf red_pdf d id url)
/\ ((exists c, archivos d !! id = Some c)
    /\ descargar_pdf red_pdf d id url = d
    \/ archivos d !! id = None
       /\ pedidos (descargar_pdf red_pdf d id url) = pedidos d ++ [url]).
Proof.
unfold descargar_pdf. destruct (archivos d !! id) as [c|] eqn:E.
{ split; [reflexivity|]. left. eauto. }
destruct (red_pdf (length (pedidos d)) url) as [| |status content];
  try (split; [reflexivity|right; auto]).
destruct (raise_for_status status);
  (split; [|right; auto]); [reflexivity|].
cbn [archivos]. now apply insert_subseteq.
Qed.

Lemma procesar_fila_casos l row :
exists t e0 p0,
  textos_pdf (procesar_fila red_pdf texto_de l row) = textos_pdf l ++ [t]
  /\ errores_pdf_normas (procesar_fila red_pdf texto_de l row)
     = errores_pdf_normas l ++ e0
  /\ pedidos (l_disco (procesar_fila red_pdf texto_de l row))
     = pedidos (l_disco l) ++ p0
  /\ archivos (l_disco l)
     ⊆ archivos (l_disco (procesar_fila red_pdf texto_de l row))
  /\ (forall u, In u p0 ->
        u = nr_url_norma row
        /\ archivos (l_disco l) !! nr_id_norma row = None)
  /\ (forall x, In x e0 ->
        x = (nr_id_norma row, mensaje_sin_archivo (nr_id_norma row))
        /\ archivos (l_disco l) !! nr_id_norma row = None /\ t = [])
  /\ (archivos (l_disco (procesar_fila red_pdf texto_de l row))
        !! nr_id_norma row = None ->
      t = []
      /\ e0 = [(nr_id_norma row, mensaje_sin_archivo (nr_id_norma row))])
  /\ (forall c,
        archivos (l_disco (procesar_fila red_pdf texto_de l row))
          !! nr_id_norma row = Some c ->
        t = texto_o_vacio texto_de c /\ e0 = []).
Proof.
unfold procesar_fila.
destruct (descargar_pdf_casos (l_disco l) (nr_id_norma row)
            (nr_url_norma row)) as (Hsub & Hcasos).
set (d1 := descargar_pdf red_pdf (l_disco l) (nr_id_norma row)
             (nr_url_norma row)) in *.
assert (Hp : exists p0,
           pedidos d1 = pedidos (l_disco l) ++ p0
           /\ forall u, In u p0 ->
                u = nr_url_norma row
                /\ archivos (l_disco l) !! nr_id_norma row = None).
{ destruct Hcasos as [((c & Hc) & Heq)|(Hn & Hp)].
  - exists []. rewrite Heq, app_nil_r. split; [reflexivity|intros u []].
  - exists [nr_url_norma row]. split; [exact Hp|].
    intros u [<-|[]]. auto. }
destruct Hp as (p0 & Hp0 & Hp0').
destruct (archivos d1 !! nr_id_norma row) as [c|] eqn:E.
- exists (texto_o_vacio texto_de c), [], p0.
  cbn [textos_pdf errores_pdf_normas l_disco].
  unfold extraer_texto_pdf. rewrite E, app_nil_r.
  split; [reflexivity|]. split; [reflexivity|]. split; [exact Hp0|].
  split; [exact Hsub|]. split; [exact Hp0'|].
  split; [intros x []|]. split; [intros Hn; congruence|].
  intros c' Hc'. assert (c' = c) as -> by congruence. auto.
- exists [], [(nr_id_norma row, mensaje_sin_archivo (nr_id_norma row))], p0.
  cbn [textos_pdf errores_pdf_normas l_disco].
  split; [reflexivity|]. split; [reflexivity|]. split; [exact Hp0|].
  split; [exact Hsub|]. split; [exact Hp0'|].
  split; [|split; [auto|intros c Hc; congruence]].
  intros x [<-|[]]. split; [reflexivity|]. split; [|reflexivity].
  eapply lookup_weaken_None; eassumption.
Qed.

Lemma Forall2_weaken {A B} (P Q : A -> B -> Prop) l k :
(forall x y, P x y -> Q x y) -> Forall2 P l k -> Forall2 Q l k.
Proof. intros H. induction 1; constructor; auto. Qed.

Lemma Forall2_In_combine {A B} (P : A -> B -> Prop) l k x y :
Forall2 P l k -> In (x, y) (combine l k) -> P x y.
Proof.
induction 1 as [|a b l k Hab _ IH]; cbn [combine]; [intros []|].
intros [[= <- <-]|H]; auto.
Qed.

Lemma Forall2_combine_fst {A B} (P : A -> B -> Prop) l k :
Forall2 P l k -> map fst (combine l k) = l.
Proof. induction 1; cbn [combine map fst]; [reflexivity|now f_equal]. Qed.

Lemma fold_procesar rows : forall l,
archivos (l_disco l)
⊆ archivos (l_disco (fold_left (procesar_fila red_pdf texto_de) rows l))
/\ exists ts es ps,
     textos_pdf (fold_left (procesar_fila red_pdf texto_de) rows l)
     = textos_pdf l ++ ts
     /\ errores_pdf_normas (fold_left (procesar_fila red_pdf texto_de) rows l)
        = errores_pdf_normas l ++ es
     /\ pedidos (l_disco (fold_left (procesar_fila red_pdf texto_de) rows l))
        = pedidos (l_disco l) ++ ps
     /\ Forall2
          (fun row t =>
             (archivos (l_disco (fold_left (procesar_fila red_pdf texto_de)
                                           rows l))
                !! nr_id_norma row = None ->
              t = []
              /\ In (nr_id_norma row, mensaje_sin_archivo (nr_id_norma row))
                    es)
             /\ (forall c,
                   archivos (l_disco (fold_left
                                        (procesar_fila red_pdf texto_de)
                                        rows l))
                     !! nr_id_norma row = Some c ->
                   t = texto_o_vacio texto_de c
                   \/ (t = []
                       /\ In (nr_id_norma row,
                              mensaje_sin_archivo (nr_id_norma row)) es)))
          rows ts
     /\ (forall x, In x es ->
           exists row,
             In (row, []) (combine rows ts)
             /\ x = (nr_id_norma row, mensaje_sin_archivo (nr_id_norma row))
             /\ archivos (l_disco l) !! nr_id_norma row = None)
     /\ (forall u, In u ps ->
           exists row,
             In row rows /\ nr_url_norma row = u
             /\ archivos (l_disco l) !! nr_id_norma row = None).
Proof.
induction rows as [|row rows IH]; intros l; cbn [fold_left].
- split; [reflexivity|]. exists [], [], []. rewrite !app_nil_r.
  do 3 (split; [reflexivity|]). split; [constructor|].
  split; [intros x []|intros u []].
- destruct (procesar_fila_casos l row)
    as (t & e0 & p0 & Ht & He & Hp & Hsub & Hp0 & He0 & Hnone & Hsome).
  destruct (IH (procesar_fila red_pdf texto_de l row))
    as (Hsub' & ts & es & ps & Hts & Hes & Hps & HF & Hes' & Hps').
  set (l1 := procesar_fila red_pdf texto_de l row) in *.
  set (lf := fold_left (procesar_fila red_pdf texto_de) rows l1) in *.
  split; [etransitivity; eassumption|].
  exists (t :: ts), (e0 ++ es), (p0 ++ ps).
  split; [rewrite Hts, Ht, <- app_assoc; reflexivity|].
  split; [rewrite Hes, He, <- app_assoc; reflexivity|].
  split; [rewrite Hps, Hp, <- app_assoc; reflexivity|].
  split; [|split].
  + constructor.
    * split.
      -- intros Hn.
         pose proof (lookup_weaken_None _ _ _ Hn Hsub') as Hn1.
         destruct (Hnone Hn1) as [-> ->]. split; [reflexivity|].
         apply in_or_app. left. now left.
      -- intros c Hc.
         destruct (archivos (l_disco l1) !! nr_id_norma row) as [c1|] eqn:E1.
         ++ pose proof (lookup_weaken _ _ _ _ E1 Hsub') as Hc'.
            rewrite Hc in Hc'. injection Hc' as <-. left. now apply Hsome.
         ++ destruct (Hnone eq_refl) as [-> ->]. right. split; [reflexivity|].
            apply in_or_app. left. now left.
    * eapply Forall2_weaken; [|exact HF]. cbv beta.
      intros r t0 [H1 H2]. split.
      -- intros Hn. destruct (H1 Hn). split; [assumption|].
         apply in_or_app. now right.
      -- intros c Hc. destruct (H2 c Hc) as [H|[H H']]; [now left|].
         right. split; [assumption|]. apply in_or_app. now right.
  + intros x Hx. apply in_app_or in Hx as [Hx|Hx].
    * destruct (He0 x Hx) as (-> & Hl & ->). exists row.
      split; [now left|]. auto.
    * destruct (Hes' x Hx) as (r & Hin & -> & Hl). exists r.
      split; [now right|]. split; [reflexivity|].
      eapply lookup_weaken_None; eassumption.
  + intros u Hu. apply in_app_or in Hu as [Hu|Hu].
    * destruct (Hp0 u Hu) as (-> & Hl). exists row.
      split; [now left|]. auto.
    * destruct (Hps' u Hu) as (r & Hin & <- & Hl). exists r.
      split; [now right|]. split; [reflexivity|].
      eapply lookup_weaken_None; eassumption.
Qed.

Lemma fold_procesar_cache rows : forall d es ts,
Forall (fun row => is_Some (archivos d !! nr_id_norma row)) rows ->
fold_left (procesar_fila red_pdf texto_de) rows (Lote d es ts)
= Lote d es
       (ts ++ map (fun row => extraer_texto_pdf texto_de d (nr_id_norma row))
                  rows).
Proof.
induction rows as [|row rows IH]; intros d es ts Hall; cbn [fold_left map].
- now rewrite app_nil_r.
- inversion Hall as [|? ? [c Hc] Hall']; subst.
  unfold procesar_fila at 2. cbn [l_disco errores_pdf_normas textos_pdf].
  unfold descargar_pdf. rewrite Hc, Hc.
  rewrite (IH d es _ Hall'), <- app_assoc. reflexivity.
Qed.
End Documentos.

(** X13.  The texts of the tenders.  The call returns one row for each
    notice of the subsection "Licitaciones", in order.  The text of a row
    is the text extracted from its file as the directory holds it at the
    end, or it is empty and the list of errors has the entry of the notice.
    A notice with no file at the end has the empty text and its entry.
    Every entry of the list of errors is that of a tender with the empty
    text whose file was not in the directory at the start. *)
Theorem procesar_licitaciones_textos red_pdf texto_de d df :
  map fst (fst (fst (procesar_licitaciones red_pdf texto_de d df)))
  = filter es_licitacion df
  /\ (forall row t,
        In (row, t) (fst (fst (procesar_licitaciones red_pdf texto_de d df))) ->
        t = extraer_texto_pdf texto_de
              (snd (fst (procesar_licitaciones red_pdf texto_de d df)))
              (nr_id_norma row)
        \/ (t = []
            /\ In (nr_id_norma row, mensaje_sin_archivo (nr_id_norma row))
                  (snd (procesar_licitaciones red_pdf texto_de d df))))
  /\ (forall row t,
        In (row, t) (fst (fst (procesar_licitaciones red_pdf texto_de d df))) ->
        archivos (snd (fst (procesar_licitaciones red_pdf texto_de d df)))
          !! nr_id_norma row = None ->
        t = []
        /\ In (nr_id_norma row, mensaje_sin_archivo (nr_id_norma row))
              (snd (procesar_licitaciones red_pdf texto_de d df)))
  /\ (forall x,
        In x (snd (procesar_licitaciones red_pdf texto_de d df)) ->
        exists row,
          In (row, [])
             (fst (fst (procesar_licitaciones red_pdf texto_de d df)))
          /\ x = (nr_id_norma row, mensaje_sin_archivo (nr_id_norma row))
          /\ archivos d !! nr_id_norma row = None).
Proof.
  unfold procesar_licitaciones. cbn [fst snd].
  destruct (fold_procesar red_pdf texto_de (filter es_licitacion df)
              (Lote d [] []))
    as (_ & ts & es & ps & Hts & Hes & _ & HF & Herr & _).
  cbn [textos_pdf errores_pdf_normas l_disco app] in *.
  rewrite Hts, Hes. split; [eapply Forall2_combine_fst, HF|].
  split; [|split].
  - intros row t Hin.
    destruct (Forall2_In_combine _ _ _ _ _ HF Hin) as [H1 H2].
    unfold extraer_texto_pdf.
    destruct (archivos _ !! nr_id_norma row) as [c|] eqn:E.
    + destruct (H2 c eq_refl) as [H|H]; [now left|now right].
    + left. now destruct (H1 eq_refl).
  - intros row t Hin Hn.
    destruct (Forall2_In_combine _ _ _ _ _ HF Hin) as [H1 _]. now apply H1.
  - exact Herr.
Qed.

(** X14.  The downloads of the tenders.  The call removes and replaces no
    file of the directory.  Each request it makes is for the document of a
    tender whose file was not in the directory at the start.  When every
    tender has its file at the start, the call makes no request, leaves the
    directory as it was, reports no error and returns the texts of the
    files. *)
Theorem procesar_licitaciones_descargas red_pdf texto_de d df :
  archivos d
  ⊆ archivos (snd (fst (procesar_licitaciones red_pdf texto_de d df)))
  /\ (exists ps,
        pedidos (snd (fst (procesar_licitaciones red_pdf texto_de d df)))
        = pedidos d ++ ps
        /\ forall u, In u ps ->
             exists row,
               In row df /\ es_licitacion row = true
               /\ nr_url_norma row = u
               /\ archivos d !! nr_id_norma row = None)
  /\ (Forall (fun row => is_Some (archivos d !! nr_id_norma row))
             (filter es_licitacion df) ->
      procesar_licitaciones red_pdf texto_de d df
      = (map (fun row => (row, extraer_texto_pdf texto_de d (nr_id_norma row)))
             (filter es_licitacion df),
         d, [])).
Proof.
  unfold procesar_licitaciones. cbn [fst snd].
  destruct (fold_procesar red_pdf texto_de (filter es_licitacion df)
              (Lote d [] []))
    as (Hsub & ts & es & ps & _ & _ & Hps & _ & _ & Hreq).
  cbn [l_disco] in *. split; [exact Hsub|]. split.
  - exists ps. split; [exact Hps|]. intros u Hu.
    destruct (Hreq u Hu) as (row & Hin & Hurl & Hl).
    apply filter_In in Hin as [Hin Hlic]. eauto.
  - intros Hall. rewrite (fold_procesar_cache _ _ _ _ _ _ Hall).
    cbn [textos_pdf l_disco errores_pdf_normas app]. f_equal. f_equal.
    clear. induction (filter es_licitacion df) as [|r l IH];
      cbn [map combine]; [reflexivity|now f_equal].
Qed.

(* ------------------------------------------------------------------ *)
(** ** Company identifiers *)

Ltac evaluar_py :=
  repeat match goal with
         | |- context [py ?s] =>
           let v := eval vm_compute in (py s) in change (py s) with v
         end.

Lemma run_grp n r c : run (Grp n r) c = map (set_group n c) (run r c).
Proof. reflexivity. Qed.

Lemma run_literal s : forall c rest,
  after c = s ++ rest ->
  run (literal s) c = [Cursor (rev s ++ before c) rest (groups c)].
Proof.
  induction s as [|a s IH]; intros [bef aft g] rest Ha;
    cbn [after before groups] in *.
  - cbn [literal run app rev]. now subst.
  - cbn [literal]. unfold Chr. rewrite run_seq, run_cls.
    cbn [after before groups]. rewrite Ha. cbn [app]. rewrite N.eqb_refl.
    cbn [flat_map]. rewrite app_nil_r.
    rewrite (IH (Cursor (a :: bef) (s ++ rest) g) rest eq_refl).
    cbn [before groups rev].
    now rewrite <- app_assoc.
Qed.

Lemma run_literal_falla a s c x rest :
  after c = x :: rest -> (a =? x) = false -> run (literal (a :: s)) c = [].
Proof.
  intros Ha H. cbn [literal]. unfold Chr. rewrite run_seq, run_cls, Ha, H.
  reflexivity.
Qed.

Lemma countdown_cabeza m : countdown m = m :: tl (countdown m).
Proof. now destruct m. Qed.

Lemma lang_literal s : forall w, lang (literal s) w -> w = s.
Proof.
  induction s as [|a s IH]; intros w; cbn [literal lang]; [auto|].
  intros (u & v & -> & (x & -> & Hx) & Hv). apply N.eqb_eq in Hx. subst x.
  cbn [app]. f_equal. now apply IH.
Qed.

Lemma star_groups (body : cursor -> list cursor) :
  (forall c c', In c' (body c) -> groups c' = groups c) ->
  forall fuel c c', In c' (star body fuel c) -> groups c' = groups c.
Proof.
  intros Hb. induction fuel as [|f IH]; intros c c'; cbn [star].
  - intros [<-|[]]. reflexivity.
  - intros Hin. apply in_app_or in Hin as [Hin|[<-|[]]]; [|reflexivity].
    apply in_flat_map in Hin as (c1 & Hc1 & Hin).
    destruct (_ <? _)%nat; [|destruct Hin].
    rewrite (IH _ _ Hin). now apply Hb.
Qed.

Lemma run_groups r : sin_grupos r = true ->
  forall c c', In c' (run r c) -> groups c' = groups c.
Proof.
  induction r as [|p|r1 IH1 r2 IH2|r1 IH1 r2 IH2|r1 IH1| | |n r1 IH1];
    cbn [sin_grupos]; intros Hs c c'; try discriminate.
  - intros [<-|[]]. reflexivity.
  - rewrite run_cls. destruct (after c) as [|x rest]; [intros []|].
    destruct (p x); [|intros []]. intros [<-|[]]. reflexivity.
  - apply andb_prop in Hs as [H1 H2]. intros Hin.
    apply in_run_seq in Hin as (c1 & Hc1 & Hin).
    rewrite (IH2 H2 _ _ Hin). now apply IH1.
  - apply andb_prop in Hs as [H1 H2]. rewrite run_alt. intros Hin.
    apply in_app_or in Hin as [Hin|Hin]; [now apply IH1|now apply IH2].
  - cbn [run]. apply star_groups. now apply IH1.
  - rewrite run_bnd. destruct (at_boundary c); [|intros []].
    intros [<-|[]]. reflexivity.
  - cbn [run]. destruct (at_eol c); [|intros []].
    intros [<-|[]]. reflexivity.
Qed.

Lemma sin_grupos_literal s : sin_grupos (literal s) = true.
Proof. induction s as [|a s IH]; [reflexivity|exact IH]. Qed.

Lemma replace_guion_digitos w :
  Forall (fun c => es_digito_o_guion c = true) w ->
  Forall (fun c => py_isdigit c = true) (replace_char (ch "-") [] w).
Proof.
  induction 1 as [|c w Hc _ IH]; [constructor|].
  unfold replace_char in *. cbn [flat_map].
  destruct (c =? ch "-") eqn:E; [exact IH|].
  constructor; [|exact IH]. unfold es_digito_o_guion in Hc.
  rewrite E, Bool.orb_false_r in Hc. exact Hc.
Qed.

(** A well-formed identifier is matched, with the country in group 1 and
    the digits and hyphens in group 2. *)
Lemma match_company_id x y b0 cuerpo :
  in_range 65 90 x = true -> in_range 65 90 y = true ->
  Forall (fun c => es_digito_o_guion c = true) (b0 :: cuerpo) ->
  exists m,
    match_at re_company_id []
      (x :: y :: py "-CUIT-" ++ (b0 :: cuerpo) ++ py "-supplier") = Some m
    /\ group 1 (groups m) = [x; y]
    /\ group 2 (groups m) = b0 :: cuerpo.
Proof.
  intros Hx Hy Hb. inversion Hb as [|? ? Hb0 Hc]; subst.
  unfold match_at, re_company_id.
  rewrite run_seq, run_grp, run_seq. unfold mayuscula.
  rewrite run_cls. cbn [after before groups]. rewrite Hx. cbn [flat_map].
  rewrite app_nil_r, run_cls. cbn [after before groups]. rewrite Hy.
  cbn [map flat_map]. rewrite app_nil_r.
  unfold set_group at 1. cbn [before after groups].
  rewrite (sigue_consumed _ _ [x; y]) by (split; reflexivity).
  rewrite run_seq.
  rewrite (run_literal (py "-CUIT-") _ ((b0 :: cuerpo) ++ py "-supplier"))
    by reflexivity.
  cbn [flat_map before groups]. rewrite app_nil_r.
  rewrite run_seq, run_grp. unfold Plus.
  rewrite run_seq, run_cls. cbn [after before groups app].
  rewrite Hb0. cbn [flat_map]. rewrite app_nil_r, run_star_cls.
  cbn [after].
  set (c3 := Cursor (rev (py "-CUIT-") ++ [y; x])
                    (b0 :: cuerpo ++ py "-supplier") [(1%nat, [x; y])]).
  set (c4 := Cursor (b0 :: rev (py "-CUIT-") ++ [y; x])
                    (cuerpo ++ py "-supplier") [(1%nat, [x; y])]).
  rewrite (plen_app_all _ cuerpo _ Hc).
  replace (plen es_digito_o_guion (py "-supplier")) with 1%nat
    by (vm_compute; reflexivity).
  rewrite Nat.add_1_r. cbn [countdown]. rewrite (countdown_cabeza (length cuerpo)).
  cbn [map flat_map].
  (* the longest candidate leaves "supplier" *)
  replace (S (length cuerpo)) with (length (cuerpo ++ [ch "-"]))
    by (rewrite length_app; cbn [length]; lia).
  rewrite (advance_app c4 (cuerpo ++ [ch "-"]) (py "supplier"))
    by (unfold c4; cbn [after]; rewrite <- app_assoc; reflexivity).
  rewrite run_seq.
  replace (py "-supplier") with (ch "-" :: py "supplier") at 1
    by (vm_compute; reflexivity).
  rewrite (run_literal_falla (ch "-") (py "supplier") _ (ch "s")
             (py "upplier"))
    by (vm_compute; reflexivity).
  cbn [flat_map app].
  (* the next one leaves "-supplier" *)
  rewrite (advance_app c4 cuerpo (py "-supplier")) by reflexivity.
  rewrite run_seq.
  rewrite (run_literal (py "-supplier") _ []) by reflexivity.
  cbn [flat_map run at_eol after]. cbn [app head].
  eexists. split; [reflexivity|]. cbn [groups set_group group].
  change (1 =? 1)%nat with true. change (2 =? 1)%nat with false.
  change (2 =? 2)%nat with true. cbv iota.
  split; [reflexivity|].
  apply sigue_consumed. unfold c3, c4. split; cbn [after before].
  - reflexivity.
  - cbn [rev]. now rewrite <- !app_assoc.
Qed.

Lemma match_company_id_cuerpo x y cuerpo :
  in_range 65 90 x = true -> in_range 65 90 y = true ->
  cuerpo <> [] ->
  Forall (fun c => es_digito_o_guion c = true) cuerpo ->
  exists m,
    match_at re_company_id []
      ([x; y] ++ py "-CUIT-" ++ cuerpo ++ py "-supplier") = Some m
    /\ group 1 (groups m) = [x; y]
    /\ group 2 (groups m) = cuerpo.
Proof.
  intros Hx Hy Hne Hc. destruct cuerpo as [|b0 cuerpo]; [contradiction|].
  exact (match_company_id x y b0 cuerpo Hx Hy Hc).
Qed.

(** X15.  An identifier made of two capital letters, "-CUIT-", a run of
    digits and hyphens that is not empty, and "-supplier" gives the two
    letters as the country; it gives the CUIT when the run has eleven
    digits, written as two digits, eight digits and one digit with hyphens
    between them, and no CUIT otherwise. *)
Theorem extraer_pais_y_cuit_completo x y cuerpo :
  in_range 65 90 x = true -> in_range 65 90 y = true ->
  cuerpo <> [] ->
  Forall (fun c => es_digito_o_guion c = true) cuerpo ->
  extraer_pais_y_cuit
    (PyStr ([x; y] ++ py "-CUIT-" ++ cuerpo ++ py "-supplier"))
  = (Some [x; y],
     if (length (replace_char (ch "-") [] cuerpo) =? 11)%nat
     then Some (formatear_cuit (replace_char (ch "-") [] cuerpo))
     else None).
Proof.
  intros Hx Hy Hne Hc.
  destruct (match_company_id_cuerpo x y cuerpo Hx Hy Hne Hc)
    as (m & Hm & H1 & H2).
  unfold extraer_pais_y_cuit. rewrite Hm, H1, H2.
  now destruct (_ =? _)%nat.
Qed.

Lemma extraer_pais_y_cuit_completo_witness :
  extraer_pais_y_cuit
    (PyStr ([ch "A"; ch "R"] ++ py "-CUIT-" ++ py "30-1234-5678-9"
            ++ py "-supplier"))
  = (Some [ch "A"; ch "R"],
     if (length (replace_char (ch "-") [] (py "30-1234-5678-9")) =? 11)%nat
     then Some (formatear_cuit (replace_char (ch "-") [] (py "30-1234-5678-9")))
     else None).
Proof.
  apply extraer_pais_y_cuit_completo.
  - reflexivity.
  - reflexivity.
  - vm_compute. discriminate.
  - vm_compute. repeat constructor.
Defined.

Lemma digito_no_guion c : py_isdigit c = true -> (c =? ch "-") = false.
Proof. intros H. clases. Qed.

Lemma formatear_sin_guiones ds :
  length ds = 11%nat -> Forall (fun c => py_isdigit c = true) ds ->
  replace_char (ch "-") [] (formatear_cuit ds) = ds.
Proof.
  intros Hl Hd.
  assert (Hg : Forall (fun c => (c =? ch "-") = false) ds)
    by (eapply Forall_impl; [|exact Hd]; apply digito_no_guion).
  unfold formatear_cuit. rewrite !replace_char_app.
  rewrite (replace_char_ajeno _ _ (take 2 ds)) by now apply Forall_take.
  rewrite (replace_char_ajeno _ _ (take 8 (drop 2 ds)))
    by now apply Forall_take, Forall_drop.
  rewrite (replace_char_ajeno _ _ (take 1 (drop 10 ds)))
    by now apply Forall_take, Forall_drop.
  change (replace_char (ch "-") [] (py "-")) with (@nil N). cbn [app].
  do 12 (destruct ds as [|? ds]; try discriminate Hl). reflexivity.
Qed.

(** X16.  Round trip: for a country of two capital letters and eleven
    digits, the identifier built from the formatted CUIT, and the one built
    from the bare digits, both give back the country and the formatted
    CUIT. *)
Theorem extraer_pais_y_cuit_ida_y_vuelta x y ds :
  in_range 65 90 x = true -> in_range 65 90 y = true ->
  length ds = 11%nat -> Forall (fun c => py_isdigit c = true) ds ->
  extraer_pais_y_cuit
    (PyStr ([x; y] ++ py "-CUIT-" ++ formatear_cuit ds ++ py "-supplier"))
  = (Some [x; y], Some (formatear_cuit ds))
  /\ extraer_pais_y_cuit
       (PyStr ([x; y] ++ py "-CUIT-" ++ ds ++ py "-supplier"))
     = (Some [x; y], Some (formatear_cuit ds)).
Proof.
  intros Hx Hy Hl Hd.
  assert (Hdg : Forall (fun c => es_digito_o_guion c = true) ds).
  { eapply Forall_impl; [|exact Hd]. intros c Hc. unfold es_digito_o_guion.
    now rewrite Hc. }
  assert (Hg : Forall (fun c => (c =? ch "-") = false) ds)
    by (eapply Forall_impl; [|exact Hd]; apply digito_no_guion).
  split.
  - destruct (match_company_id_cuerpo x y (formatear_cuit ds) Hx Hy)
      as (m & Hm & H1 & H2).
    + unfold formatear_cuit. now destruct (take 2 ds).
    + unfold formatear_cuit. rewrite !Forall_app.
      repeat split; try (now apply Forall_take);
        try (now apply Forall_take, Forall_drop);
        repeat constructor.
    + unfold extraer_pais_y_cuit. rewrite Hm, H1, H2.
      rewrite (formatear_sin_guiones ds Hl Hd), Hl. reflexivity.
  - destruct (match_company_id_cuerpo x y ds Hx Hy) as (m & Hm & H1 & H2).
    + now destruct ds.
    + exact Hdg.
    + unfold extraer_pais_y_cuit. rewrite Hm, H1, H2.
      rewrite (replace_char_ajeno _ _ ds Hg), Hl. reflexivity.
Qed.

Lemma extraer_pais_y_cuit_ida_y_vuelta_witness :
  extraer_pais_y_cuit
    (PyStr ([ch "A"; ch "R"] ++ py "-CUIT-"
            ++ formatear_cuit (py "30123456789") ++ py "-supplier"))
  = (Some [ch "A"; ch "R"], Some (formatear_cuit (py "30123456789")))
  /\ extraer_pais_y_cuit
       (PyStr ([ch "A"; ch "R"] ++ py "-CUIT-" ++ py "30123456789"
               ++ py "-supplier"))
     = (Some [ch "A"; ch "R"], Some (formatear_cuit (py "30123456789"))).
Proof.
  apply extraer_pais_y_cuit_ida_y_vuelta.
  - reflexivity.
  - reflexivity.
  - vm_compute. reflexivity.
  - vm_compute. repeat constructor.
Defined.

(** What a match of the identifier expression covers and captures. *)
Lemma run_company_id c c' :
  In c' (run re_company_id c) ->
  exists w1 w2,
    after c = w1 ++ py "-CUIT-" ++ w2 ++ py "-supplier" ++ after c'
    /\ at_eol c' = true
    /\ lang (Seq mayuscula mayuscula) w1
    /\ lang (Plus (Cls es_digito_o_guion)) w2
    /\ group 1 (groups c') = w1 /\ group 2 (groups c') = w2.
Proof.
  unfold re_company_id. intros Hin.
  apply in_run_seq in Hin as (c1 & Hc1 & Hin).
  apply in_run_seq in Hin as (c2 & Hc2 & Hin).
  apply in_run_seq in Hin as (c3 & Hc3 & Hin).
  apply in_run_seq in Hin as (c4 & Hc4 & Hin).
  apply in_run_grp in Hc1 as (d1 & <- & Hd1).
  apply in_run_grp in Hc3 as (d3 & <- & Hd3).
  pose proof (run_groups _ (sin_grupos_literal _) _ _ Hc2) as G2.
  pose proof (run_groups _ (sin_grupos_literal _) _ _ Hc4) as G4.
  pose proof (run_groups (Plus (Cls es_digito_o_guion)) eq_refl _ _ Hd3) as G3.
  apply run_sound in Hd1 as (w1 & S1 & L1).
  apply run_sound in Hc2 as (u2 & S2 & L2). apply lang_literal in L2. subst u2.
  apply run_sound in Hd3 as (w2 & S3 & L3).
  apply run_sound in Hc4 as (u4 & S4 & L4). apply lang_literal in L4. subst u4.
  cbn [run] in Hin. destruct (at_eol c4) eqn:Heol; [|destruct Hin].
  destruct Hin as [<-|[]].
  exists w1, w2.
  pose proof (sigue_consumed _ _ _ S1) as K1.
  pose proof (sigue_consumed _ _ _ S3) as K3.
  destruct S1 as [A1 _], S2 as [A2 _], S3 as [A3 _], S4 as [A4 _].
  unfold set_group in *. cbn [after before groups] in *.
  split; [now rewrite A1, A2, A3, A4|].
  split; [exact Heol|]. split; [exact L1|]. split; [exact L3|].
  rewrite G4. cbn [group]. change (2 =? 1)%nat with false.
  change (2 =? 2)%nat with true. cbv iota.
  split; [|exact K3]. rewrite G3, G2. cbn [group].
  change (1 =? 1)%nat with true. cbv iota. exact K1.
Qed.

(** X17.  Whenever [extraer_pais_y_cuit] gives a country, the identifier
    is the country, two capital letters, then "-CUIT-", a run of digits and
    hyphens that is not empty, and "-supplier", with nothing after it but
    possibly one newline; the CUIT is given exactly when the run has eleven
    digits, and it is those digits with the two hyphens. *)
Theorem extraer_pais_y_cuit_correcto s pais cuit :
  extraer_pais_y_cuit (PyStr s) = (Some pais, cuit) ->
  exists x y cuerpo resto,
    pais = [x; y] /\ in_range 65 90 x = true /\ in_range 65 90 y = true
    /\ s = pais ++ py "-CUIT-" ++ cuerpo ++ py "-supplier" ++ resto
    /\ (resto = [] \/ resto = [10])
    /\ cuerpo <> []
    /\ Forall (fun c => es_digito_o_guion c = true) cuerpo
    /\ Forall (fun c => py_isdigit c = true)
              (replace_char (ch "-") [] cuerpo)
    /\ cuit = (if (length (replace_char (ch "-") [] cuerpo) =? 11)%nat
               then Some (formatear_cuit (replace_char (ch "-") [] cuerpo))
               else None).
Proof.
  unfold extraer_pais_y_cuit.
  destruct (match_at re_company_id [] s) as [m|] eqn:Hm; [|discriminate].
  apply match_at_In, run_company_id in Hm
    as (w1 & w2 & Hs & Heol & L1 & L2 & G1 & G2).
  cbn [after] in Hs. rewrite G1, G2.
  destruct L1 as (u & v & -> & (x & -> & Hx) & (y & -> & Hy)).
  destruct L2 as (u & v & -> & (b & -> & Hb) & (ws0 & -> & Hws)).
  assert (Hc : Forall (fun c => es_digito_o_guion c = true)
                      ([b] ++ concat ws0)).
  { constructor; [exact Hb|].
    apply (Forall_concat_lang _ (lang (Cls es_digito_o_guion))); [|exact Hws].
    intros w (z & -> & Hz). now constructor. }
  intros Hres.
  exists x, y, ([b] ++ concat ws0), (after m).
  assert (Hp : pais = [x; y])
    by (destruct (_ =? _)%nat; now injection Hres as <- _).
  split; [exact Hp|]. split; [exact Hx|]. split; [exact Hy|].
  split; [now rewrite Hp|]. split.
  { unfold at_eol in Heol. destruct (after m) as [|a [|? ?]];
      [now left| |discriminate].
    apply N.eqb_eq in Heol. subst a. now right. }
  split; [discriminate|]. split; [exact Hc|].
  split; [now apply replace_guion_digitos|].
  destruct (_ =? _)%nat; now injection Hres as _ <-.
Qed.

Lemma extraer_pais_y_cuit_correcto_witness :
  exists x y cuerpo resto,
    py "AR" = [x; y] /\ in_range 65 90 x = true /\ in_range 65 90 y = true
    /\ py "AR-CUIT-30-12345678-9-supplier"
       = py "AR" ++ py "-CUIT-" ++ cuerpo ++ py "-supplier" ++ resto
    /\ (resto = [] \/ resto = [10])
    /\ cuerpo <> []
    /\ Forall (fun c => es_digito_o_guion c = true) cuerpo
    /\ Forall (fun c => py_isdigit c = true)
              (replace_char (ch "-") [] cuerpo)
    /\ Some (py "30-12345678-9")
       = (if (length (replace_char (ch "-") [] cuerpo) =? 11)%nat
          then Some (formatear_cuit (replace_char (ch "-") [] cuerpo))
          else None).
Proof.
  apply (extraer_pais_y_cuit_correcto (py "AR-CUIT-30-12345678-9-supplier")).
  vm_compute. reflexivity.
Defined.

(* ------------------------------------------------------------------ *)
(** ** Tender titles *)

Lemma search_from_encuentra (m : cursor -> list cursor) u : forall bef aft',
  m (Cursor (rev u ++ bef) aft' []) <> [] ->
  exists r, search_from m bef (u ++ aft') = Some r.
Proof.
  induction u as [|a u IH]; intros bef aft' Hm.
  - cbn [rev app] in *. destruct aft' as [|x rest]; cbn [search_from];
      destruct (m _) as [|c' l]; try contradiction; cbn [head]; eauto.
  - cbn [app search_from].
    destruct (head (m (Cursor bef (a :: u ++ aft') []))) as [c'|]; [eauto|].
    apply IH. cbn [rev] in Hm. now rewrite <- app_assoc in Hm.
Qed.

Lemma search_from_In (m : cursor -> list cursor) aft : forall bef bef' c',
  search_from m bef aft = Some (bef', c') ->
  exists aft', rev bef' ++ aft' = rev bef ++ aft
               /\ head (m (Cursor bef' aft' [])) = Some c'.
Proof.
  induction aft as [|x rest IH]; intros bef bef' c'; cbn [search_from].
  - destruct (head (m (Cursor bef [] []))) as [c1|] eqn:E; [|discriminate].
    intros [= <- <-]. eauto.
  - destruct (head (m (Cursor bef (x :: rest) []))) as [c1|] eqn:E.
    + intros [= <- <-]. eauto.
    + intros H. apply IH in H as (aft' & Heq & Hh). exists aft'.
      split; [|exact Hh]. rewrite Heq. cbn [rev]. now rewrite <- app_assoc.
Qed.

Lemma lang_star_ws w : lang (Star ws) w -> Forall (fun c => py_isspace c = true) w.
Proof.
  intros (l & -> & Hl).
  apply (Forall_concat_lang _ (lang ws)); [|exact Hl].
  intros u (z & -> & Hz). now constructor.
Qed.

Lemma lang_barra w : lang re_barra w -> In (ch "/") w.
Proof.
  intros (u & v & -> & _ & (a & b & -> & (x & -> & Hx) & _)).
  apply N.eqb_eq in Hx. subst x. apply in_or_app. right. now left.
Qed.

Lemma run_barra_barra bef v g :
  run re_barra (Cursor bef (ch "/" :: v) g) <> [].
Proof.
  unfold re_barra, ws. rewrite run_seq, run_star_cls. cbn [after].
  change (plen py_isspace (ch "/" :: v)) with 0%nat.
  cbn [countdown map flat_map]. rewrite advance_0, app_nil_r.
  unfold Chr. rewrite run_seq, run_cls. cbn [after before groups].
  rewrite N.eqb_refl. cbn [flat_map]. rewrite app_nil_r, run_star_cls.
  rewrite countdown_cabeza. discriminate.
Qed.

Lemma re_search_sin_barra s :
  ~ In (ch "/") s -> re_search (run re_barra) s = None.
Proof.
  intros Hno. unfold re_search.
  destruct (search_from (run re_barra) [] s) as [[bef' c']|] eqn:E;
    [|reflexivity].
  exfalso. apply search_from_In in E as (aft' & Heq & Hh).
  assert (Hin : In c' (run re_barra (Cursor bef' aft' [])))
    by (destruct (run re_barra _); [discriminate|injection Hh as ->; now left]).
  apply run_sound in Hin as (w & [Ha _] & Hw). cbn [after] in Ha.
  apply lang_barra in Hw. apply Hno. cbn [rev app] in Heq. rewrite <- Heq, Ha.
  apply in_or_app. right. apply in_or_app. now left.
Qed.

Lemma parsear_etapa_texto o :
  etapa_licitacion (parsear_nombre_licitacion o) = PyNone
  \/ exists e, etapa_licitacion (parsear_nombre_licitacion o) = PyStr e.
Proof.
  unfold parsear_nombre_licitacion. destruct o as [| |z|s]; try now left.
  destruct (re_split1 re_barra s) as [|p0 [|p1 [|? ?]]]; try now left.
  destruct (re_search etapa_codigo p1) as [[? m]|]; right; eauto.
Qed.

(** X18.  A title with no slash, and a value that is not text, give no
    field at all.  A title with a slash gives a type and a stage that are
    texts, and a code that is a text or [None]; none of the texts has
    whitespace at its ends.  The title of the documentation gives its three
    fields. *)
Theorem parsear_nombre_licitacion_barra :
  (forall s, ~ In (ch "/") s ->
     parsear_nombre_licitacion (PyStr s) = Campos PyNone PyNone PyNone)
  /\ (forall s, In (ch "/") s ->
        exists tipo etapa codigo,
          parsear_nombre_licitacion (PyStr s)
          = Campos (PyStr tipo) (PyStr etapa) codigo
          /\ strip tipo = tipo /\ strip etapa = etapa
          /\ (codigo = PyNone
              \/ exists c, codigo = PyStr c /\ strip c = c))
  /\ (forall o, (forall s, o <> PyStr s) ->
        parsear_nombre_licitacion o = Campos PyNone PyNone PyNone)
  /\ parsear_nombre_licitacion
       (PyStr (py "Contratación Menor / Preadjudicación N° 401-0086-LPU25"))
     = Campos (PyStr (py "Contratación Menor"))
              (PyStr (py "Preadjudicación"))
              (PyStr (py "401-0086-LPU25")).
Proof.
  split; [|split; [|split]].
  - intros s Hno. unfold parsear_nombre_licitacion, re_split1.
    now rewrite (re_search_sin_barra s Hno).
  - intros s Hin. apply in_split in Hin as (u & v & ->).
    unfold parsear_nombre_licitacion, re_split1, re_search.
    destruct (search_from_encuentra (run re_barra) u [] (ch "/" :: v))
      as [[bef c'] ->]; [apply run_barra_barra|].
    destruct (search_from etapa_codigo [] (after c')) as [[? m]|].
    + eexists _, _, _. split; [reflexivity|].
      split; [apply strip_id|]. split; [apply strip_id|].
      right. eexists. split; [reflexivity|apply strip_id].
    + eexists _, _, _. split; [reflexivity|].
      split; [apply strip_id|]. split; [apply strip_id|]. now left.
  - intros o Hno. destruct o as [| |z|s]; try reflexivity.
    now destruct (Hno s).
  - vm_compute. reflexivity.
Qed.

(** X19.  Extracting the fields of a row does not raise, whatever the row
    holds.  The stage it gives is [None] or one of the canonical tags; the
    type and the code are those parsed from the title. *)
Theorem extraer_campos_licitacion_etapa row :
  exists c,
    extraer_campos_licitacion row = Ok c
    /\ (etapa_licitacion c = PyNone
        \/ exists tag, etapa_licitacion c = PyStr tag
                       /\ tag ∈ etapas_canonicas)
    /\ tipo_licitacion c
       = tipo_licitacion
           (parsear_nombre_licitacion (default PyNone (f_nombre row)))
    /\ codigo_licitacion c
       = codigo_licitacion
           (parsear_nombre_licitacion (default PyNone (f_nombre row))).
Proof.
  unfold extraer_campos_licitacion.
  set (nombre := default PyNone (f_nombre row)).
  set (sumario := default (PyStr []) (f_sumario row)).
  assert (Hb : exists e,
             (e = PyNone \/ exists t, e = PyStr t)
             /\ etapa_licitacion
                  (parsear_licitacion_con_apertura nombre sumario) = e
             /\ tipo_licitacion
                  (parsear_licitacion_con_apertura nombre sumario)
                = tipo_licitacion (parsear_nombre_licitacion nombre)
             /\ codigo_licitacion
                  (parsear_licitacion_con_apertura nombre sumario)
                = codigo_licitacion (parsear_nombre_licitacion nombre)).
  { unfold parsear_licitacion_con_apertura.
    destruct (parsear_etapa_texto nombre) as [He|[t He]];
      destruct sumario as [| |z|s];
      try (eexists; split; [|split; [exact He|split; reflexivity]]; eauto).
    - destruct (negb _); [destruct (_ || _)|];
        (eexists; split; [|split; [reflexivity|split; reflexivity]]);
        cbn [etapa_licitacion]; rewrite ?He; eauto.
    - destruct (negb _); [destruct (_ || _)|];
        (eexists; split; [|split; [reflexivity|split; reflexivity]]);
        cbn [etapa_licitacion]; rewrite ?He; eauto. }
  destruct Hb as (e & He & -> & -> & ->).
  destruct He as [->|[t ->]].
  - eexists. split; [reflexivity|]. cbn. auto.
  - unfold normalizar_etapa. destruct (negb (truthy (PyStr t))).
    + eexists. split; [reflexivity|]. cbn. auto.
    + cbn [bind]. eexists. split; [reflexivity|].
      cbn [etapa_licitacion tipo_licitacion codigo_licitacion].
      split; [|auto].
      destruct (dict_get ETAPAS_MAP (lower t)) as [v|] eqn:E; [right|now left].
      exists v. split; [reflexivity|].
      unfold etapas_canonicas. apply elem_of_remove_dups, list_elem_of_In.
      eapply dict_get_In, E.
Qed.

(** X20.  The stage read from the summary.  When the title gives no stage
    and the summary holds "apertura:" or "fecha de apertura", in any case of
    the letters, the row gets the stage "apertura".  When the title gives a
    stage, the summary is not read. *)
Theorem extraer_campos_licitacion_apertura :
  (forall nombre sumario,
     truthy (etapa_licitacion (parsear_nombre_licitacion nombre)) = false ->
     contains (py "apertura:") (lower sumario)
     || contains (py "fecha de apertura") (lower sumario) = true ->
     extraer_campos_licitacion (FilaNorma (Some nombre) (Some (PyStr sumario)))
     = Ok (Campos (tipo_licitacion (parsear_nombre_licitacion nombre))
                  (PyStr (py "apertura"))
                  (codigo_licitacion (parsear_nombre_licitacion nombre))))
  /\ (forall nombre sumario sumario',
        truthy (etapa_licitacion (parsear_nombre_licitacion nombre)) = true ->
        extraer_campos_licitacion (FilaNorma (Some nombre) sumario)
        = extraer_campos_licitacion (FilaNorma (Some nombre) sumario'))
  /\ extraer_campos_licitacion
       (FilaNorma (Some (PyStr (py "Licitación Pública")))
                  (Some (PyStr (py "Fecha de Apertura: 10 de mayo"))))
     = Ok (Campos PyNone (PyStr (py "apertura")) PyNone)
  /\ extraer_campos_licitacion
       (FilaNorma
          (Some (PyStr (py "Contratación Menor / Preadjudicación N° 401-0086-LPU25")))
          (Some (PyStr (py "Fecha de Apertura: 10 de mayo"))))
     = Ok (Campos (PyStr (py "Contratación Menor"))
                  (PyStr (py "preadjudicacion"))
                  (PyStr (py "401-0086-LPU25"))).
Proof.
  split; [|split; [|split]].
  - intros nombre sumario Hno Hap.
    unfold extraer_campos_licitacion, parsear_licitacion_con_apertura.
    cbn [default from_option f_nombre f_sumario]. unfold id. cbv zeta. rewrite Hno, Hap.
    cbn [negb etapa_licitacion tipo_licitacion codigo_licitacion].
    replace (normalizar_etapa (PyStr (py "Apertura")))
      with (Ok (PyStr (py "apertura"))) by (vm_compute; reflexivity).
    reflexivity.
  - intros nombre sumario sumario' Hsi.
    unfold extraer_campos_licitacion, parsear_licitacion_con_apertura.
    cbn [default from_option f_nombre f_sumario]. unfold id. cbv zeta. rewrite Hsi. cbn [negb].
    destruct sumario as [[| |?|?]|], sumario' as [[| |?|?]|]; reflexivity.
  - vm_compute. reflexivity.
  - vm_compute. reflexivity.
Qed.

(* ------------------------------------------------------------------ *)
(** ** Tender titles: the parts of a title *)

Lemma lstrip_plen s : drop (plen py_isspace s) s = lstrip s.
Proof.
  induction s as [|c s IH]; [reflexivity|].
  cbn [plen lstrip]. destruct (py_isspace c); [exact IH|reflexivity].
Qed.

Lemma lstrip_nil s : lstrip s = [] -> Forall blanco s.
Proof.
  induction s as [|c s IH]; [constructor|].
  cbn [lstrip]. destruct (py_isspace c) eqn:E; [|discriminate].
  intros H. constructor; [exact E|now apply IH].
Qed.

Lemma lstrip_app_resto p g c r : lstrip p = c :: r -> lstrip (p ++ g) = lstrip p ++ g.
Proof.
  induction p as [|a p IH]; [discriminate|].
  cbn [lstrip app]. destruct (py_isspace a); [exact IH|reflexivity].
Qed.

Lemma strip_app_blancos p g : Forall blanco g -> strip (p ++ g) = strip p.
Proof.
  intros Hg. unfold strip.
  destruct (lstrip p) as [|c r] eqn:E.
  - apply lstrip_nil in E.
    rewrite (lstrip_blancos p g E).
    rewrite <- (app_nil_r g), (lstrip_blancos g [] Hg). reflexivity.
  - rewrite (lstrip_app_resto p g c r E), E. unfold rstrip.
    rewrite rev_app_distr, lstrip_blancos; [reflexivity|].
    apply Forall_forall. intros x Hx. apply in_rev in Hx.
    exact (proj1 (Forall_forall _ _) Hg x Hx).
Qed.

Lemma strip_lstrip s : strip (lstrip s) = strip s.
Proof.
  unfold strip. f_equal. apply lstrip_id, lstrip_cabeza.
Qed.

(** Where the longest run of whitespace at the start of a text ends, when
    the text is not whitespace throughout. *)
Lemma drop_plen_resto (p : N -> bool) u t :
  forallb p u = false ->
  exists z r, drop (plen p (u ++ t)) (u ++ t) = z :: r
              /\ In z u /\ p z = false.
Proof.
  induction u as [|a u IH]; [discriminate|].
  cbn [forallb app plen]. destruct (p a) eqn:E; cbn [andb drop].
  - intros H. destruct (IH H) as (z & r & Hd & Hz & Hp).
    exists z, r. split; [exact Hd|]. split; [now right|exact Hp].
  - intros _. exists a, (u ++ t). split; [reflexivity|].
    split; [now left|exact E].
Qed.

(** The match of the separator of a title at a position. *)
Lemma match_at_barra bef aft :
  match drop (plen py_isspace aft) aft with
  | x :: rest =>
    if ch "/" =? x
    then exists c', match_at re_barra bef aft = Some c'
                    /\ after c' = lstrip rest
    else match_at re_barra bef aft = None
  | [] => match_at re_barra bef aft = None
  end.
Proof.
  unfold match_at, re_barra, ws, Chr.
  rewrite run_seq, run_star_cls. cbn [after].
  set (m := plen py_isspace aft).
  rewrite flat_map_countdown_largo.
  - rewrite run_seq, run_cls. cbn [advance after before groups].
    destruct (drop m aft) as [|x rest] eqn:Hd; [reflexivity|].
    destruct (ch "/" =? x); [|reflexivity].
    cbn [flat_map]. rewrite app_nil_r, run_star_cls. cbn [after].
    rewrite countdown_cabeza. cbn [map head]. eexists. split; [reflexivity|].
    unfold advance. cbn [after]. apply lstrip_plen.
  - intros j Hj. rewrite run_seq, run_cls. cbn [advance after].
    destruct (plen_drop_lt _ _ _ Hj) as (x & rest & -> & Hx).
    replace (ch "/" =? x) with false; [reflexivity|].
    symmetry. apply N.eqb_neq. intros <-. discriminate Hx.
Qed.

(** The first separator of a title lies at the whitespace before the first
    slash. *)
Lemma search_barra u : forall bef v,
  ~ In (ch "/") u ->
  exists p g c',
    u = p ++ g /\ Forall blanco g
    /\ search_from (run re_barra) bef (u ++ ch "/" :: v)
       = Some (rev p ++ bef, c')
    /\ after c' = lstrip v.
Proof.
  induction u as [|a u IH]; intros bef v Hno.
  - exists [], []. pose proof (match_at_barra bef (ch "/" :: v)) as H.
    change (plen py_isspace (ch "/" :: v)) with 0%nat in H.
    cbn [drop] in H. rewrite N.eqb_refl in H. destruct H as (c' & Hm & Ha).
    exists c'. split; [reflexivity|]. split; [constructor|].
    split; [|exact Ha]. cbn [app search_from rev].
    unfold match_at in Hm. now rewrite Hm.
  - destruct (forallb py_isspace (a :: u)) eqn:E.
    + exists [], (a :: u).
      assert (Hg : Forall blanco (a :: u))
        by (apply Forall_forall; exact (proj1 (forallb_forall _ _) E)).
      pose proof (match_at_barra bef ((a :: u) ++ ch "/" :: v)) as H.
      rewrite (plen_app_all _ _ _ Hg) in H.
      change (plen py_isspace (ch "/" :: v)) with 0%nat in H.
      rewrite Nat.add_0_r, drop_app_length, N.eqb_refl in H.
      destruct H as (c' & Hm & Ha). exists c'.
      split; [reflexivity|]. split; [exact Hg|]. split; [|exact Ha].
      cbn [app search_from rev]. unfold match_at in Hm. cbn [app] in Hm.
      now rewrite Hm.
    + pose proof (match_at_barra bef ((a :: u) ++ ch "/" :: v)) as H.
      destruct (drop_plen_resto py_isspace (a :: u) (ch "/" :: v) E)
        as (z & r & Hd & Hz & Hp).
      rewrite Hd in H.
      replace (ch "/" =? z) with false in H
        by (symmetry; apply N.eqb_neq; intros <-; contradiction).
      destruct (IH (a :: bef) v) as (p & g & c' & -> & Hg & Hs & Ha).
      { intros Hin. apply Hno. now right. }
      exists (a :: p), g, c'. split; [reflexivity|]. split; [exact Hg|].
      split; [|exact Ha]. cbn [app search_from].
      unfold match_at in H. cbn [app] in H. rewrite H.
      rewrite Hs. cbn [rev]. now rewrite <- app_assoc.
Qed.

Lemma re_split1_barra u v :
  ~ In (ch "/") u ->
  exists p g,
    u = p ++ g /\ Forall blanco g
    /\ re_split1 re_barra (u ++ ch "/" :: v) = [p; lstrip v].
Proof.
  intros Hno. destruct (search_barra u [] v Hno)
    as (p & g & c' & Hu & Hg & Hs & Ha).
  exists p, g. split; [exact Hu|]. split; [exact Hg|].
  unfold re_split1, re_search. rewrite Hs, Ha.
  now rewrite app_nil_r, rev_involutive.
Qed.

Lemma star_lazy_sound (body : cursor -> list cursor) (P : str -> Prop) :
  (forall c c', In c' (body c) -> exists w, sigue c c' w /\ P w) ->
  forall fuel c c', In c' (star_lazy body fuel c) ->
    exists l, sigue c c' (concat l) /\ Forall P l.
Proof.
  intros Hbody. induction fuel as [|fuel IH]; intros c c' Hin;
    cbn [star_lazy In] in Hin.
  - destruct Hin as [<-|[]]. exists []. split; [apply sigue_refl|constructor].
  - destruct Hin as [<-|Hin].
    + exists []. split; [apply sigue_refl|constructor].
    + apply in_flat_map in Hin as (c1 & Hc1 & Hin).
      revert Hin.
      destruct (length (after c1) <? length (after c))%nat; intros Hin;
        [|exfalso; exact Hin].
      destruct (Hbody _ _ Hc1) as (w & Hw & HP).
      destruct (IH _ _ Hin) as (l & Hl & HF).
      exists (w :: l). split; [|now constructor].
      cbn. eapply sigue_trans; eauto.
Qed.

(** A match of the expression of the code covers a letter N followed by
    the degree sign. *)
Lemma etapa_codigo_sound c c' :
  In c' (etapa_codigo c) ->
  exists a x y b,
    after c = a ++ x :: y :: b
    /\ ieq (ch "N") x = true /\ ieq 176 y = true.
Proof.
  unfold etapa_codigo. intros Hin.
  apply in_flat_map in Hin as (c1 & Hc1 & Hin).
  apply in_map_iff in Hc1 as (c0 & <- & Hc0).
  apply (star_lazy_sound _ (lang punto)) in Hc0 as (l & [Ha0 _] & _);
    [|apply run_sound].
  apply run_sound in Hin as (w & [Ha _] & Hw).
  unfold set_group in Ha. cbn [after] in Ha.
  destruct Hw as (s1 & r1 & -> & _ & (x0 & r2 & -> & (x & -> & Hx)
                  & (y0 & r3 & -> & (y & -> & Hy) & _))).
  exists (concat l ++ s1), x, y, (r3 ++ after c').
  split; [|split; [exact Hx|exact Hy]].
  rewrite Ha0, Ha. rewrite <- !app_assoc. reflexivity.
Qed.

Lemma re_search_sin_numero s :
  sin_numero s -> re_search etapa_codigo s = None.
Proof.
  intros Hno. unfold re_search.
  destruct (search_from etapa_codigo [] s) as [[bef' c']|] eqn:E;
    [|reflexivity].
  exfalso. apply search_from_In in E as (aft' & Heq & Hh).
  assert (Hin : In c' (etapa_codigo (Cursor bef' aft' [])))
    by (destruct (etapa_codigo _); [discriminate|injection Hh as ->; now left]).
  apply etapa_codigo_sound in Hin as (a & x & y & b & Ha & Hx & Hy).
  cbn [after rev app] in *. subst aft'.
  assert (Hs : s = (rev bef' ++ a) ++ x :: y :: b)
    by (rewrite <- app_assoc; now symmetry).
  apply Hno in Hs. rewrite Hx, Hy in Hs. discriminate Hs.
Qed.

(** X22.  The parts of a title with a slash.  The type is the text before
    the first slash, without the whitespace at its ends.  When no letter N
    followed by the degree sign comes after that slash, the stage is the
    whole text after it, without the whitespace at its ends, and there is
    no code. *)
Theorem parsear_nombre_licitacion_partes u v :
  ~ In (ch "/") u ->
  tipo_licitacion (parsear_nombre_licitacion (PyStr (u ++ ch "/" :: v)))
  = PyStr (strip u)
  /\ (sin_numero v ->
      etapa_licitacion (parsear_nombre_licitacion (PyStr (u ++ ch "/" :: v)))
      = PyStr (strip v)
      /\ codigo_licitacion
           (parsear_nombre_licitacion (PyStr (u ++ ch "/" :: v)))
         = PyNone).
Proof.
  intros Hno. destruct (re_split1_barra u v Hno) as (p & g & Hu & Hg & Hs).
  unfold parsear_nombre_licitacion. rewrite Hs.
  assert (Ht : strip p = strip u) by (rewrite Hu; now rewrite strip_app_blancos).
  split.
  - destruct (re_search etapa_codigo (lstrip v)) as [[? m]|];
      cbn [tipo_licitacion]; now rewrite Ht.
  - intros Hv. rewrite re_search_sin_numero.
    + cbn [etapa_licitacion codigo_licitacion]. now rewrite strip_lstrip.
    + intros a x y b Hl. destruct (lstrip_sufijo v) as (q & Hq).
      apply (Hv (q ++ a) x y b). rewrite Hq at 1. rewrite Hl.
      now rewrite <- app_assoc.
Qed.

Lemma parsear_nombre_licitacion_partes_witness :
  tipo_licitacion
    (parsear_nombre_licitacion
       (PyStr (py " Obra  Menor " ++ ch "/" :: py " Llamado ")))
  = PyStr (strip (py " Obra  Menor "))
  /\ (sin_numero (py " Llamado ") ->
      etapa_licitacion
        (parsear_nombre_licitacion
           (PyStr (py " Obra  Menor " ++ ch "/" :: py " Llamado ")))
      = PyStr (strip (py " Llamado "))
      /\ codigo_licitacion
           (parsear_nombre_licitacion
              (PyStr (py " Obra  Menor " ++ ch "/" :: py " Llamado ")))
         = PyNone).
Proof.
  apply parsear_nombre_licitacion_partes.
  vm_compute. intuition discriminate.
Defined.

(* ------------------------------------------------------------------ *)
(** ** Tender titles: the stage and the code *)

Lemma seq_cons a m : seq a (S m) = a :: seq (S a) m.
Proof. reflexivity. Qed.

Lemma star_lazy_cls p fuel : forall c,
  (plen p (after c) <= fuel)%nat ->
  star_lazy (run (Cls p)) fuel c
  = map (advance c) (seq 0 (S (plen p (after c)))).
Proof.
  induction fuel as [|f IH]; intros c Hle.
  - assert (plen p (after c) = 0%nat) as -> by lia.
    cbn [star_lazy seq map]. now rewrite advance_0.
  - cbn [star_lazy]. rewrite run_cls. destruct c as [bef aft g].
    cbn [after before groups] in *.
    destruct aft as [|x rest]; cbn [plen] in *.
    + cbn [flat_map seq map]. now rewrite advance_0.
    + destruct (p x) eqn:Hx.
      * cbn [flat_map after length].
        rewrite (proj2 (Nat.ltb_lt _ _)) by lia.
        rewrite app_nil_r, IH by (cbn [after]; lia).
        cbn [after]. rewrite (seq_cons 0 (S (plen p rest))). cbn [map].
        rewrite advance_0. f_equal.
        rewrite <- seq_shift, map_map. apply map_ext. intros n.
        symmetry. exact (advance_S (Cursor bef (x :: rest) g) x rest n eq_refl).
      * cbn [flat_map seq map]. now rewrite advance_0.
Qed.

Lemma espacio_no_n x : py_isspace x = true -> ieq (ch "N") x = false.
Proof. intros H. clases. Qed.

Lemma ieq_n_casos n : ieq (ch "N") n = true -> n = 78 \/ n = 110.
Proof. intros H. clases. Qed.

Lemma consumed_advance c n :
  (n <= length (after c))%nat -> consumed c (advance c n) = take n (after c).
Proof.
  intros H. unfold consumed, advance. cbn [after]. rewrite length_drop.
  f_equal. lia.
Qed.

Lemma search_from_cabeza (m : cursor -> list cursor) bef aft c' :
  head (m (Cursor bef aft [])) = Some c' ->
  search_from m bef aft = Some (bef, c').
Proof. intros H. destruct aft; cbn [search_from]; now rewrite H. Qed.

Lemma lstrip_app_no_blanco e n r :
  py_isspace n = false -> lstrip (e ++ n :: r) = lstrip e ++ n :: r.
Proof.
  intros Hn. induction e as [|a e IH]; cbn [app lstrip].
  - now rewrite Hn.
  - destruct (py_isspace a); [exact IH|reflexivity].
Qed.

(** A text is a part that is empty or ends with a character that is not
    whitespace, followed by whitespace. *)
Lemma descomponer_cola s :
  exists p g,
    s = p ++ g /\ Forall blanco g
    /\ (p = [] \/ exists p0 z, p = p0 ++ [z] /\ py_isspace z = false).
Proof.
  induction s as [|a s (p & g & -> & Hg & Hp)].
  - exists [], []. split; [reflexivity|]. split; [constructor|now left].
  - destruct Hp as [->|(p0 & z & -> & Hz)].
    + destruct (py_isspace a) eqn:Ha.
      * exists [], (a :: g). split; [reflexivity|].
        split; [now constructor|now left].
      * exists [a], g. split; [reflexivity|]. split; [exact Hg|].
        right. exists [], a. auto.
    + exists (a :: p0 ++ [z]), g. split; [reflexivity|]. split; [exact Hg|].
      right. exists (a :: p0), z. auto.
Qed.

Lemma sin_numero_b_ok v : sin_numero_b v = true -> sin_numero v.
Proof.
  intros H a. revert v H. induction a as [|c a IH]; intros v H x y b ->.
  - cbn [app sin_numero_b] in H. apply andb_prop in H as [H _].
    now apply Bool.negb_true_iff in H.
  - cbn [app] in H. cbn [sin_numero_b] in H. apply andb_prop in H as [_ H].
    exact (IH _ H x y b eq_refl).
Qed.

Lemma sin_numero_sufijo q v : sin_numero (q ++ v) -> sin_numero v.
Proof.
  intros H a x y b ->. apply (H (q ++ a) x y b). now rewrite <- app_assoc.
Qed.

Lemma sin_numero_libre e n t :
  sin_numero e -> ieq 176 n = false -> libre (e ++ n :: t) (length e + 1).
Proof.
  intros He Hn i x y Hi Hx Hy.
  destruct (decide (i + 1 < length e)%nat) as [Hlt|Hge].
  - rewrite lookup_app_l in Hx by lia. rewrite lookup_app_l in Hy by lia.
    apply (He (take i e) x y (drop (S (S i)) e)).
    rewrite <- (take_drop i e) at 1. f_equal.
    rewrite (drop_S _ _ _ Hx). f_equal.
    replace (i + 1)%nat with (S i) in Hy by lia. apply (drop_S _ _ _ Hy).
  - rewrite lookup_app_r in Hy by lia.
    replace (i + 1 - length e)%nat with 0%nat in Hy by lia.
    cbn in Hy. injection Hy as <-. rewrite Hn. apply Bool.andb_false_r.
Qed.

(** Before the end of the last word ahead of the marker, the rest of the
    expression of the code does not match. *)
Lemma run_numero_codigo_antes (T p0 : str) z m j bef gr :
  (j <= length p0)%nat -> T !! length p0 = Some z -> py_isspace z = false ->
  libre T m -> (length p0 + 1 < m)%nat ->
  run re_numero_codigo (Cursor bef (drop j T) gr) = [].
Proof.
  intros Hj Hz Hws Hl Hm.
  destruct (run _ _) as [|c' l] eqn:E; [reflexivity|]. exfalso.
  assert (Hin : In c' (run re_numero_codigo (Cursor bef (drop j T) gr)))
    by (rewrite E; now left).
  apply run_sound in Hin as (w & [Ha _] & Hw). cbn [after] in Ha.
  destruct Hw as (s1 & r1 & -> & Hs1 & (x0 & r2 & -> & (x & -> & Hx)
                  & (y0 & r3 & -> & (y & -> & Hy) & _))).
  apply lang_star_ws in Hs1.
  rewrite <- !app_assoc in Ha. cbn [app] in Ha.
  assert (Hdx : drop j T !! length s1 = Some x)
    by (rewrite Ha; now apply list_lookup_middle).
  assert (Hdy : drop j T !! (length s1 + 1)%nat = Some y).
  { rewrite Ha, lookup_app_r by lia.
    replace (length s1 + 1 - length s1)%nat with 1%nat by lia. reflexivity. }
  rewrite lookup_drop in Hdx, Hdy.
  destruct (decide (j + length s1 <= length p0)%nat) as [Hle|Hgt].
  - rewrite Nat.add_assoc in Hdy.
    pose proof (Hl (j + length s1)%nat x y ltac:(lia) Hdx Hdy) as H.
    rewrite Hx, Hy in H. discriminate H.
  - assert (Hzs : drop j T !! (length p0 - j)%nat = Some z).
    { rewrite lookup_drop.
      replace (j + (length p0 - j))%nat with (length p0) by lia. exact Hz. }
    rewrite Ha, lookup_app_l in Hzs by lia.
    pose proof (Forall_lookup_1 _ _ _ _ Hs1 Hzs) as Hb. cbv beta in Hb.
    congruence.
Qed.

Lemma run_grupo_punto c :
  Forall (fun x => no_salto x = true) (after c) ->
  exists m rest,
    run (Grp 2 (Star punto)) c = m :: rest
    /\ groups m = (2%nat, after c) :: groups c.
Proof.
  intros H. rewrite run_grp. unfold punto. fold no_salto.
  rewrite run_star_cls, countdown_cabeza. cbn [map].
  eexists _, _. split; [reflexivity|]. cbn [set_group groups advance].
  f_equal. f_equal. rewrite consumed_advance by apply plen_le.
  rewrite (plen_all _ _ H). apply firstn_all.
Qed.

Lemma run_ws_grupo c :
  Forall (fun x => no_salto x = true) (after c) ->
  exists m rest,
    run (Seq (Star ws) (Grp 2 (Star punto))) c = m :: rest
    /\ groups m = (2%nat, lstrip (after c)) :: groups c.
Proof.
  intros H. rewrite run_seq. unfold ws. rewrite run_star_cls.
  rewrite countdown_cabeza. cbn [map flat_map].
  destruct (run_grupo_punto (advance c (plen py_isspace (after c))))
    as (m & rest & -> & Hm).
  { unfold advance. cbn [after]. now apply Forall_drop. }
  eexists _, _. split; [reflexivity|]. rewrite Hm.
  unfold advance. cbn [after groups]. now rewrite lstrip_plen.
Qed.

Lemma run_numero_codigo_cabeza bef g n k gr :
  Forall blanco g -> ieq (ch "N") n = true ->
  Forall (fun x => no_salto x = true) k ->
  exists m rest,
    run re_numero_codigo (Cursor bef (g ++ n :: 176 :: k) gr) = m :: rest
    /\ groups m = (2%nat, lstrip k) :: gr.
Proof.
  intros Hg Hn Hk.
  assert (Hnb : py_isspace n = false)
    by (destruct (ieq_n_casos n Hn) as [->| ->]; reflexivity).
  unfold re_numero_codigo, ws. rewrite run_seq, run_star_cls. cbn [after].
  rewrite (plen_app_stop py_isspace g n (176 :: k) Hnb).
  rewrite (plen_all py_isspace g Hg).
  rewrite flat_map_countdown_largo.
  2:{ intros j Hj. rewrite run_seq. unfold advance. cbn [after before groups].
      rewrite <- (plen_all py_isspace g Hg) in Hj.
      rewrite <- (plen_app_stop py_isspace g n (176 :: k) Hnb) in Hj.
      destruct (plen_drop_lt _ _ _ Hj) as (x & rest & -> & Hx).
      rewrite run_ichr. now rewrite (espacio_no_n x Hx). }
  rewrite (advance_app (Cursor bef (g ++ n :: 176 :: k) gr) g (n :: 176 :: k)
             eq_refl).
  cbn [before groups].
  rewrite run_seq, run_ichr, Hn. cbn [flat_map]. rewrite app_nil_r.
  rewrite run_seq, run_ichr. change (ieq 176 176) with true.
  cbn [flat_map]. rewrite app_nil_r. fold ws.
  destruct (run_ws_grupo (Cursor (176 :: n :: rev g ++ bef) k gr) Hk)
    as (m & rest & -> & Hm).
  exists m, rest. split; [reflexivity|exact Hm].
Qed.

(** The first match of the expression of the code in a text that has its
    first marker after a part without newline. *)
Lemma etapa_codigo_cabeza p g n k :
  (p = [] \/ exists p0 z, p = p0 ++ [z] /\ py_isspace z = false) ->
  Forall blanco g -> Forall (fun x => no_salto x = true) p ->
  ieq (ch "N") n = true ->
  libre (p ++ g ++ n :: 176 :: k) (length (p ++ g) + 1) ->
  Forall (fun x => no_salto x = true) k ->
  exists m,
    head (etapa_codigo (Cursor [] (p ++ g ++ n :: 176 :: k) [])) = Some m
    /\ group 1 (groups m) = p /\ group 2 (groups m) = lstrip k.
Proof.
  intros Hp Hg Hpn Hn Hl Hk. unfold etapa_codigo. cbn [after].
  unfold punto at 1. fold no_salto.
  rewrite star_lazy_cls by (cbn [after]; apply plen_le). cbn [after].
  rewrite (plen_app_all no_salto p _ Hpn).
  replace (S (length p + plen no_salto (g ++ n :: 176 :: k)))
    with (length p + S (plen no_salto (g ++ n :: 176%N :: k)))%nat by lia.
  rewrite seq_app, !map_app, flat_map_app.
  rewrite (flat_map_nil _ (map _ (map _ (seq 0 (length p))))).
  2:{ intros c Hc. apply in_map_iff in Hc as (c1 & <- & Hc1).
      apply in_map_iff in Hc1 as (j & <- & Hj). apply in_seq in Hj.
      destruct Hp as [->|(p0 & z & -> & Hz)]; [cbn in Hj; lia|].
      unfold set_group, advance. cbn [before after groups].
      rewrite length_app in Hj. cbn [length] in Hj.
      apply (run_numero_codigo_antes _ p0 z
               (length ((p0 ++ [z]) ++ g) + 1) j); [lia| |exact Hz|exact Hl|].
      - rewrite <- app_assoc. cbn [app]. now apply list_lookup_middle.
      - rewrite !length_app. cbn [length]. lia. }
  cbn [app]. rewrite (seq_cons (0 + length p)). cbn [map flat_map].
  rewrite Nat.add_0_l.
  rewrite (advance_app (Cursor [] (p ++ g ++ n :: 176 :: k) []) p
             (g ++ n :: 176 :: k) eq_refl).
  unfold set_group at 1. cbn [before after groups].
  rewrite (sigue_consumed _ _ p) by (split; reflexivity).
  destruct (run_numero_codigo_cabeza (rev p ++ []) g n k [(1%nat, p)] Hg Hn Hk)
    as (m & rest & -> & Hm).
  exists m. split; [reflexivity|]. rewrite Hm. cbn [group].
  change (2 =? 1)%nat with false. change (2 =? 2)%nat with true.
  change (1 =? 1)%nat with true. cbv iota. auto.
Qed.

Lemma no_salto_Forall s : ~ In 10 s -> Forall (fun x => no_salto x = true) s.
Proof.
  intros H. apply Forall_forall. intros x Hx. unfold no_salto.
  apply Bool.negb_true_iff, N.eqb_neq. intros ->. contradiction.
Qed.

(** X23.  A title with its three parts.  When the text before the first
    slash has no slash, the text after it up to the first letter N followed
    by the degree sign has no newline, and the text after that sign has no
    newline, the type, the stage and the code are these three texts without
    the whitespace at their ends. *)
Theorem parsear_nombre_licitacion_codigo u e n k :
  ~ In (ch "/") u ->
  ieq (ch "N") n = true ->
  sin_numero e -> ~ In 10 e -> ~ In 10 k ->
  parsear_nombre_licitacion (PyStr (u ++ ch "/" :: e ++ n :: 176 :: k))
  = Campos (PyStr (strip u)) (PyStr (strip e)) (PyStr (strip k)).
Proof.
  intros Hu Hn He Hen Hkn.
  assert (Hnb : py_isspace n = false)
    by (destruct (ieq_n_casos n Hn) as [->| ->]; reflexivity).
  assert (Hn176 : ieq 176 n = false)
    by (destruct (ieq_n_casos n Hn) as [->| ->]; reflexivity).
  destruct (re_split1_barra u (e ++ n :: 176 :: k) Hu)
    as (pu & gu & Hpu & Hgu & Hs).
  unfold parsear_nombre_licitacion. rewrite Hs.
  rewrite (lstrip_app_no_blanco e n (176 :: k) Hnb).
  destruct (lstrip_sufijo e) as (q & Hq).
  destruct (descomponer_cola (lstrip e)) as (p & g & Hpg & Hg & Hp).
  assert (Hle : Forall (fun x => no_salto x = true) (lstrip e)).
  { apply no_salto_Forall. intros H. apply Hen. rewrite Hq.
    apply in_or_app. now right. }
  assert (Hl : libre (p ++ g ++ n :: 176 :: k) (length (p ++ g) + 1)).
  { rewrite app_assoc, <- Hpg. apply sin_numero_libre; [|exact Hn176].
    apply (sin_numero_sufijo q). now rewrite <- Hq. }
  rewrite Hpg, <- app_assoc.
  rewrite Hpg in Hle. apply Forall_app in Hle as [Hlp _].
  destruct (etapa_codigo_cabeza p g n k Hp Hg Hlp Hn Hl
              (no_salto_Forall k Hkn)) as (m & Hm & G1 & G2).
  unfold re_search. rewrite (search_from_cabeza _ _ _ _ Hm), G1, G2.
  f_equal.
  - f_equal. rewrite Hpu. now rewrite strip_app_blancos.
  - f_equal. rewrite <- (strip_lstrip e), Hpg. now rewrite strip_app_blancos.
  - f_equal. apply strip_lstrip.
Qed.

Lemma parsear_nombre_licitacion_codigo_witness :
  parsear_nombre_licitacion
    (PyStr (py "Contratación Menor " ++ ch "/" :: py " Preadjudicación "
            ++ ch "N" :: 176 :: py " 401-0086-LPU25"))
  = Campos (PyStr (strip (py "Contratación Menor ")))
           (PyStr (strip (py " Preadjudicación ")))
           (PyStr (strip (py " 401-0086-LPU25"))).
Proof.
  apply parsear_nombre_licitacion_codigo.
  - vm_compute. intuition discriminate.
  - reflexivity.
  - apply sin_numero_b_ok. vm_compute. reflexivity.
  - vm_compute. intuition discriminate.
  - vm_compute. intuition discriminate.
Defined.

(* ------------------------------------------------------------------ *)
(** ** The batch search: what is detected *)

Lemma dict_get_Some {V} (d : list (str * V)) k :
  In k (map fst d) -> exists v, dict_get d k = Some v.
Proof.
  induction d as [|[k' v'] d IH]; cbn [map fst In dict_get]; [intros []|].
  intros [->|Hin].
  - destruct (dict_get d k); [eauto|].
    unfold str_eqb. rewrite bool_decide_eq_true_2 by reflexivity. eauto.
  - destruct (IH Hin) as (v & ->). eauto.
Qed.

Lemma probar_bloques_sound (ratio : str -> str -> Z) df th segs :
  forall det d,
    probar_bloques ratio df th det segs = Ok d ->
    forall x, In x d ->
      In x det \/ dict_get df (snd x) = Some (fst x).
Proof.
  induction segs as [|seg segs IH]; intros det d Hd x Hx;
    cbn [probar_bloques] in Hd.
  - injection Hd as <-. now left.
  - unfold probar_bloque in Hd.
    destruct (extractOne ratio seg (mapa_keys df)) as [[nombre score]|] eqn:E;
      [|discriminate].
    apply extractOne_In in E as [Hn _].
    destruct (th <=? score)%Z; cbn [bind] in Hd.
    + destruct (IH _ _ Hd x Hx) as [H|H]; [|now right].
      apply in_app_or in H as [H|[<-|[]]]; [now left|right].
      cbn [fst snd]. unfold mapa_keys in Hn.
      apply (proj1 (drop_duplicates_In _ _)) in Hn.
      destruct (dict_get_Some df nombre Hn) as (v & ->). reflexivity.
    + now apply (IH _ _ Hd).
Qed.

Lemma cuerpo_try_sound (ratio : str -> str -> Z) df th bs id0 row id' r :
  cuerpo_try ratio df th bs id0 row = (id', Ok r) ->
  detectadas_en_registro df r.
Proof.
  unfold cuerpo_try.
  destruct (columna (texto_licitaciones row)) as [texto|e]; [|discriminate].
  destruct (columna (l_id_norma row)) as [id|e]; [|discriminate].
  destruct (isna texto).
  { intros [= _ <-]. split; [constructor|intros ? ? []]. }
  destruct (limpiar_upper texto) as [t|e]; cbn [bind]; [|discriminate].
  destruct bs as [|bs]; [discriminate|].
  destruct (probar_bloques ratio df th [] _) as [d|e] eqn:E; cbn [bind];
    [|discriminate].
  intros [= _ <-]. split; [apply drop_duplicates_from_NoDup|].
  intros cuit nombre Hin. apply (proj1 (drop_duplicates_In _ _)) in Hin.
  apply filter_In in Hin as [Hin Ht]. split; [exact Ht|].
  destruct (probar_bloques_sound _ _ _ _ _ _ E _ Hin) as [[]|H]. exact H.
Qed.

Lemma filas_con_progreso_sound (ratio : str -> str -> Z) df th bs rows :
  forall id0 acc res,
    filas_con_progreso ratio df th bs id0 acc rows = Ok res ->
    Forall (detectadas_en_registro df) acc ->
    Forall (detectadas_en_registro df) res.
Proof.
  induction rows as [|row rows IH]; intros id0 acc res Hr Hacc;
    cbn [filas_con_progreso] in Hr.
  - now injection Hr as <-.
  - destruct (cuerpo_try ratio df th bs id0 row) as [id' [r|e]] eqn:E.
    + apply (IH _ _ _ Hr). apply Forall_app. split; [exact Hacc|].
      constructor; [|constructor]. eapply cuerpo_try_sound, E.
    + destruct id' as [id'|]; [|discriminate].
      apply (IH _ _ _ Hr). apply Forall_app. split; [exact Hacc|].
      constructor; [|constructor]. split; [constructor|intros ? ? []].
Qed.

(** X24.  When the tenders frame has its two columns, the batch search
    returns, for each row, a list in which no company is repeated and each
    company has a CUIT that is true as a condition and is the one the
    registry holds for its name. *)
Theorem procesar_licitaciones_en_registro (token_set_ratio : str -> str -> Z)
    df df_empresas threshold bloque_size :
  Forall (fun row => exists texto id,
            row = Licitacion (Some texto) (Some id)) df ->
  exists res,
    procesar_licitaciones_con_progreso token_set_ratio df df_empresas
      threshold bloque_size
    = Ok res
    /\ Forall (detectadas_en_registro df_empresas) res.
Proof.
  intros Hdf. unfold procesar_licitaciones_con_progreso.
  destruct (filas_con_progreso_columnas token_set_ratio df_empresas threshold
              bloque_size df Hdf None []) as (res & Hres & _).
  exists res. split; [exact Hres|].
  eapply filas_con_progreso_sound; [exact Hres|constructor].
Qed.

Lemma procesar_licitaciones_en_registro_witness :
  exists res,
    procesar_licitaciones_con_progreso ratio_palabra
      [Licitacion (Some PyNaN) (Some (PyInt 7));
       Licitacion (Some (PyStr (py "obra de acme"))) (Some (PyInt 8))]
      [(py "ACME", PyStr (py "30-12345678-9"))] 85 500
    = Ok res
    /\ Forall (detectadas_en_registro
                 [(py "ACME", PyStr (py "30-12345678-9"))]) res.
Proof.
  apply procesar_licitaciones_en_registro.
  repeat constructor; eexists; eexists; reflexivity.
Defined.
